(** * lib/my_env.py: environment bootstrap utilities

    A shallow embedding of the functions of [lib/my_env.py], the
    properties its specification states about them and, in the last part,
    further properties of the code.

    Python strings are [string]s (UTF-8 bytes), Python integers are [Z].
    The process state the module touches (file system, environment
    variables, the [logging] module) is an explicit [world], and standard
    output is a [console]; a Python function is a computation [M A] that threads the
    world and either returns a value or raises an exception.  A raised
    exception keeps the world it was raised in: side effects are not rolled
    back.

    The platform is CPython on Linux: [posixpath], a file name of at most
    255 bytes and a path of fewer than 4096, and integers whose text has at
    most 4300 digits.  [str.upper] is followed on ASCII strings.

    Third-party code ([pathvalidate], [json], [configparser], [dotenv]) is not
    part of the module.  Where only the call matters it is a [Variable] of a
    [Section]; [Module Posix] gives one concrete instance of those variables,
    used to run the functions on concrete inputs. *)

From Stdlib Require Import ZArith List Ascii String Lia DecimalString Sorted.
From Stdlib Require DecimalFacts DecimalPos DecimalZ.
From stdpp Require Import gmap strings.

Set Warnings "-register-all,-notation-for-abbreviation".

Open Scope string_scope.
Open Scope list_scope.
Open Scope Z_scope.

(** ** The world *)

(** A path names a regular file with its contents, or a directory. *)
Inductive node :=
| File (content : string)
| Dir.

(** Exception classes the module can meet. *)
Inductive exn :=
| ValidationError (reason : string)   (* pathvalidate *)
| FileNotFoundError
| FileExistsError
| IsADirectoryError
| NotADirectoryError
| AttributeError                      (* None.upper() *)
| TypeError                           (* os.path.join(None, ...), json.dumps *)
| ValueError                          (* Logger.setLevel on an unknown name,
                                         a NUL byte in a path, an int too
                                         long for its text *)
| OSError (errno : Z)                 (* an OSError of no subclass *)
| ConfigError (reason : string).      (* configparser.Error *)

(** The handlers a root logger gets here: the [StreamHandler] on
    [sys.stderr] that [logging.basicConfig()] installs, and a
    [logging.handlers.RotatingFileHandler]. *)
Inductive handler :=
| StreamHandler
| RotatingFile (baseFilename : string) (maxBytes backupCount : Z)
    (encoding fmt datefmt : string).

(** Numeric severities of [logging]. *)
Definition logging_DEBUG : Z := 10.
Definition logging_INFO : Z := 20.
Definition logging_WARNING : Z := 30.
Definition logging_ERROR : Z := 40.
Definition logging_CRITICAL : Z := 50.

Record world := World {
  files : gmap string node;           (* the file system, by path; log output
                                         is in [records], not here *)
  environ : gmap string string;       (* os.environ *)
  root_level : Z;                     (* logging.getLogger().level *)
  root_handlers : list handler;       (* logging.getLogger().handlers *)
  named_levels : gmap string Z;       (* levels set on named loggers *)
  records : list (Z * string)         (* calls on the root logger, oldest first *)
}.

Definition set_files (f : gmap string node) (w : world) : world :=
  World f (environ w) (root_level w) (root_handlers w) (named_levels w) (records w).
Definition set_environ (e : gmap string string) (w : world) : world :=
  World (files w) e (root_level w) (root_handlers w) (named_levels w) (records w).
Definition set_root_level (l : Z) (w : world) : world :=
  World (files w) (environ w) l (root_handlers w) (named_levels w) (records w).
Definition set_root_handlers (h : list handler) (w : world) : world :=
  World (files w) (environ w) (root_level w) h (named_levels w) (records w).
Definition set_named_levels (n : gmap string Z) (w : world) : world :=
  World (files w) (environ w) (root_level w) (root_handlers w) n (records w).
Definition set_records (r : list (Z * string)) (w : world) : world :=
  World (files w) (environ w) (root_level w) (root_handlers w) (named_levels w) r.

(** ** Computations that may raise *)

Inductive result (A : Type) :=
| Returns (a : A)
| Raises (e : exn).
Arguments Returns {A} a.
Arguments Raises {A} e.

Definition M (A : Type) : Type := world -> world * result A.

Definition ret {A} (a : A) : M A := fun w => (w, Returns a).
Definition raise {A} (e : exn) : M A := fun w => (w, Raises e).
Definition bind {A B} (m : M A) (k : A -> M B) : M B :=
  fun w =>
    match m w with
    | (w', Returns a) => k a w'
    | (w', Raises e) => (w', Raises e)
    end.

Notation "x <- m ;; k" := (bind m (fun x => k))
  (at level 100, m at next level, right associativity).
Notation "m ;; k" := (bind m (fun _ => k))
  (at level 100, right associativity).

(** [try: m except E: h]: the handler chooses the exceptions it catches. *)
Definition try_except {A} (m : M A) (h : exn -> option (M A)) : M A :=
  fun w =>
    match m w with
    | (w', Returns a) => (w', Returns a)
    | (w', Raises e) =>
        match h e with
        | Some k => k w'
        | None => (w', Raises e)
        end
    end.

(** ** os.path (posixpath) *)

Definition sep : ascii := "/"%char.

Definition startswith_sep (s : string) : bool :=
  match s with
  | String c _ => Ascii.eqb c sep
  | EmptyString => false
  end.

Fixpoint endswith_sep (s : string) : bool :=
  match s with
  | EmptyString => false
  | String c EmptyString => Ascii.eqb c sep
  | String _ r => endswith_sep r
  end.

Definition is_empty (s : string) : bool :=
  match s with EmptyString => true | _ => false end.

(** [os.path.join(a, b)] *)
Definition os_path_join (a b : string) : string :=
  if startswith_sep b then b
  else if is_empty a || endswith_sep a then a +:+ b
  else a +:+ String sep b.

(** [p[:i], p[i:]] for [i = p.rfind(sep) + 1] *)
Fixpoint cut_last_sep (p : string) : string * string :=
  match p with
  | EmptyString => (EmptyString, EmptyString)
  | String c r =>
      let (h, t) := cut_last_sep r in
      if is_empty h then
        if Ascii.eqb c sep then (String c EmptyString, r) else (EmptyString, String c r)
      else (String c h, t)
  end.

Fixpoint all_sep (s : string) : bool :=
  match s with
  | EmptyString => true
  | String c r => Ascii.eqb c sep && all_sep r
  end.

(** [s.rstrip(sep)] *)
Fixpoint rstrip_sep (s : string) : string :=
  match s with
  | EmptyString => EmptyString
  | String c r =>
      let r' := rstrip_sep r in
      if is_empty r' && Ascii.eqb c sep then EmptyString else String c r'
  end.

(** [os.path.split(p)] *)
Definition os_path_split (p : string) : string * string :=
  let (head, tail) := cut_last_sep p in
  if negb (is_empty head) && negb (all_sep head)
  then (rstrip_sep head, tail)
  else (head, tail).

Definition os_path_dirname (p : string) : string := fst (os_path_split p).

(** Whether some character of [s] satisfies [p], and [s] without those. *)
Fixpoint contains (p : ascii -> bool) (s : string) : bool :=
  match s with
  | EmptyString => false
  | String c r => p c || contains p r
  end.

Fixpoint remove (p : ascii -> bool) (s : string) : string :=
  match s with
  | EmptyString => ""
  | String c r => if p c then remove p r else String c (remove p r)
  end.

(** ** File system calls

    The file system gives what stands at a path.  Paths are compared as
    strings, so they are taken in normal form, without a separator at the
    end; there are no links and no permissions, and the content of a file is
    a text.  The empty directory name is the current directory and a name of
    separators only is the root; both exist.

    [open] for writing and for reading follow Linux on every path: a NUL
    byte, a path or a name that is too long, a separator at the end, and a
    regular file where a directory should be have their errors.  [os.mkdir]
    and [open] for appending create under a name the OS accepts
    ([os_accepts]), and their errors are those of the walk to the
    directory. *)

Definition isdir (fs : gmap string node) (p : string) : bool :=
  match fs !! p with Some Dir => true | _ => false end.

Definition isfile (fs : gmap string node) (p : string) : bool :=
  match fs !! p with Some (File _) => true | _ => false end.

Definition parent_exists (fs : gmap string node) (p : string) : bool :=
  let d := os_path_dirname p in
  is_empty d || all_sep d || isdir fs d.

(** [os.path.basename(p)] *)
Definition os_path_basename (p : string) : string := snd (os_path_split p).

(** The limits of Linux: a name has at most [NAME_MAX] bytes and a path
    fewer than [PATH_MAX]; [errno] 36 reports what is longer. *)
Definition NAME_MAX : nat := 255.
Definition PATH_MAX : nat := 4096.
Definition ENAMETOOLONG : Z := 36.

Definition has_nul (p : string) : bool :=
  contains (fun c => Ascii.eqb c Ascii.zero) p.

(** The names [.] and [..], which stand for directories. *)
Definition dot_name (s : string) : bool :=
  String.eqb s "." || String.eqb s "..".

(** What the kernel reports when it walks to the directory [d], component
    by component from the top: nothing when [d] is the current directory,
    the root or a directory that is there; [ENOTDIR] when a regular file
    stands at [d] or, with [d] missing, where a directory above it should
    be; else the error of the first component that is missing,
    [ENAMETOOLONG] when its name is too long and [ENOENT] when it is
    not. *)
Fixpoint resolve_dir (fuel : nat) (fs : gmap string node) (d : string) : option exn :=
  if is_empty d || all_sep d then None
  else
    match fs !! d with
    | Some Dir => None
    | Some (File _) => Some NotADirectoryError
    | None =>
        match fuel with
        | O => Some FileNotFoundError
        | S fuel' =>
            match resolve_dir fuel' fs (os_path_dirname d) with
            | Some e => Some e
            | None =>
                if (NAME_MAX <? String.length (os_path_basename d))%nat
                then Some (OSError ENAMETOOLONG)
                else Some FileNotFoundError
            end
        end
    end.

Definition dir_error (fs : gmap string node) (d : string) : option exn :=
  resolve_dir (String.length d) fs d.

(** The error of a call on [p] when the directory [p] lies in is not
    there. *)
Definition missing_error (fs : gmap string node) (p : string) : exn :=
  match dir_error fs (os_path_dirname p) with
  | Some e => e
  | None => FileNotFoundError
  end.

(** A path the OS accepts as the name of a file: not empty, without a NUL
    byte, shorter than [PATH_MAX], not ending in a separator, and with a
    last component of at most [NAME_MAX] bytes that is not [.] or [..]. *)
Definition os_accepts (p : string) : bool :=
  negb (is_empty p) && negb (has_nul p)
  && (String.length p <? PATH_MAX)%nat
  && negb (endswith_sep p)
  && (String.length (os_path_basename p) <=? NAME_MAX)%nat
  && negb (dot_name (os_path_basename p)).

(** Why a file cannot be created at [p], where nothing stands: [open] of
    Python refuses a NUL byte; the kernel refuses the empty path, a path
    that is too long, the root and, once the directories above are found,
    a trailing separator ([EISDIR]); then the directory has to be there,
    the name must not be [.] or [..] ([EISDIR]) and must not be too
    long. *)
Definition create_error (fs : gmap string node) (p : string) : option exn :=
  if has_nul p then Some ValueError
  else if is_empty p then Some FileNotFoundError
  else if (PATH_MAX <=? String.length p)%nat then Some (OSError ENAMETOOLONG)
  else if all_sep p then Some IsADirectoryError
  else if endswith_sep p then
    Some (match dir_error fs (os_path_dirname (os_path_dirname p)) with
          | Some e => e
          | None => IsADirectoryError
          end)
  else
    match dir_error fs (os_path_dirname p) with
    | Some e => Some e
    | None =>
        if dot_name (os_path_basename p) then Some IsADirectoryError
        else if (NAME_MAX <? String.length (os_path_basename p))%nat
        then Some (OSError ENAMETOOLONG)
        else None
    end.

(** The error of opening [p] for reading, where nothing stands. *)
Definition read_error (fs : gmap string node) (p : string) : exn :=
  if has_nul p then ValueError
  else if is_empty p then FileNotFoundError
  else if (PATH_MAX <=? String.length p)%nat then OSError ENAMETOOLONG
  else if all_sep p then IsADirectoryError
  else
    match dir_error fs (os_path_dirname p) with
    | Some e => e
    | None =>
        if endswith_sep p || dot_name (os_path_basename p)
        then IsADirectoryError
        else if (NAME_MAX <? String.length (os_path_basename p))%nat
        then OSError ENAMETOOLONG
        else FileNotFoundError
    end.

Definition os_path_isdir (p : string) : M bool :=
  fun w => (w, Returns (isdir (files w) p)).

Definition os_path_isfile (p : string) : M bool :=
  fun w => (w, Returns (isfile (files w) p)).

(** [os.mkdir(p)]: one level only, for a name the OS accepts. *)
Definition os_mkdir (p : string) : M unit :=
  fun w =>
    match files w !! p with
    | Some _ => (w, Raises FileExistsError)
    | None =>
        if parent_exists (files w) p
        then (set_files (<[p := Dir]> (files w)) w, Returns tt)
        else (w, Raises (missing_error (files w) p))
    end.

(** [open(p, 'w')]: creates the file or truncates it; the handle is the path. *)
Definition open_w (p : string) : M string :=
  fun w =>
    match files w !! p with
    | Some Dir => (w, Raises IsADirectoryError)
    | Some (File _) => (set_files (<[p := File ""]> (files w)) w, Returns p)
    | None =>
        match create_error (files w) p with
        | Some e => (w, Raises e)
        | None => (set_files (<[p := File ""]> (files w)) w, Returns p)
        end
    end.

(** [fh.write(s)] on a handle opened for writing. *)
Definition fh_write (fh : string) (s : string) : M unit :=
  fun w =>
    match files w !! fh with
    | Some (File c) => (set_files (<[fh := File (c +:+ s)]> (files w)) w, Returns tt)
    | _ => (w, Returns tt)
    end.

(** [with open(p, 'w') as fh: body] *)
Definition with_open_w {A} (p : string) (body : string -> M A) : M A :=
  fh <- open_w p ;; body fh.

(** [logging.getLogger().log(lvl, msg)]: the call is recorded; what the
    handlers then emit to their streams, which depends on the levels and on
    the formatters, is not followed into [files]. *)
Definition root_log (lvl : Z) (msg : string) : M unit :=
  fun w => (set_records (records w ++ [(lvl, msg)]) w, Returns tt).

(** [logging.basicConfig()]: nothing when the root logger has a handler. *)
Definition logging_basicConfig (w : world) : world :=
  match root_handlers w with
  | [] => set_root_handlers [StreamHandler] w
  | _ :: _ => w
  end.

(** [logging.info(msg)] and the like: [basicConfig()] first when the root
    logger has no handler. *)
Definition logging_log (lvl : Z) (msg : string) : M unit :=
  fun w => root_log lvl msg (logging_basicConfig w).
Definition logging_info := logging_log logging_INFO.
Definition logging_critical := logging_log logging_CRITICAL.

(** The world after such a call. *)
Definition logged (lvl : Z) (msg : string) (w : world) : world :=
  fst (logging_log lvl msg w).

(** ** Python values and json

    The structures [dump_structure] is given: the JSON-representable values
    (a [dict] keeps its insertion order and has [str] keys) and [PObject],
    which stands for any object [json] has no encoding for (a set, a class
    instance).  A float is given by its [repr]: [PFloat "1.5"], [PFloat
    "1e-05"], [PFloat "nan"]. *)

Inductive pyval :=
| PNone
| PBool (b : bool)
| PInt (n : Z)
| PFloat (repr : string)
| PStr (s : string)
| PList (l : list pyval)
| PDict (d : list (string * pyval))
| PObject (name : string).

Definition dquote : ascii := "034"%char.
Definition newline : ascii := "010"%char.

(** [s * n] *)
Fixpoint str_mul (s : string) (n : nat) : string :=
  match n with
  | O => ""
  | S k => s +:+ str_mul s k
  end.

Definition hex_digit (n : N) : ascii :=
  if (n <? 10)%N then ascii_of_N (48 + n) else ascii_of_N (87 + n).

(** [ESCAPE_DCT] of [json.encoder]: the replacement of one character when
    [ensure_ascii] is false. *)
Definition escape_char (c : ascii) : string :=
  let n := N_of_ascii c in
  if Ascii.eqb c "\"%char then "\\"
  else if Ascii.eqb c dquote then String "\" (String dquote "")
  else if (n =? 8)%N then "\b"
  else if (n =? 12)%N then "\f"
  else if (n =? 10)%N then "\n"
  else if (n =? 13)%N then "\r"
  else if (n =? 9)%N then "\t"
  else if (n <? 32)%N then
    "\u00" +:+ String (hex_digit (n / 16)) (String (hex_digit (n mod 16)) "")
  else String c "".

Fixpoint escape (s : string) : string :=
  match s with
  | EmptyString => ""
  | String c r => escape_char c +:+ escape r
  end.

(** [encode_basestring(s)] *)
Definition encode_basestring (s : string) : string :=
  String dquote (escape s +:+ String dquote "").

(** [int.__repr__], which CPython refuses, as it refuses [int(text)], when
    the number has more than [sys.get_int_max_str_digits()] digits, 4300
    unless the limit has been changed. *)
Definition intstr (n : Z) : string := NilZero.string_of_int (Z.to_int n).

Definition int_max_str_digits : nat := 4300.

Definition int_digits (n : Z) : nat := String.length (intstr (Z.abs n)).

Definition int_too_long (n : Z) : bool := (int_max_str_digits <? int_digits n)%nat.

(** [floatstr] of [json.encoder] when [allow_nan] is true: [float.__repr__]
    but for the three values that are not finite. *)
Definition floatstr (repr : string) : string :=
  if String.eqb repr "nan" then "NaN"
  else if String.eqb repr "inf" then "Infinity"
  else if String.eqb repr "-inf" then "-Infinity"
  else repr.

Definition mapM {A B} (f : A -> result B) : list A -> result (list B) :=
  fix go (l : list A) : result (list B) :=
    match l with
    | [] => Returns []
    | a :: l' =>
        match f a with
        | Raises e => Raises e
        | Returns b =>
            match go l' with
            | Raises e => Raises e
            | Returns bs => Returns (b :: bs)
            end
        end
    end.

(** [sep.join(l)] *)
Fixpoint join (sp : string) (l : list string) : string :=
  match l with
  | [] => ""
  | [x] => x
  | x :: l' => x +:+ sp +:+ join sp l'
  end.

Definition newline_indent (indent : string) (lvl : nat) : string :=
  String newline (str_mul indent lvl).

(** The separator of two items at a level: [_item_separator + newline_indent]. *)
Definition item_sep (ind : string) (lvl : nat) : string :=
  "," +:+ newline_indent ind lvl.

(** [_iterencode] of [json.encoder] for an [indent] that is not [None]: the
    item separator is [","] and the key separator [": "]. *)
Fixpoint iterencode (indent : string) (lvl : nat) (o : pyval) : result string :=
  match o with
  | PStr s => Returns (encode_basestring s)
  | PNone => Returns "null"
  | PBool true => Returns "true"
  | PBool false => Returns "false"
  | PInt n => if int_too_long n then Raises ValueError else Returns (intstr n)
  | PFloat r => Returns (floatstr r)
  | PList [] => Returns "[]"
  | PList l =>
      match mapM (iterencode indent (S lvl)) l with
      | Raises e => Raises e
      | Returns chunks =>
          Returns ("[" +:+ newline_indent indent (S lvl)
                   +:+ join (item_sep indent (S lvl)) chunks
                   +:+ newline_indent indent lvl +:+ "]")
      end
  | PDict [] => Returns "{}"
  | PDict d =>
      match mapM (fun kv : string * pyval =>
                    match iterencode indent (S lvl) (snd kv) with
                    | Raises e => Raises e
                    | Returns chunk =>
                        Returns (encode_basestring (fst kv) +:+ ": " +:+ chunk)
                    end) d with
      | Raises e => Raises e
      | Returns chunks =>
          Returns ("{" +:+ newline_indent indent (S lvl)
                   +:+ join (item_sep indent (S lvl)) chunks
                   +:+ newline_indent indent lvl +:+ "}")
      end
  | PObject _ => Raises TypeError
  end.

(** [sorted(dct.items())]: by key, in code point order. *)
Fixpoint insert_item (kv : string * pyval) (l : list (string * pyval))
  : list (string * pyval) :=
  match l with
  | [] => [kv]
  | kv' :: l' =>
      if String.leb (fst kv) (fst kv') then kv :: l
      else kv' :: insert_item kv l'
  end.

Definition sorted_items (d : list (string * pyval)) : list (string * pyval) :=
  fold_right insert_item [] d.

(** The items of every mapping in sorted order, as [sort_keys=True] has
    [_iterencode_dict] take them. *)
Fixpoint sort_items (o : pyval) : pyval :=
  match o with
  | PList l => PList (map sort_items l)
  | PDict d => PDict (sorted_items (map (fun kv => (fst kv, sort_items (snd kv))) d))
  | _ => o
  end.

(** [json.dumps(obj, ensure_ascii=False, indent=indent, sort_keys=sort_keys)]
    for an integer [indent]. *)
Definition json_dumps (obj : pyval) (indent : nat) (sort_keys : bool) : result string :=
  iterencode (str_mul " " indent) 0 (if sort_keys then sort_items obj else obj).

(** *** json.loads *)

Definition is_ws (c : ascii) : bool :=
  let n := N_of_ascii c in
  ((n =? 32) || (n =? 9) || (n =? 10) || (n =? 13))%N.

Fixpoint skip_ws (s : string) : string :=
  match s with
  | String c r => if is_ws c then skip_ws r else s
  | EmptyString => s
  end.

Definition is_digit (c : ascii) : bool :=
  let n := N_of_ascii c in
  ((48 <=? n) && (n <=? 57))%N.

Definition hex_value (c : ascii) : option N :=
  let n := N_of_ascii c in
  if ((48 <=? n) && (n <=? 57))%N then Some (n - 48)%N
  else if ((97 <=? n) && (n <=? 102))%N then Some (n - 87)%N
  else if ((65 <=? n) && (n <=? 70))%N then Some (n - 55)%N
  else None.

(** The four hexadecimal digits of a [\uXXXX] escape. *)
Definition hex4 (s : string) : option (N * string) :=
  match s with
  | String a (String b (String c (String d r))) =>
      match hex_value a, hex_value b, hex_value c, hex_value d with
      | Some x, Some y, Some z, Some t => Some (((x * 16 + y) * 16 + z) * 16 + t, r)%N
      | _, _, _, _ => None
      end
  | _ => None
  end.

(** The UTF-8 bytes of a code point. *)
Definition utf8 (n : N) : string :=
  (if n <? 128 then String (ascii_of_N n) ""
   else if n <? 2048 then
     String (ascii_of_N (192 + n / 64)) (String (ascii_of_N (128 + n mod 64)) "")
   else if n <? 65536 then
     String (ascii_of_N (224 + n / 4096))
       (String (ascii_of_N (128 + (n / 64) mod 64))
          (String (ascii_of_N (128 + n mod 64)) ""))
   else
     String (ascii_of_N (240 + n / 262144))
       (String (ascii_of_N (128 + (n / 4096) mod 64))
          (String (ascii_of_N (128 + (n / 64) mod 64))
             (String (ascii_of_N (128 + n mod 64)) ""))))%N.

(** The character of a one-letter escape. *)
Definition backslash (c : ascii) : option ascii :=
  if Ascii.eqb c dquote then Some dquote
  else if Ascii.eqb c "\" then Some "\"%char
  else if Ascii.eqb c "/" then Some "/"%char
  else if Ascii.eqb c "b" then Some "008"%char
  else if Ascii.eqb c "f" then Some "012"%char
  else if Ascii.eqb c "n" then Some "010"%char
  else if Ascii.eqb c "r" then Some "013"%char
  else if Ascii.eqb c "t" then Some "009"%char
  else None.

(** [scanstring(s, end, strict=True)], from the character after the opening
    quote: the decoded string and what follows the closing quote.  A
    surrogate that has no partner is not a code point UTF-8 can hold, and
    gives [None] here. *)
Fixpoint scanstring (s : string) : option (string * string) :=
  match s with
  | EmptyString => None
  | String c r =>
      if Ascii.eqb c dquote then Some ("", r)
      else if Ascii.eqb c "\" then
        match r with
        | String "u" (String a (String b (String c' (String d r')))) =>
            match hex4 (String a (String b (String c' (String d "")))) with
            | None => None
            | Some (n, _) =>
                if ((55296 <=? n) && (n <=? 56319))%N then
                  match r' with
                  | String "\" (String "u" (String a2 (String b2 (String c2 (String d2 r''))))) =>
                      match hex4 (String a2 (String b2 (String c2 (String d2 ""))))  with
                      | Some (n2, _) =>
                          if ((56320 <=? n2) && (n2 <=? 57343))%N then
                            match scanstring r'' with
                            | Some (t, rest) =>
                                Some (utf8 (65536 + ((n - 55296) * 1024 + (n2 - 56320)))
                                        +:+ t, rest)
                            | None => None
                            end
                          else None
                      | None => None
                      end
                  | _ => None
                  end
                else if ((56320 <=? n) && (n <=? 57343))%N then None
                else
                  match scanstring r' with
                  | Some (t, rest) => Some (utf8 n +:+ t, rest)
                  | None => None
                  end
            end
        | String e r' =>
            match backslash e with
            | None => None
            | Some x =>
                match scanstring r' with
                | Some (t, rest) => Some (String x t, rest)
                | None => None
                end
            end
        | EmptyString => None
        end
      else if (N_of_ascii c <? 32)%N then None
      else
        match scanstring r with
        | Some (t, rest) => Some (String c t, rest)
        | None => None
        end
  end.

Fixpoint span_digits (s : string) : string * string :=
  match s with
  | String c r =>
      if is_digit c then let (ds, rest) := span_digits r in (String c ds, rest)
      else ("", s)
  | EmptyString => ("", "")
  end.

Definition starts_with_digit (s : string) : bool :=
  match s with String c _ => is_digit c | EmptyString => false end.

(** The groups of [NUMBER_RE]: an optional minus sign, then a single zero
    or a run of digits that does not start with zero, then an optional
    fraction and an optional exponent.  Each takes its group from the front
    of the text and leaves the rest. *)
Definition take_sign (s : string) : bool * string :=
  match s with
  | String "-" r => (true, r)
  | _ => (false, s)
  end.

Definition take_integer (s : string) : string * string :=
  match s with
  | String "0" r => ("0", r)
  | _ => span_digits s
  end.

Definition take_frac (s : string) : string * string :=
  match s with
  | String "." r =>
      let (ds, rest) := span_digits r in
      if is_empty ds then ("", s) else (String "." ds, rest)
  | _ => ("", s)
  end.

Definition take_exp (s : string) : string * string :=
  match s with
  | String e r =>
      if Ascii.eqb e "e" || Ascii.eqb e "E" then
        let (sg, r1) :=
          match r with
          | String "+" r' => ("+", r')
          | String "-" r' => ("-", r')
          | _ => ("", r)
          end in
        let (ds, rest) := span_digits r1 in
        if is_empty ds then ("", s) else (String e (sg +:+ ds), rest)
      else ("", s)
  | EmptyString => ("", s)
  end.

(** [NUMBER_RE.match]: the sign, the digits of the integer part, the
    fraction, the exponent, and what follows the number. *)
Definition match_number (s : string)
  : option (bool * string * string * string * string) :=
  let (neg, s1) := take_sign s in
  let (ds, s2) := take_integer s1 in
  if is_empty ds then None
  else
    let (frac, s3) := take_frac s2 in
    let (exp, s4) := take_exp s3 in
    Some (neg, ds, frac, exp, s4).

(** The text of a number from its groups. *)
Definition number_text (neg : bool) (ds frac exp : string) : string :=
  (if neg then "-" else "") +:+ ds +:+ frac +:+ exp.

(** [s[len(p):]] when [s] starts with [p]. *)
Fixpoint strip_prefix (p s : string) : option string :=
  match p, s with
  | EmptyString, _ => Some s
  | String a p', String b s' => if Ascii.eqb a b then strip_prefix p' s' else None
  | String _ _, EmptyString => None
  end.

(** [dict(pairs)]: a later pair of the same key replaces the value in place. *)
Fixpoint dict_set (k : string) (v : pyval) (d : list (string * pyval))
  : list (string * pyval) :=
  match d with
  | [] => [(k, v)]
  | (k', v') :: d' =>
      if String.eqb k k' then (k', v) :: d' else (k', v') :: dict_set k v d'
  end.

Definition dict_of_pairs (pairs : list (string * pyval)) : list (string * pyval) :=
  fold_left (fun d kv => dict_set (fst kv) (snd kv) d) pairs [].

Section Decoder.

(** [float(text)] for the text of a number, given by the [repr] of the
    float. *)
Variable parse_float : string -> string.

(** [parse_float] of the text when there is a fraction or an exponent, [int]
    of the integer part otherwise. *)
Definition number_value (neg : bool) (ds frac exp : string) : option pyval :=
  if is_empty frac && is_empty exp then
    if (int_max_str_digits <? String.length ds)%nat then None
    else
      match NilEmpty.uint_of_string ds with
      | Some u => Some (PInt (if neg then - Z.of_uint u else Z.of_uint u))
      | None => None
      end
  else Some (PFloat (parse_float (number_text neg ds frac exp))).

(** [scan_once], [JSONArray] and [JSONObject] of [json.decoder]; the loops
    of the last two start at an element and at a key.  [fuel] bounds the
    nesting and the number of items. *)
Fixpoint scan_once (fuel : nat) (s : string) : option (pyval * string) :=
  match fuel with
  | O => None
  | S fuel' =>
      match s with
      | String c r =>
          if Ascii.eqb c dquote then
            match scanstring r with
            | Some (t, rest) => Some (PStr t, rest)
            | None => None
            end
          else if Ascii.eqb c "{" then
            match skip_ws r with
            | String c' r' =>
                if Ascii.eqb c' "}" then Some (PDict [], r')
                else if Ascii.eqb c' dquote then
                  match object_loop fuel' [] r' with
                  | Some (pairs, rest) => Some (PDict (dict_of_pairs pairs), rest)
                  | None => None
                  end
                else None
            | EmptyString => None
            end
          else if Ascii.eqb c "[" then
            match skip_ws r with
            | String c' r' =>
                if Ascii.eqb c' "]" then Some (PList [], r')
                else array_loop fuel' [] (String c' r')
            | EmptyString => None
            end
          else
            match strip_prefix "null" s, strip_prefix "true" s, strip_prefix "false" s with
            | Some rest, _, _ => Some (PNone, rest)
            | _, Some rest, _ => Some (PBool true, rest)
            | _, _, Some rest => Some (PBool false, rest)
            | None, None, None =>
                match match_number s with
                | Some (neg, ds, frac, exp, rest) =>
                    match number_value neg ds frac exp with
                    | Some v => Some (v, rest)
                    | None => None
                    end
                | None =>
                    match strip_prefix "NaN" s, strip_prefix "Infinity" s,
                          strip_prefix "-Infinity" s with
                    | Some rest, _, _ => Some (PFloat "nan", rest)
                    | _, Some rest, _ => Some (PFloat "inf", rest)
                    | _, _, Some rest => Some (PFloat "-inf", rest)
                    | None, None, None => None
                    end
                end
            end
      | EmptyString => None
      end
  end
with array_loop (fuel : nat) (values : list pyval) (s : string)
  : option (pyval * string) :=
  match fuel with
  | O => None
  | S fuel' =>
      match scan_once fuel' s with
      | None => None
      | Some (value, rest) =>
          match skip_ws rest with
          | String c r =>
              if Ascii.eqb c "]" then Some (PList (values ++ [value]), r)
              else if Ascii.eqb c "," then array_loop fuel' (values ++ [value]) (skip_ws r)
              else None
          | EmptyString => None
          end
      end
  end
with object_loop (fuel : nat) (pairs : list (string * pyval)) (s : string)
  : option (list (string * pyval) * string) :=
  match fuel with
  | O => None
  | S fuel' =>
      match scanstring s with
      | None => None
      | Some (key, rest) =>
          match skip_ws rest with
          | String c r =>
              if Ascii.eqb c ":" then
                match scan_once fuel' (skip_ws r) with
                | None => None
                | Some (value, rest') =>
                    match skip_ws rest' with
                    | String c' r' =>
                        if Ascii.eqb c' "}" then Some (pairs ++ [(key, value)], r')
                        else if Ascii.eqb c' "," then
                          match skip_ws r' with
                          | String c'' r'' =>
                              if Ascii.eqb c'' dquote
                              then object_loop fuel' (pairs ++ [(key, value)]) r''
                              else None
                          | EmptyString => None
                          end
                        else None
                    | EmptyString => None
                    end
                end
              else None
          | EmptyString => None
          end
      end
  end.

(** [json.loads(s)]: one value, white space around it, nothing else. *)
Definition json_loads (s : string) : option pyval :=
  match scan_once (S (2 * String.length s)) (skip_ws s) with
  | Some (v, rest) => if is_empty (skip_ws rest) then Some v else None
  | None => None
  end.

(** *** What the encoder and the decoder are shown to do

    The predicates the round trip of [json.dumps] and [json.loads] is stated
    with. *)

(** What may follow a number: no digit, no fraction, no exponent. *)
Definition number_end (rest : string) : bool :=
  negb (starts_with_digit rest)
  && is_empty (fst (take_frac rest)) && is_empty (fst (take_exp rest)).

(** The text of a number with a fraction or an exponent, and nothing else. *)
Definition is_float_literal (r : string) : bool :=
  match match_number r with
  | Some (_, _, frac, exp, rest) =>
      is_empty rest && negb (is_empty frac && is_empty exp)
  | None => false
  end.

Definition nonzero_head (u : Decimal.uint) : Prop :=
  match u with
  | Decimal.Nil | Decimal.D0 _ => False
  | _ => True
  end.

(** The first character of a number. *)
Definition number_start (c : ascii) : bool := is_digit c || Ascii.eqb c "-".

(** Induction on the structure of a value. *)
Fixpoint pyval_induction (P : pyval -> Prop)
    (HNone : P PNone) (HBool : forall b, P (PBool b)) (HInt : forall n, P (PInt n))
    (HFloat : forall r, P (PFloat r)) (HStr : forall s, P (PStr s))
    (HList : forall l, Forall P l -> P (PList l))
    (HDict : forall d, Forall (fun kv => P (snd kv)) d -> P (PDict d))
    (HObject : forall n, P (PObject n))
    (v : pyval) {struct v} : P v :=
  match v with
  | PNone => HNone
  | PBool b => HBool b
  | PInt n => HInt n
  | PFloat r => HFloat r
  | PStr s => HStr s
  | PList l =>
      HList l ((fix go (l : list pyval) : Forall P l :=
                  match l with
                  | [] => @List.Forall_nil _ P
                  | x :: l' =>
                      @List.Forall_cons _ P x l'
                        (pyval_induction P HNone HBool HInt HFloat HStr HList HDict HObject x)
                        (go l')
                  end) l)
  | PDict d =>
      HDict d ((fix go (d : list (string * pyval)) : Forall (fun kv => P (snd kv)) d :=
                  match d with
                  | [] => @List.Forall_nil _ _
                  | kv :: d' =>
                      @List.Forall_cons _ (fun kv => P (snd kv)) kv d'
                        (pyval_induction P HNone HBool HInt HFloat HStr HList HDict HObject (snd kv))
                        (go d')
                  end) d)
  | PObject n => HObject n
  end.

Fixpoint no_dup_keys (ks : list string) : bool :=
  match ks with
  | [] => true
  | k :: r => negb (existsb (String.eqb k) r) && no_dup_keys r
  end.

(** The JSON-representable values: no [PObject]; an integer is within the
    limit of its conversion to text; the [repr] of a float is the text of a
    number, which [float] reads back as the same float, so the float is
    finite; and as in any [dict] the keys of a mapping are distinct. *)
Fixpoint json_representable (v : pyval) : bool :=
  match v with
  | PInt n => negb (int_too_long n)
  | PFloat r => is_float_literal r && String.eqb (parse_float r) r
  | PList l => forallb json_representable l
  | PDict d =>
      no_dup_keys (map fst d) && forallb (fun kv => json_representable (snd kv)) d
  | PObject _ => false
  | _ => true
  end.

Fixpoint size (v : pyval) : nat :=
  match v with
  | PList l => S (list_sum (map (fun x => S (size x)) l))
  | PDict d => S (list_sum (map (fun kv => S (size (snd kv))) d))
  | _ => 1
  end.

Fixpoint all_ws (s : string) : bool :=
  match s with
  | EmptyString => true
  | String c r => is_ws c && all_ws r
  end.

Definition value_start (c : ascii) : bool :=
  number_start c || contains (Ascii.eqb c) ("{[ntf" +:+ String dquote "").

Definition value_head (s : string) : bool :=
  match s with
  | String c _ => value_start c
  | EmptyString => false
  end.

Definition encodes (x : pyval) (s : string) : Prop :=
  value_head s = true /\
  (size x <= String.length s)%nat /\
  forall rest fuel,
    number_end rest = true -> (size x <= fuel)%nat ->
    scan_once fuel (s +:+ rest) = Some (x, rest).

Definition encodes_pair (kv : string * pyval) (chunk : string) : Prop :=
  exists sv, chunk = encode_basestring (fst kv) +:+ ": " +:+ sv /\ encodes (snd kv) sv.

End Decoder.

(** The keys of every mapping are distinct, as the keys of a [dict] are. *)
Fixpoint distinct_keys (v : pyval) : bool :=
  match v with
  | PList l => forallb distinct_keys l
  | PDict d => no_dup_keys (map fst d) && forallb (fun kv => distinct_keys (snd kv)) d
  | _ => true
  end.

(** Whether an object that [json] cannot serialize occurs in a value. *)
Fixpoint has_object (v : pyval) : bool :=
  match v with
  | PObject _ => true
  | PList l => existsb has_object l
  | PDict d => existsb (fun kv => has_object (snd kv)) d
  | _ => false
  end.

(** Whether [v] holds an integer too long for its text. *)
Fixpoint has_long_int (v : pyval) : bool :=
  match v with
  | PInt n => int_too_long n
  | PList l => existsb has_long_int l
  | PDict d => existsb (fun kv => has_long_int (snd kv)) d
  | _ => false
  end.

(** Equality up to the order of the items of mappings. *)
Inductive eq_mod_order : pyval -> pyval -> Prop :=
| eq_mod_order_None : eq_mod_order PNone PNone
| eq_mod_order_Bool b : eq_mod_order (PBool b) (PBool b)
| eq_mod_order_Int n : eq_mod_order (PInt n) (PInt n)
| eq_mod_order_Float r : eq_mod_order (PFloat r) (PFloat r)
| eq_mod_order_Str s : eq_mod_order (PStr s) (PStr s)
| eq_mod_order_Object n : eq_mod_order (PObject n) (PObject n)
| eq_mod_order_List l l' :
    Forall2 eq_mod_order l l' -> eq_mod_order (PList l) (PList l')
| eq_mod_order_Dict d d' d'' :
    Forall2 (fun a b => fst a = fst b /\ eq_mod_order (snd a) (snd b)) d d' ->
    Permutation d' d'' ->
    eq_mod_order (PDict d) (PDict d'').

Definition key_le (a b : string * pyval) : Prop :=
  String.leb (fst a) (fst b) = true.

(** ** pathvalidate *)

Inductive validation :=
| Valid
| Invalid (reason : string).

Definition run_validation (v : validation) : M unit :=
  match v with
  | Valid => ret tt
  | Invalid r => raise (ValidationError r)
  end.

Section Paths.

(** [validate_filename(_, platform='auto')], [validate_filepath(_,
    platform='auto')] and [sanitize_filename(_)]. *)
Variable validate_filename : string -> validation.
Variable validate_filepath : string -> validation.
Variable sanitize_filename : string -> string.

Definition marker_name (fn : string) : string := fn +:+ "_changed.txt".

Definition changed_msg (attrib_fn fn : string) : string :=
  "Name '" +:+ attrib_fn +:+ "' changed to '" +:+ fn +:+ "'".

Definition get_valid_path (parent fn : string) : M string :=
  fn <- try_except
          (run_validation (validate_filename fn) ;; ret fn)
          (fun e =>
             match e with
             | ValidationError _ => Some (
                 logging_info ("Need to sanitize stream " +:+ fn +:+ " to "
                                 +:+ sanitize_filename fn) ;;
                 let attrib_fn := fn in
                 let fn := sanitize_filename fn in
                 present <- os_path_isfile (os_path_join parent (marker_name fn)) ;;
                 (if negb present then
                    with_open_w (os_path_join parent (marker_name fn)) (fun fh =>
                      let msg := changed_msg attrib_fn fn in
                      logging_info msg ;;
                      fh_write fh msg)
                  else ret tt) ;;
                 ret fn)
             | _ => None
             end) ;;
  ret (os_path_join parent fn).

(** [open(p, 'w', encoding='utf-8')]: strings are UTF-8 already. *)
Definition with_open_w_utf8 {A} (p : string) (body : string -> M A) : M A :=
  with_open_w p body.

Definition lift {A} (r : result A) : M A :=
  fun w => (w, r).

Definition dump_structure (struct : pyval) (path filename : string)
    (sort_keys : bool) : M unit :=
  go_on <- try_except
             (run_validation (validate_filepath path) ;; ret true)
             (fun e =>
                match e with
                | ValidationError reason => Some (
                    logging_critical ("Invalid path " +:+ path +:+ ": " +:+ reason) ;;
                    ret false)                      (* return *)
                | _ => None
                end) ;;
  if go_on : bool then
    present <- os_path_isdir path ;;
    (if negb present then os_mkdir path else ret tt) ;;
    struct_str <- lift (json_dumps struct 2 sort_keys) ;;
    filename <- try_except
                  (run_validation (validate_filename filename) ;; ret filename)
                  (fun e =>
                     match e with
                     | ValidationError _ => Some (ret (sanitize_filename filename))
                     | _ => None
                     end) ;;
    with_open_w_utf8 (os_path_join path filename) (fun fh =>
      fh_write fh struct_str)
  else ret tt.

(** The name [dump_structure] writes to. *)
Definition final_name (filename : string) : string :=
  match validate_filename filename with
  | Valid => filename
  | Invalid _ => sanitize_filename filename
  end.

End Paths.

(** What [with open(dest, 'w') as fh: fh.write(s)] comes to. *)
Definition write_text (dest s : string) (w : world) : world * result unit :=
  match files w !! dest with
  | Some Dir => (w, Raises IsADirectoryError)
  | Some (File _) => (set_files (<[dest := File s]> (files w)) w, Returns tt)
  | None =>
      match create_error (files w) dest with
      | Some e => (w, Raises e)
      | None => (set_files (<[dest := File s]> (files w)) w, Returns tt)
      end
  end.

(** ** Module name *)

(** [s.rfind(c)] *)
Fixpoint rfind (c : ascii) (s : string) : Z :=
  match s with
  | EmptyString => -1
  | String a r =>
      let i := rfind c r in
      if 0 <=? i then i + 1
      else if Ascii.eqb a c then 0 else -1
  end.

(** [s[i:j]] for [0 <= i <= j] *)
Definition slice (s : string) (i j : Z) : string :=
  substring (Z.to_nat i) (Z.to_nat (j - i)) s.

Fixpoint only_dots (s : string) : bool :=
  match s with
  | EmptyString => true
  | String c r => Ascii.eqb c "." && only_dots r
  end.

(** [os.path.splitext(p)]: the extension starts at the last dot, unless
    only dots stand between the last separator and it. *)
Definition os_path_splitext (p : string) : string * string :=
  let sepIndex := rfind sep p in
  let dotIndex := rfind "."%char p in
  if sepIndex <? dotIndex then
    if only_dots (slice p (sepIndex + 1) dotIndex) then (p, "")
    else (slice p 0 dotIndex, slice p dotIndex (Z.of_nat (String.length p)))
  else (p, "").

Definition get_modulename (scriptname : string) : string :=
  let (filepath, filename) := os_path_split scriptname in
  let (module, fileext) := os_path_splitext filename in
  module.

(** Whether a separator, or a dot, occurs in a string. *)
Definition has_sep (s : string) : bool := contains (fun c => Ascii.eqb c sep) s.
Definition has_dot (s : string) : bool := contains (fun c => Ascii.eqb c ".") s.

(** ** Logging set-up and configuration file *)

Definition os_getenv (name : string) : M (option string) :=
  fun w => (w, Returns (environ w !! name)).

Definition upper_char (c : ascii) : ascii :=
  let n := N_of_ascii c in
  if ((97 <=? n) && (n <=? 122))%N then ascii_of_N (n - 32) else c.

(** [s.upper()], on the ASCII letters. *)
Fixpoint upper (s : string) : string :=
  match s with
  | EmptyString => ""
  | String c r => String (upper_char c) (upper r)
  end.

(** [s.isascii()]: the strings on which [upper] is all of [str.upper]. *)
Definition is_ascii (s : string) : bool :=
  negb (contains (fun c => (128 <=? N_of_ascii c)%N) s).

(** [logging._nameToLevel] *)
Definition nameToLevel (name : string) : option Z :=
  if String.eqb name "CRITICAL" then Some 50
  else if String.eqb name "FATAL" then Some 50
  else if String.eqb name "ERROR" then Some 40
  else if String.eqb name "WARN" then Some 30
  else if String.eqb name "WARNING" then Some 30
  else if String.eqb name "INFO" then Some 20
  else if String.eqb name "DEBUG" then Some 10
  else if String.eqb name "NOTSET" then Some 0
  else None.

Inductive level :=
| LevelNo (n : Z)
| LevelStr (s : string).

(** [logging.getLevelName(level)] for a [str]: the number of a known name,
    and a string for any other. *)
Definition logging_getLevelName (name : string) : level :=
  match nameToLevel name with
  | Some n => LevelNo n
  | None => LevelStr ("Level " +:+ name)
  end.

(** [logging.getLogger().setLevel(level)] *)
Definition root_setLevel (l : level) : M unit :=
  match l with
  | LevelNo n => fun w => (set_root_level n w, Returns tt)
  | LevelStr s =>
      match nameToLevel s with
      | Some n => fun w => (set_root_level n w, Returns tt)
      | None => raise ValueError
      end
  end.

(** [logging.getLogger(name).setLevel(n)] *)
Definition named_setLevel (name : string) (n : Z) : M unit :=
  fun w => (set_named_levels (<[name := n]> (named_levels w)) w, Returns tt).

(** [open(p, 'a')]: creates the file when it is missing, for a name the OS
    accepts. *)
Definition open_a (p : string) : M unit :=
  fun w =>
    match files w !! p with
    | Some Dir => (w, Raises IsADirectoryError)
    | Some (File _) => (w, Returns tt)
    | None =>
        if parent_exists (files w) p
        then (set_files (<[p := File ""]> (files w)) w, Returns tt)
        else (w, Raises (missing_error (files w) p))
    end.

(** [RotatingFileHandler(filename, maxBytes=, backupCount=, encoding=)]:
    the stream is opened at once. *)
Definition RotatingFileHandler (filename : string) (maxbytes backups : Z)
    (enc : string) : M handler :=
  open_a filename ;;
  ret (RotatingFile filename maxbytes backups enc "" "").

(** [h.setFormatter(logging.Formatter(fmt=f, datefmt=d))] *)
Definition setFormatter (h : handler) (f d : string) : handler :=
  match h with
  | RotatingFile file maxbytes backups enc _ _ =>
      RotatingFile file maxbytes backups enc f d
  | StreamHandler => StreamHandler
  end.

Definition root_addHandler (h : handler) : M unit :=
  fun w => (set_root_handlers (root_handlers w ++ [h]) w, Returns tt).

(** [open(p, encoding='utf-8')] and the whole text of the file. *)
Definition open_r (p : string) : M string :=
  fun w =>
    match files w !! p with
    | Some (File c) => (w, Returns c)
    | Some Dir => (w, Raises IsADirectoryError)
    | None => (w, Raises (read_error (files w) p))
    end.

(** Sections of options. *)
Definition ini : Type := list (string * list (string * string)).

(** What [get_inifile] returns: a [ConfigParser] that has read the file,
    or the empty [dict]. *)
Inductive config :=
| ConfigParser (sections : ini)
| EmptyDict.

Definition setdefault (env : gmap string string) (kv : string * string)
  : gmap string string :=
  match env !! fst kv with
  | Some _ => env
  | None => <[fst kv := snd kv]> env
  end.

Section Env.

(** [__file__] of [lib/my_env.py], [platform.node()],
    [ConfigParser.read_file] on the text of a file and the pairs [dotenv]
    reads from the text of a [.env] file. *)
Variable this_file : string.
Variable hostname : string.
Variable read_file : string -> result ini.
Variable dotenv_values : gmap string string -> string -> list (string * string).

(** [load_dotenv(dotenv_path=p)]: a variable that is set already is kept. *)
Definition load_dotenv (p : string) : M bool :=
  fun w =>
    match files w !! p with
    | Some (File c) =>
        let kvs := dotenv_values (environ w) c in
        (set_environ (fold_left setdefault kvs (environ w)) w,
         Returns (negb (Nat.eqb (List.length kvs) 0)))
    | _ => (w, Returns false)
    end.

Definition configfile_of (projectname : string) : string :=
  let (filepath_lib, _) := os_path_split this_file in
  let (filepath, _) := os_path_split filepath_lib in
  os_path_join (os_path_join filepath "properties") (projectname +:+ ".ini").

Definition get_inifile (projectname : string) : M config :=
  let (filepath_lib, _) := os_path_split this_file in
  let (filepath, _) := os_path_split filepath_lib in
  let configfile :=
    os_path_join (os_path_join filepath "properties") (projectname +:+ ".ini") in
  ini_config <- try_except
                  (f <- open_r configfile ;;
                   sections <- lift (read_file f) ;;
                   ret (ConfigParser sections))
                  (fun e =>
                     match e with
                     | FileNotFoundError => Some (ret EmptyDict)
                     | _ => None
                     end) ;;
  let envfile := os_path_join filepath ".env" in
  load_dotenv envfile ;;
  ret ini_config.

Definition logfile_format : string :=
  "%(asctime)s|%(name)s|%(module)s|%(funcName)s|%(lineno)d|%(levelname)s|%(message)s".

Definition init_loghandler (modulename : string) : M unit :=
  logdir <- os_getenv "LOGDIR" ;;
  loglevel <- os_getenv "LOGLEVEL" ;;
  loglevel <- match loglevel with
              | Some s => ret (upper s)
              | None => raise AttributeError
              end ;;
  let logfn := modulename +:+ "_" +:+ hostname +:+ ".log" in
  logfile <- match logdir with
             | Some d => ret (os_path_join d logfn)
             | None => raise TypeError
             end ;;
  let level := logging_getLevelName loglevel in
  root_setLevel level ;;
  let maxbytes := 1024 * 1024 in
  rfh <- RotatingFileHandler logfile maxbytes 5 "utf8" ;;
  let rfh := setFormatter rfh logfile_format "%d/%m/%Y|%H:%M:%S" in
  root_addHandler rfh ;;
  named_setLevel "asyncio" logging_WARNING ;;
  named_setLevel "websockets.client" logging_WARNING ;;
  named_setLevel "websockets.protocol" logging_WARNING.

(** The handler [init_loghandler] installs for a log file. *)
Definition rotating_handler (logfile : string) : handler :=
  RotatingFile logfile (1024 * 1024) 5 "utf8" logfile_format "%d/%m/%Y|%H:%M:%S".

Definition logfile_of (logdir modulename : string) : string :=
  os_path_join logdir (modulename +:+ "_" +:+ hostname +:+ ".log").

Definition init_env (projectname filename : string) : M config :=
  let modulename := get_modulename filename in
  config <- get_inifile projectname ;;
  init_loghandler modulename ;;
  root_log logging_INFO "Start Application" ;;
  ret config.

End Env.

(** The [.env] file [get_inifile] loads. *)
Definition envfile_of (this_file : string) : string :=
  let (filepath_lib, _) := os_path_split this_file in
  let (filepath, _) := os_path_split filepath_lib in
  os_path_join filepath ".env".

(** ** Running a script *)

Definition logging_debug := logging_log logging_DEBUG.

(** [os.environ.copy()] *)
Definition os_environ_copy : M (gmap string string) :=
  fun w => (w, Returns (environ w)).

Section Script.

(** [sys.executable]; [str] of a list of strings, which is the message of
    the record when a list is logged; and [subprocess.run(cmd, env=env)]:
    what the child process does to the file system and its exit status, or
    the exception raised when the process cannot be started.  A child
    process has no access to the environment or to the loggers of its
    parent. *)
Variable sys_executable : string.
Variable str_of_list : list string -> string.
Variable subprocess_run :
  list string -> gmap string string -> gmap string node -> gmap string node * result Z.

Definition run_subprocess (cmd : list string) (env : gmap string string) : M Z :=
  fun w =>
    let (fs, r) := subprocess_run cmd env (files w) in
    (set_files fs w, r).

Definition run_script (path script_name : string) (args : list string) : M unit :=
  let script_path := os_path_join path script_name in
  let cmd := [sys_executable; script_path] ++ args in
  logging_debug (str_of_list cmd) ;;
  env <- os_environ_copy ;;
  run_subprocess cmd env ;;
  ret tt.

End Script.

(** ** LoopInfo *)

Record LoopInfo := {
  rec_cnt : Z;
  loop_cnt : Z;
  attribname : string;
  triggercnt : Z
}.

(** What [print] is given. *)
Inductive line :=
| StartLine (curr_time attrib : string)
| ProgressLine (curr_time : string) (cnt : Z) (attrib : string)
| EndLine (curr_time : string) (cnt : Z) (attrib : string).

Definition render (l : line) : string :=
  match l with
  | StartLine t a => t +:+ " - Start working on " +:+ a
  | ProgressLine t n a => t +:+ " - " +:+ intstr n +:+ " " +:+ a +:+ " handled"
  | EndLine t n a =>
      t +:+ " - " +:+ intstr n +:+ " " +:+ a +:+ " handled - End." +:+ String newline ""
  end.

(** Standard output, and how many times the clock has been read. *)
Record console := {
  stdout : list line;
  clock_reads : nat
}.

Definition is_progress (l : line) : bool :=
  match l with ProgressLine _ _ _ => true | _ => false end.

Definition progress_lines (c : console) : nat :=
  List.length (filter is_progress (stdout c)).

(** The counts the progress lines report, oldest first. *)
Definition progress_counts (c : console) : list Z :=
  flat_map (fun l => match l with ProgressLine _ n _ => [n] | _ => [] end) (stdout c).

Section Loop.

(** [datetime.now().strftime("%H:%M:%S")] at each reading of the clock. *)
Variable strftime_now : nat -> string.

Definition print_at (mk : string -> line) (c : console) : console :=
  {| stdout := stdout c ++ [mk (strftime_now (clock_reads c))];
     clock_reads := S (clock_reads c) |}.

(** [LoopInfo(attribname, triggercnt)] *)
Definition LoopInfo_init (attrib : string) (trigger : Z) (c : console)
  : LoopInfo * console :=
  let self := {| rec_cnt := 0; loop_cnt := 0;
                 attribname := attrib; triggercnt := trigger |} in
  (self, print_at (fun t => StartLine t (attribname self)) c).

Definition info_loop (self : LoopInfo) (c : console) : LoopInfo * console * Z :=
  let self := {| rec_cnt := rec_cnt self + 1; loop_cnt := loop_cnt self + 1;
                 attribname := attribname self; triggercnt := triggercnt self |} in
  if triggercnt self <=? loop_cnt self then
    let c := print_at (fun t => ProgressLine t (rec_cnt self) (attribname self)) c in
    let self := {| rec_cnt := rec_cnt self; loop_cnt := 0;
                   attribname := attribname self; triggercnt := triggercnt self |} in
    (self, c, rec_cnt self)
  else (self, c, rec_cnt self).

Definition end_loop (self : LoopInfo) (c : console) : LoopInfo * console * Z :=
  (self, print_at (fun t => EndLine t (rec_cnt self) (attribname self)) c, rec_cnt self).

(** [k] calls of [info_loop] in a row. *)
Fixpoint info_loops (k : nat) (self : LoopInfo) (c : console) : LoopInfo * console :=
  match k with
  | O => (self, c)
  | S k' =>
      let '(self', c', _) := info_loop self c in
      info_loops k' self' c'
  end.

End Loop.

(** ** An instance of the third-party functions

    The character rules of [pathvalidate] on Linux, where
    [validate_filename(_, platform='auto')] refuses the unprintable ASCII
    characters and the separator, and [sanitize_filename], which works by
    the universal rules, drops those and the characters Windows reserves.
    Reserved names and the length limit are left out.  The functions below
    are run on concrete inputs only; no theorem about the module depends on
    them. *)

Module Posix.

Definition unprintable (c : ascii) : bool :=
  let n := N_of_ascii c in
  ((n <? 9) || ((14 <=? n) && (n <? 32)) || (n =? 127))%N.

Definition invalid_char (c : ascii) : bool :=
  unprintable c || Ascii.eqb c sep.

Definition universal_invalid_char (c : ascii) : bool :=
  invalid_char c || contains (Ascii.eqb c) (":*?<>|\" +:+ String dquote "")
  || let n := N_of_ascii c in ((9 <=? n) && (n <? 14))%N.

Definition validate_filename (fn : string) : validation :=
  if is_empty fn then Invalid "the value must not be an empty string"
  else if contains invalid_char fn then Invalid "invalid char found"
  else if String.eqb fn "." || String.eqb fn ".." then Invalid "reserved name"
  else Valid.

Definition validate_filepath (p : string) : validation :=
  if is_empty p then Invalid "the value must not be an empty string"
  else if contains unprintable p then Invalid "invalid char found"
  else Valid.

Definition sanitize_filename (fn : string) : string :=
  remove universal_invalid_char fn.

Definition this_file : string := "/opt/qsapi/lib/my_env.py".
Definition hostname : string := "host1".

(** [KEY=value] lines, one pair per line, nothing else. *)
Fixpoint split_on (c : ascii) (s : string) : string * option string :=
  match s with
  | EmptyString => ("", None)
  | String a r =>
      if Ascii.eqb a c then ("", Some r)
      else let (h, t) := split_on c r in (String a h, t)
  end.

Fixpoint lines (fuel : nat) (s : string) : list string :=
  match fuel with
  | O => []
  | S fuel' =>
      match split_on newline s with
      | (l, Some r) => l :: lines fuel' r
      | (l, None) => if is_empty l then [] else [l]
      end
  end.

Definition dotenv_values (_ : gmap string string) (text : string)
  : list (string * string) :=
  flat_map (fun l => match split_on "=" l with
                     | (k, Some v) => [(k, v)]
                     | (_, None) => []
                     end)
           (lines (S (String.length text)) text).

(** Every file is read as one section without options. *)
Definition read_file (text : string) : result ini :=
  if is_empty text then Raises (ConfigError "no section header")
  else Returns [(text, [])].

Definition clock (n : nat) : string := "12:00:0" +:+ intstr (Z.of_nat n).

Definition empty_world : world :=
  World ∅ ∅ logging_WARNING [] ∅ [].

(** [/tmp/out] exists and is empty. *)
Definition tmp_world : world :=
  set_files (<["/tmp/out" := Dir]> (<["/tmp" := Dir]> ∅)) empty_world.

Definition empty_console : console := {| stdout := []; clock_reads := 0 |}.

(** [tmp_world] with [LOGDIR] and [LOGLEVEL] set. *)
Definition env_world : world :=
  set_environ (<["LOGDIR" := "/tmp/out"]> (<["LOGLEVEL" := "info"]> ∅)) tmp_world.

(** [tmp_world] with a file at [/tmp/out/data.json]. *)
Definition old_world : world :=
  set_files (<["/tmp/out/data.json" := File "old"]> (files tmp_world)) tmp_world.

(** [float(text)] for a text that is the [repr] of a float, as the texts of
    the examples are. *)
Definition parse_float (text : string) : string := text.

(** [{"name": "café", "tags": ["a", 1, None, True], "count": -20,
      "ratio": 2.5e-07, "more": {}}] *)
Definition sample : pyval :=
  PDict [("name", PStr "café");
         ("tags", PList [PStr "a"; PInt 1; PNone; PBool true]);
         ("count", PInt (-20));
         ("ratio", PFloat "2.5e-07");
         ("more", PDict [])].

(** A project at [/opt/qsapi] with two configuration files, one of them
    empty, and a [.env] file; [LOGLEVEL] is set in the environment. *)
Definition project_world : world :=
  set_environ (<["LOGLEVEL" := "info"]> ∅)
    (set_files
       (<["/opt/qsapi/.env" :=
            File ("LOGDIR=/tmp/out" +:+ String newline "LOGLEVEL=debug")]>
          (<["/opt/qsapi/properties/bad.ini" := File ""]>
             (<["/opt/qsapi/properties/qs.ini" := File "[main]"]>
                (<["/opt/qsapi/properties" := Dir]>
                   (<["/opt/qsapi" := Dir]>
                      (<["/opt" := Dir]> (files tmp_world)))))))
       tmp_world).

(** [env_world] with another [LOGLEVEL], or another [LOGDIR]. *)
Definition verbose_world : world :=
  set_environ (<["LOGLEVEL" := "verbose"]> (environ env_world)) env_world.
Definition nowhere_world : world :=
  set_environ (<["LOGDIR" := "/nowhere"]> (environ env_world)) env_world.

(** [env_world] with a project at [/opt/qsapi] whose [properties] is a
    regular file. *)
Definition flat_world : world :=
  set_files
    (<["/opt/qsapi/properties" := File ""]>
       (<["/opt/qsapi" := Dir]> (<["/opt" := Dir]> (files env_world))))
    env_world.

(** An interpreter, the [str] of a list of strings that need no escape, and
    a child process that leaves its command line in [/tmp/out/done] and
    exits with status 1. *)
Definition sys_executable : string := "/usr/bin/python3".
Definition str_of_list (l : list string) : string :=
  "[" +:+ join ", " (map (fun s => "'" +:+ s +:+ "'") l) +:+ "]".
Definition subprocess_run (cmd : list string) (_ : gmap string string)
    (fs : gmap string node) : gmap string node * result Z :=
  (<["/tmp/out/done" := File (join " " cmd)]> fs, Returns 1).

End Posix.

(** * Properties *)

(** ** Strings *)

Lemma length_append (a b : string) :
  String.length (a +:+ b) = (String.length a + String.length b)%nat.
Proof. induction a as [|c a IH]; simpl; [reflexivity | f_equal; exact IH]. Qed.

Lemma append_nil (b : string) : "" +:+ b = b.
Proof. reflexivity. Qed.

Lemma append_cons (x : ascii) (a b : string) : String x a +:+ b = String x (a +:+ b).
Proof. reflexivity. Qed.

Ltac str_simpl := rewrite ?append_cons, ?append_nil.

Lemma append_assoc (a b c : string) : (a +:+ b) +:+ c = a +:+ (b +:+ c).
Proof. induction a as [|x a IH]; str_simpl; [reflexivity | rewrite IH; reflexivity]. Qed.

Lemma append_nil_r (s : string) : s +:+ "" = s.
Proof. induction s as [|c s IH]; str_simpl; [reflexivity | rewrite IH; reflexivity]. Qed.

Ltac str_norm := repeat (rewrite append_assoc || rewrite append_cons || rewrite append_nil).

(** *** Numbers *)

Lemma span_digits_end (rest : string) :
  starts_with_digit rest = false -> span_digits rest = ("", rest).
Proof.
  destruct rest as [|c r]; [reflexivity|]. cbn. intros ->. reflexivity.
Qed.

Lemma span_digits_app (s rest : string) :
  starts_with_digit rest = false ->
  span_digits (s +:+ rest) = (fst (span_digits s), snd (span_digits s) +:+ rest).
Proof.
  intros Hr. induction s as [|c s IH]; [apply span_digits_end, Hr|].
  str_simpl. cbn [span_digits]. destruct (is_digit c); [|reflexivity].
  rewrite IH. destruct (span_digits s). reflexivity.
Qed.

Lemma span_digits_text (s : string) :
  s = fst (span_digits s) +:+ snd (span_digits s).
Proof.
  induction s as [|c s IH]; [reflexivity|]. cbn [span_digits].
  destruct (is_digit c); [|reflexivity].
  destruct (span_digits s) as [ds r]. cbn [fst snd] in *. str_simpl. congruence.
Qed.

Lemma take_sign_app (s rest : string) :
  s <> "" -> take_sign (s +:+ rest) = (fst (take_sign s), snd (take_sign s) +:+ rest).
Proof.
  destruct s as [|c s]; [congruence|]. intros _.
  destruct c as [[] [] [] [] [] [] [] []]; reflexivity.
Qed.

Lemma take_integer_app (s rest : string) :
  starts_with_digit rest = false ->
  take_integer (s +:+ rest) = (fst (take_integer s), snd (take_integer s) +:+ rest).
Proof.
  intros Hr. destruct s as [|c s].
  - str_simpl. destruct rest as [|c r]; [reflexivity|].
    destruct c as [[] [] [] [] [] [] [] []]; try discriminate; reflexivity.
  - pose proof (span_digits_app (String c s) rest Hr) as H.
    destruct c as [[] [] [] [] [] [] [] []]; try exact H; reflexivity.
Qed.

Lemma take_frac_none (s : string) :
  is_empty (fst (take_frac s)) = true -> take_frac s = ("", s).
Proof.
  destruct s as [|c s]; [reflexivity|].
  destruct c as [[] [] [] [] [] [] [] []]; try reflexivity.
  cbn [take_frac]. destruct (span_digits s) as [ds r].
  destruct (is_empty ds); [reflexivity | discriminate].
Qed.

Lemma take_exp_none (s : string) :
  is_empty (fst (take_exp s)) = true -> take_exp s = ("", s).
Proof.
  destruct s as [|c s]; [reflexivity|]. unfold take_exp.
  destruct (Ascii.eqb c "e" || Ascii.eqb c "E"); [|reflexivity].
  destruct (match s with
            | String "+" r' => ("+", r')
            | String "-" r' => ("-", r')
            | _ => ("", s)
            end) as [sg r1].
  destruct (span_digits r1) as [ds r]. destruct (is_empty ds); [reflexivity | discriminate].
Qed.

Lemma number_end_parts (rest : string) :
  number_end rest = true ->
  starts_with_digit rest = false /\ take_frac rest = ("", rest)
  /\ take_exp rest = ("", rest).
Proof.
  unfold number_end. intros H. apply andb_true_iff in H. destruct H as [H He].
  apply andb_true_iff in H. destruct H as [Hd Hf]. apply negb_true_iff in Hd.
  auto using take_frac_none, take_exp_none.
Qed.

Lemma take_frac_app (s rest : string) :
  number_end rest = true ->
  take_frac (s +:+ rest) = (fst (take_frac s), snd (take_frac s) +:+ rest).
Proof.
  intros Hr. destruct (number_end_parts rest Hr) as (Hd & Hf & _).
  destruct s as [|c s]; [str_simpl; exact Hf|].
  destruct c as [[] [] [] [] [] [] [] []]; try reflexivity.
  str_simpl. cbn [take_frac]. rewrite (span_digits_app s rest Hd).
  destruct (span_digits s) as [ds r]. cbn [fst snd].
  destruct (is_empty ds); reflexivity.
Qed.

Lemma take_exp_app (s rest : string) :
  number_end rest = true -> snd (take_exp s) = "" ->
  take_exp (s +:+ rest) = (fst (take_exp s), rest).
Proof.
  intros Hr Hs. destruct (number_end_parts rest Hr) as (Hd & _ & He).
  destruct s as [|c s]; [str_simpl; exact He|].
  str_simpl. unfold take_exp in *.
  destruct (Ascii.eqb c "e" || Ascii.eqb c "E"); [|discriminate].
  destruct s as [|c' s'].
  - discriminate.
  - assert (Hsign : match String c' s' +:+ rest with
                    | String "+" r' => ("+", r')
                    | String "-" r' => ("-", r')
                    | _ => ("", String c' s' +:+ rest)
                    end
                    = (fst match String c' s' with
                           | String "+" r' => ("+", r')
                           | String "-" r' => ("-", r')
                           | _ => ("", String c' s')
                           end,
                       snd match String c' s' with
                           | String "+" r' => ("+", r')
                           | String "-" r' => ("-", r')
                           | _ => ("", String c' s')
                           end +:+ rest)).
    { destruct c' as [[] [] [] [] [] [] [] []]; reflexivity. }
    rewrite Hsign.
    destruct (match String c' s' with
              | String "+" r' => ("+", r')
              | String "-" r' => ("-", r')
              | _ => ("", String c' s')
              end) as [sg r1].
    cbn [fst snd]. rewrite (span_digits_app r1 rest Hd).
    destruct (span_digits r1) as [ds r]. cbn [fst snd] in *.
    destruct (is_empty ds); [discriminate|]. cbn [snd] in Hs. subst r. reflexivity.
Qed.

Lemma match_number_app (lit rest : string) (neg : bool) (ds frac exp : string) :
  match_number lit = Some (neg, ds, frac, exp, "") ->
  number_end rest = true ->
  match_number (lit +:+ rest) = Some (neg, ds, frac, exp, rest).
Proof.
  intros Hm Hr. destruct (number_end_parts rest Hr) as (Hd & _ & _).
  unfold match_number in *.
  assert (Hne : lit <> "") by (intros ->; discriminate).
  rewrite (take_sign_app lit rest Hne). destruct (take_sign lit) as [neg' s1].
  cbn [fst snd]. rewrite (take_integer_app s1 rest Hd).
  destruct (take_integer s1) as [ds' s2]. cbn [fst snd].
  destruct (is_empty ds'); [discriminate|].
  rewrite (take_frac_app s2 rest Hr). destruct (take_frac s2) as [frac' s3].
  cbn [fst snd].
  destruct (take_exp s3) as [exp' s4] eqn:He. injection Hm as -> -> -> -> ->.
  rewrite (take_exp_app s3 rest Hr) by (rewrite He; reflexivity).
  rewrite He. reflexivity.
Qed.

Lemma take_sign_text (s : string) :
  s = (if fst (take_sign s) then "-" else "") +:+ snd (take_sign s).
Proof.
  destruct s as [|c s]; [reflexivity|].
  destruct c as [[] [] [] [] [] [] [] []]; reflexivity.
Qed.

Lemma take_integer_text (s : string) :
  s = fst (take_integer s) +:+ snd (take_integer s).
Proof.
  destruct s as [|c s]; [reflexivity|].
  pose proof (span_digits_text (String c s)) as H.
  destruct c as [[] [] [] [] [] [] [] []]; try exact H; reflexivity.
Qed.

Lemma take_frac_text (s : string) :
  s = fst (take_frac s) +:+ snd (take_frac s).
Proof.
  destruct s as [|c s]; [reflexivity|].
  destruct c as [[] [] [] [] [] [] [] []]; try reflexivity.
  cbn [take_frac]. pose proof (span_digits_text s) as H.
  destruct (span_digits s) as [ds r]. cbn [fst snd] in H.
  destruct (is_empty ds); [reflexivity|]. cbn [fst snd]. str_simpl. congruence.
Qed.

Lemma take_exp_text (s : string) :
  s = fst (take_exp s) +:+ snd (take_exp s).
Proof.
  destruct s as [|c s]; [reflexivity|]. unfold take_exp.
  destruct (Ascii.eqb c "e" || Ascii.eqb c "E"); [|reflexivity].
  assert (Hsign : s = fst match s with
                          | String "+" r' => ("+", r')
                          | String "-" r' => ("-", r')
                          | _ => ("", s)
                          end
                      +:+ snd match s with
                              | String "+" r' => ("+", r')
                              | String "-" r' => ("-", r')
                              | _ => ("", s)
                              end).
  { destruct s as [|c' s']; [reflexivity|].
    destruct c' as [[] [] [] [] [] [] [] []]; reflexivity. }
  destruct (match s with
            | String "+" r' => ("+", r')
            | String "-" r' => ("-", r')
            | _ => ("", s)
            end) as [sg r1].
  cbn [fst snd] in Hsign. pose proof (span_digits_text r1) as H.
  destruct (span_digits r1) as [ds r]. cbn [fst snd] in H.
  destruct (is_empty ds); [reflexivity|]. cbn [fst snd]. str_simpl.
  rewrite append_assoc. congruence.
Qed.

Lemma match_number_text (s : string) (neg : bool) (ds frac exp rest : string) :
  match_number s = Some (neg, ds, frac, exp, rest) ->
  s = number_text neg ds frac exp +:+ rest.
Proof.
  unfold match_number, number_text. intros H.
  pose proof (take_sign_text s) as H1. destruct (take_sign s) as [neg' s1].
  pose proof (take_integer_text s1) as H2. destruct (take_integer s1) as [ds' s2].
  destruct (is_empty ds'); [discriminate|].
  pose proof (take_frac_text s2) as H3. destruct (take_frac s2) as [frac' s3].
  pose proof (take_exp_text s3) as H4. destruct (take_exp s3) as [exp' s4].
  injection H as -> -> -> -> ->. cbn [fst snd] in *.
  rewrite !append_assoc. congruence.
Qed.

Lemma span_digits_digit (s : string) :
  is_empty (fst (span_digits s)) = false -> starts_with_digit s = true.
Proof.
  destruct s as [|c s]; [discriminate|]. cbn [span_digits starts_with_digit].
  destruct (is_digit c); [reflexivity | discriminate].
Qed.

Lemma match_number_start (s : string) m :
  match_number s = Some m ->
  exists c r, s = String c r /\ number_start c = true.
Proof.
  unfold match_number. intros H. destruct s as [|c s]; [discriminate|].
  exists c, s. split; [reflexivity|]. unfold number_start.
  destruct (Ascii.eqb_spec c "-") as [->|Hc]; [apply orb_true_r|].
  rewrite orb_false_r.
  assert (Hs : take_sign (String c s) = (false, String c s)).
  { destruct c as [[] [] [] [] [] [] [] []]; try reflexivity. congruence. }
  rewrite Hs in H.
  assert (Hi : is_empty (fst (take_integer (String c s))) = false).
  { destruct (take_integer (String c s)) as [ds s2]. cbn [fst].
    destruct (is_empty ds); [discriminate | reflexivity]. }
  clear H Hs. revert Hi.
  destruct c as [[] [] [] [] [] [] [] []]; try reflexivity; try discriminate;
    congruence.
Qed.

Lemma to_uint_nonzero_head (p : positive) : nonzero_head (Pos.to_uint p).
Proof.
  pose proof (DecimalPos.Unsigned.to_of (Pos.to_uint p)) as H.
  rewrite DecimalPos.Unsigned.of_to in H. cbn [N.to_uint] in H.
  pose proof (DecimalPos.Unsigned.to_uint_nonzero p) as Hz.
  unfold Decimal.unorm in H.
  pose proof (DecimalFacts.nzhead_nonzero (Pos.to_uint p)) as Hn.
  destruct (Decimal.nzhead (Pos.to_uint p)) eqn:Hh; rewrite H in *;
    try exact I; [congruence|].
  exfalso. exact (Hn _ eq_refl).
Qed.

Lemma of_uint_to_uint (p : positive) : Z.of_uint (Pos.to_uint p) = Z.pos p.
Proof. unfold Z.of_uint. rewrite DecimalPos.Unsigned.of_to. reflexivity. Qed.

Lemma string_of_uint_nonnil (u : Decimal.uint) :
  u <> Decimal.Nil -> NilZero.string_of_uint u = NilEmpty.string_of_uint u.
Proof. destruct u; [congruence | reflexivity..]. Qed.

Lemma span_digits_uint (u : Decimal.uint) :
  span_digits (NilEmpty.string_of_uint u) = (NilEmpty.string_of_uint u, "").
Proof.
  induction u; cbn [NilEmpty.string_of_uint]; [reflexivity | ..];
    cbn [span_digits]; (change (is_digit _) with true); cbv iota;
    rewrite IHu; reflexivity.
Qed.

Lemma match_number_uint (u : Decimal.uint) :
  nonzero_head u ->
  match_number (NilEmpty.string_of_uint u)
  = Some (false, NilEmpty.string_of_uint u, "", "", "").
Proof.
  intros Hu. unfold match_number.
  assert (Hs : take_sign (NilEmpty.string_of_uint u) = (false, NilEmpty.string_of_uint u))
    by (destruct u; try contradiction; reflexivity).
  assert (Hi : take_integer (NilEmpty.string_of_uint u)
               = (NilEmpty.string_of_uint u, "")).
  { pose proof (span_digits_uint u) as H. destruct u; try contradiction; exact H. }
  rewrite Hs, Hi.
  destruct u; try contradiction; reflexivity.
Qed.

Lemma match_number_minus (s : string) (ds frac exp rest : string) :
  match_number s = Some (false, ds, frac, exp, rest) ->
  match_number (String "-" s) = Some (true, ds, frac, exp, rest).
Proof.
  unfold match_number. change (take_sign (String "-" s)) with (true, s).
  destruct (take_sign s) as [neg s1] eqn:Hs.
  assert (neg = false -> s1 = s).
  { intros ->. pose proof (take_sign_text s) as H. rewrite Hs in H. exact (eq_sym H). }
  destruct (take_integer s1) as [ds' s2] eqn:Hi.
  destruct (is_empty ds') eqn:He; [discriminate|].
  destruct (take_frac s2) as [frac' s3] eqn:Hf.
  destruct (take_exp s3) as [exp' s4] eqn:Hx.
  intros Hm. injection Hm as -> -> -> -> ->.
  rewrite <- (H eq_refl), Hi, He, Hf, Hx. reflexivity.
Qed.

(** The groups of the text of an integer. *)
Lemma match_number_intstr (n : Z) :
  exists neg u,
    match_number (intstr n) = Some (neg, NilEmpty.string_of_uint u, "", "", "") /\
    n = (if neg then - Z.of_uint u else Z.of_uint u) /\
    String.length (NilEmpty.string_of_uint u) = int_digits n.
Proof.
  assert (Hlen : forall p, String.length (NilEmpty.string_of_uint (Pos.to_uint p))
                           = int_digits (Z.pos p)).
  { intros p. unfold int_digits, intstr.
    change (Z.to_int (Z.abs (Z.pos p))) with (Decimal.Pos (Pos.to_uint p)).
    cbn [NilZero.string_of_int].
    rewrite string_of_uint_nonnil by apply DecimalPos.Unsigned.to_uint_nonnil.
    reflexivity. }
  unfold intstr. destruct n as [|p|p]; cbn [Z.to_int NilZero.string_of_int].
  - exists false, (Decimal.D0 Decimal.Nil). repeat split; reflexivity.
  - exists false, (Pos.to_uint p).
    rewrite string_of_uint_nonnil by apply DecimalPos.Unsigned.to_uint_nonnil.
    split; [apply match_number_uint, to_uint_nonzero_head|].
    rewrite of_uint_to_uint. split; [reflexivity | apply Hlen].
  - exists true, (Pos.to_uint p).
    rewrite string_of_uint_nonnil by apply DecimalPos.Unsigned.to_uint_nonnil.
    split; [apply match_number_minus, match_number_uint, to_uint_nonzero_head|].
    rewrite of_uint_to_uint. split; [reflexivity | apply Hlen].
Qed.

(** ** json: decoding what was encoded *)

Section DecoderFacts.

Variable parse_float : string -> string.

Notation number_value := (number_value parse_float).
Notation scan_once := (scan_once parse_float).
Notation array_loop := (array_loop parse_float).
Notation object_loop := (object_loop parse_float).
Notation json_loads := (json_loads parse_float).
Notation json_representable := (json_representable parse_float).
Notation encodes := (encodes parse_float).
Notation encodes_pair := (encodes_pair parse_float).

Lemma scanstring_escape_char (c : ascii) (r : string) :
  scanstring (escape_char c +:+ r) =
    match scanstring r with
    | Some (t, rest) => Some (String c t, rest)
    | None => None
    end.
Proof.
  destruct c as [[] [] [] [] [] [] [] []]; reflexivity.
Qed.

Lemma scanstring_escape (s rest : string) :
  scanstring (escape s +:+ String dquote rest) = Some (s, rest).
Proof.
  induction s as [|c s IH]; [reflexivity|].
  cbn [escape]. rewrite append_assoc, scanstring_escape_char, IH. reflexivity.
Qed.

Lemma scan_string (fuel : nat) (s rest : string) :
  scan_once (S fuel) (encode_basestring s +:+ rest) = Some (PStr s, rest).
Proof.
  unfold encode_basestring. str_simpl. cbn [scan_once].
  change (Ascii.eqb dquote dquote) with true. cbv iota.
  rewrite append_assoc. str_simpl. rewrite scanstring_escape. reflexivity.
Qed.

Lemma scan_once_number (fuel : nat) (s : string)
    (neg : bool) (ds frac exp rest : string) :
  match_number s = Some (neg, ds, frac, exp, rest) ->
  scan_once (S fuel) s =
    match number_value neg ds frac exp with
    | Some v => Some (v, rest)
    | None => None
    end.
Proof.
  intros Hm. destruct (match_number_start s _ Hm) as (c & r & -> & Hc).
  assert (E : scan_once (S fuel) (String c r) =
              match match_number (String c r) with
              | Some (neg, ds, frac, exp, rest) =>
                  match number_value neg ds frac exp with
                  | Some v => Some (v, rest)
                  | None => None
                  end
              | None =>
                  match strip_prefix "NaN" (String c r),
                        strip_prefix "Infinity" (String c r),
                        strip_prefix "-Infinity" (String c r) with
                  | Some rest, _, _ => Some (PFloat "nan", rest)
                  | _, Some rest, _ => Some (PFloat "inf", rest)
                  | _, _, Some rest => Some (PFloat "-inf", rest)
                  | None, None, None => None
                  end
              end).
  { clear Hm. destruct c as [[] [] [] [] [] [] [] []]; try discriminate; reflexivity. }
  rewrite E, Hm. reflexivity.
Qed.

Lemma scan_int (fuel : nat) (n : Z) (rest : string) :
  int_too_long n = false ->
  number_end rest = true ->
  scan_once (S fuel) (intstr n +:+ rest) = Some (PInt n, rest).
Proof.
  intros Hn Hr. destruct (match_number_intstr n) as (neg & u & Hm & Heq & Hlen).
  rewrite (scan_once_number fuel _ _ _ _ _ _ (match_number_app _ _ _ _ _ _ Hm Hr)).
  unfold number_value. cbn [is_empty andb].
  unfold int_too_long in Hn. rewrite Hlen, Hn, NilEmpty.usu, <- Heq. reflexivity.
Qed.

Lemma floatstr_literal (r : string) : is_float_literal r = true -> floatstr r = r.
Proof.
  intros H. unfold floatstr.
  destruct (String.eqb_spec r "nan") as [->|_]; [discriminate|].
  destruct (String.eqb_spec r "inf") as [->|_]; [discriminate|].
  destruct (String.eqb_spec r "-inf") as [->|_]; [discriminate|]. reflexivity.
Qed.

Lemma scan_float (fuel : nat) (r rest : string) :
  json_representable (PFloat r) = true ->
  number_end rest = true ->
  scan_once (S fuel) (floatstr r +:+ rest) = Some (PFloat r, rest).
Proof.
  cbn [json_representable]. intros H Hr.
  apply andb_true_iff in H. destruct H as [Hlit Hrepr].
  apply String.eqb_eq in Hrepr. rewrite (floatstr_literal r Hlit).
  unfold is_float_literal in Hlit.
  destruct (match_number r) as [[[[[neg ds] frac] exp] rest']|] eqn:Hm; [|discriminate].
  apply andb_true_iff in Hlit. destruct Hlit as [Hrest Hfloat].
  destruct rest'; [|discriminate].
  rewrite (scan_once_number fuel _ _ _ _ _ _ (match_number_app _ _ _ _ _ _ Hm Hr)).
  unfold number_value. apply negb_true_iff in Hfloat. rewrite Hfloat.
  pose proof (match_number_text _ _ _ _ _ _ Hm) as Ht. rewrite append_nil_r in Ht.
  rewrite <- Ht, Hrepr. reflexivity.
Qed.

Lemma skip_ws_app (a s : string) :
  all_ws a = true -> skip_ws (a +:+ s) = skip_ws s.
Proof.
  induction a as [|c a IH]; [reflexivity|]. cbn [all_ws]. intros H.
  apply andb_true_iff in H. destruct H as [Hc Ha].
  str_simpl. cbn [skip_ws]. rewrite Hc. apply IH, Ha.
Qed.

Lemma value_start_not_ws (c : ascii) : value_start c = true -> is_ws c = false.
Proof. destruct c as [[] [] [] [] [] [] [] []]; try discriminate; reflexivity. Qed.

Lemma skip_ws_value (s rest : string) :
  value_head s = true -> skip_ws (s +:+ rest) = s +:+ rest.
Proof.
  destruct s as [|c r]; [discriminate|]. cbn [value_head]. intros H.
  str_simpl. cbn [skip_ws]. rewrite (value_start_not_ws c H). reflexivity.
Qed.

Lemma all_ws_app (a b : string) :
  all_ws a = true -> all_ws b = true -> all_ws (a +:+ b) = true.
Proof.
  intros Ha Hb. induction a as [|c a IH]; [exact Hb|].
  cbn [all_ws] in Ha. apply andb_true_iff in Ha. destruct Ha as [Hc Ha].
  str_simpl. cbn [all_ws]. rewrite Hc, (IH Ha). reflexivity.
Qed.

Lemma all_ws_str_mul (ind : string) (n : nat) :
  all_ws ind = true -> all_ws (str_mul ind n) = true.
Proof.
  intros H. induction n as [|n IH]; [reflexivity|]. cbn [str_mul].
  apply all_ws_app; assumption.
Qed.

Lemma skip_ws_newline_indent (ind : string) (lvl : nat) (s : string) :
  all_ws ind = true -> skip_ws (newline_indent ind lvl +:+ s) = skip_ws s.
Proof.
  intros H. apply skip_ws_app. unfold newline_indent. cbn [all_ws].
  rewrite (all_ws_str_mul ind lvl H). reflexivity.
Qed.

Lemma number_end_newline_indent (ind : string) (lvl : nat) (s : string) :
  number_end (newline_indent ind lvl +:+ s) = true.
Proof. reflexivity. Qed.

Lemma number_end_item_sep (ind : string) (lvl : nat) (s : string) :
  number_end (item_sep ind lvl +:+ s) = true.
Proof. reflexivity. Qed.

Lemma skip_ws_item_sep (ind : string) (lvl : nat) (s : string) :
  skip_ws (item_sep ind lvl +:+ s) = String "," (newline_indent ind lvl +:+ s).
Proof. reflexivity. Qed.

Lemma array_loop_last (fuel : nat) (acc : list pyval) (s rest r : string) (x : pyval) :
  scan_once fuel s = Some (x, rest) ->
  skip_ws rest = String "]" r ->
  array_loop (S fuel) acc s = Some (PList (acc ++ [x]), r).
Proof. intros H1 H2. cbn [array_loop]. rewrite H1, H2. reflexivity. Qed.

Lemma array_loop_next (fuel : nat) (acc : list pyval) (s rest r : string) (x : pyval) :
  scan_once fuel s = Some (x, rest) ->
  skip_ws rest = String "," r ->
  array_loop (S fuel) acc s = array_loop fuel (acc ++ [x]) (skip_ws r).
Proof. intros H1 H2. cbn [array_loop]. rewrite H1, H2. reflexivity. Qed.

Lemma value_head_join (sp : string) (t : string) (chunks : list string) :
  value_head t = true -> value_head (join sp (t :: chunks)) = true.
Proof.
  intros H. destruct chunks; cbn [join]; [exact H|].
  destruct t; [discriminate | exact H].
Qed.

Lemma array_loop_items (ind : string) (lvl : nat) :
  all_ws ind = true ->
  forall (l : list pyval) (chunks : list string),
    Forall2 encodes l chunks -> l <> [] ->
    forall acc rest fuel,
      (list_sum (map (fun x => S (size x)) l) <= fuel)%nat ->
      array_loop fuel acc
        (join (item_sep ind (S lvl)) chunks
           +:+ newline_indent ind lvl +:+ String "]" rest)
      = Some (PList (acc ++ l), rest).
Proof.
  intros Hind l chunks H.
  induction H as [|x s l chunks Hx Hrest IH]; [congruence|].
  intros _ acc rest fuel Hfuel. unfold list_sum in *. cbn [map fold_right] in Hfuel.
  destruct fuel as [|fuel]; [lia|].
  destruct Hx as (Hhead & Hlen & Hscan).
  destruct Hrest as [|y t l chunks Hy Hrest'].
  - cbn [join].
    apply (array_loop_last _ _ _ _ _ _
             (Hscan _ fuel (number_end_newline_indent _ _ _) ltac:(lia))).
    rewrite (skip_ws_newline_indent _ _ _ Hind). reflexivity.
  - change (join (item_sep ind (S lvl)) (s :: t :: chunks))
      with (s +:+ item_sep ind (S lvl) +:+ join (item_sep ind (S lvl)) (t :: chunks)).
    rewrite !append_assoc.
    rewrite (array_loop_next _ _ _ _ _ _
               (Hscan _ fuel (number_end_item_sep _ _ _) ltac:(lia))
               (skip_ws_item_sep _ _ _)).
    rewrite (skip_ws_newline_indent _ _ _ Hind).
    rewrite (skip_ws_value _ _ (value_head_join _ _ _ (proj1 Hy))).
    rewrite IH by (congruence || lia). rewrite <- app_assoc. reflexivity.
Qed.

Lemma object_loop_last (fuel : nat) (acc : list (string * pyval))
    (s key rest1 r rest2 r' : string) (value : pyval) :
  scanstring s = Some (key, rest1) ->
  skip_ws rest1 = String ":" r ->
  scan_once fuel (skip_ws r) = Some (value, rest2) ->
  skip_ws rest2 = String "}" r' ->
  object_loop (S fuel) acc s = Some (acc ++ [(key, value)], r').
Proof. intros H1 H2 H3 H4. cbn [object_loop]. rewrite H1, H2. cbn. rewrite H3, H4. reflexivity. Qed.

Lemma object_loop_next (fuel : nat) (acc : list (string * pyval))
    (s key rest1 r rest2 r' r'' : string) (value : pyval) :
  scanstring s = Some (key, rest1) ->
  skip_ws rest1 = String ":" r ->
  scan_once fuel (skip_ws r) = Some (value, rest2) ->
  skip_ws rest2 = String "," r' ->
  skip_ws r' = String dquote r'' ->
  object_loop (S fuel) acc s = object_loop fuel (acc ++ [(key, value)]) r''.
Proof.
  intros H1 H2 H3 H4 H5. cbn [object_loop]. rewrite H1, H2. cbn. rewrite H3, H4. cbn.
  rewrite H5. reflexivity.
Qed.

Lemma pair_chunk_tail (k sv : string) :
  encode_basestring k +:+ ": " +:+ sv
  = String dquote (escape k +:+ String dquote (String ":" (String " " sv))).
Proof. unfold encode_basestring. str_norm. reflexivity. Qed.

Lemma join_cons_cons (sp x y : string) (l : list string) :
  join sp (x :: y :: l) = x +:+ sp +:+ join sp (y :: l).
Proof. reflexivity. Qed.

Lemma object_join_tail (sp : string) (d : list (string * pyval)) (chunks : list string) :
  Forall2 encodes_pair d chunks -> d <> [] ->
  exists tail, join sp chunks = String dquote tail.
Proof.
  intros H Hne. destruct H as [|kv c d chunks (sv & -> & _) H]; [congruence|].
  destruct chunks as [|c2 chunks].
  - cbn [join]. rewrite pair_chunk_tail. eauto.
  - rewrite join_cons_cons, pair_chunk_tail. str_norm. eauto.
Qed.

Lemma object_loop_items (ind : string) (lvl : nat) :
  all_ws ind = true ->
  forall (d : list (string * pyval)) (chunks : list string),
    Forall2 encodes_pair d chunks -> d <> [] ->
    forall acc rest fuel tail,
      (list_sum (map (fun kv => S (size (snd kv))) d) <= fuel)%nat ->
      join (item_sep ind (S lvl)) chunks = String dquote tail ->
      object_loop fuel acc (tail +:+ newline_indent ind lvl +:+ String "}" rest)
      = Some (acc ++ d, rest).
Proof.
  intros Hind d chunks H.
  induction H as [|[k v] c d chunks (sv & -> & Hhead & Hlen & Hscan) Hrest IH];
    [congruence|].
  intros _ acc rest fuel tail Hfuel Htail. unfold list_sum in *.
  cbn [map fold_right snd fst] in *.
  destruct fuel as [|fuel]; [lia|].
  destruct Hrest as [|kv2 c2 d chunks Hkv2 Hrest'].
  - cbn [join] in Htail. rewrite pair_chunk_tail in Htail.
    injection Htail as <-. str_norm.
    eapply object_loop_last; [apply scanstring_escape | reflexivity | |].
    + cbn [skip_ws]. change (is_ws " ") with true. cbv iota.
      rewrite (skip_ws_value _ _ Hhead).
      apply (Hscan _ fuel (number_end_newline_indent _ _ _)). lia.
    + rewrite (skip_ws_newline_indent _ _ _ Hind). reflexivity.
  - destruct (object_join_tail (item_sep ind (S lvl)) (kv2 :: d) (c2 :: chunks))
      as (tail2 & Htail2); [constructor; assumption | congruence |].
    rewrite join_cons_cons, Htail2, pair_chunk_tail in Htail.
    revert Htail. str_norm. intros Htail. injection Htail as <-. str_norm.
    erewrite object_loop_next; cycle 1.
    + apply scanstring_escape.
    + reflexivity.
    + cbn [skip_ws]. change (is_ws " ") with true. cbv iota.
      rewrite (skip_ws_value _ _ Hhead).
      apply (Hscan _ fuel (number_end_item_sep _ _ _)). lia.
    + apply skip_ws_item_sep.
    + rewrite (skip_ws_newline_indent _ _ _ Hind). str_norm. reflexivity.
    + rewrite IH by (congruence || lia || exact Htail2).
      rewrite <- app_assoc. reflexivity.
Qed.

Lemma mapM_Forall2 {A B} (f : A -> result B) (R : A -> B -> Prop) (l : list A) :
  Forall (fun a => exists b, f a = Returns b /\ R a b) l ->
  exists bs, mapM f l = Returns bs /\ Forall2 R l bs.
Proof.
  induction 1 as [|a l (b & Hb & HR) _ (bs & Hbs & HRs)].
  - exists []. split; [reflexivity | constructor].
  - exists (b :: bs). cbn [mapM]. rewrite Hb. fold (mapM f). rewrite Hbs.
    split; [reflexivity | constructor; assumption].
Qed.

Lemma no_dup_keys_NoDup (ks : list string) : no_dup_keys ks = true -> List.NoDup ks.
Proof.
  induction ks as [|k r IH]; [constructor|]. cbn [no_dup_keys]. intros H.
  apply andb_true_iff in H. destruct H as [Hk Hr]. apply negb_true_iff in Hk.
  constructor; [|exact (IH Hr)].
  intros Hin. assert (Ht : existsb (String.eqb k) r = true); [|congruence].
  apply existsb_exists. exists k. split; [exact Hin | apply String.eqb_refl].
Qed.

Lemma dict_set_fresh (k : string) (v : pyval) (d : list (string * pyval)) :
  ~ In k (map fst d) -> dict_set k v d = d ++ [(k, v)].
Proof.
  induction d as [|[k' v'] d IH]; [reflexivity|]. cbn [map fst In dict_set].
  intros H. destruct (String.eqb_spec k k') as [->|Hne]; [tauto|].
  rewrite IH by tauto. reflexivity.
Qed.

Lemma dict_of_pairs_acc (d acc : list (string * pyval)) :
  List.NoDup (map fst (acc ++ d)) ->
  fold_left (fun d kv => dict_set (fst kv) (snd kv) d) d acc = acc ++ d.
Proof.
  revert acc. induction d as [|[k v] d IH]; intros acc H.
  - rewrite app_nil_r. reflexivity.
  - cbn [fold_left fst snd]. rewrite dict_set_fresh.
    + rewrite IH by (rewrite <- app_assoc; exact H). rewrite <- app_assoc. reflexivity.
    + rewrite map_app in H. cbn [map fst] in H.
      apply List.NoDup_remove_2 in H. intros Hin. apply H.
      apply in_or_app. left. exact Hin.
Qed.

Lemma dict_of_pairs_distinct (d : list (string * pyval)) :
  no_dup_keys (map fst d) = true -> dict_of_pairs d = d.
Proof.
  intros H. unfold dict_of_pairs. rewrite dict_of_pairs_acc; [reflexivity|].
  apply no_dup_keys_NoDup, H.
Qed.

Lemma join_length {A} (f : A -> nat) (sp : string) (l : list A) (chunks : list string) :
  Forall2 (fun x s => (f x <= String.length s)%nat) l chunks ->
  l <> [] -> (1 <= String.length sp)%nat ->
  (list_sum (map (fun x => S (f x)) l) <= S (String.length (join sp chunks)))%nat.
Proof.
  intros H Hne Hsp. unfold list_sum.
  induction H as [|x s l chunks Hx Hrest IH]; [congruence|].
  cbn [map fold_right]. destruct Hrest as [|y t l chunks Hy Hrest'].
  - cbn. lia.
  - rewrite join_cons_cons, !length_append.
    specialize (IH ltac:(congruence)). lia.
Qed.

Lemma iterencode_list (ind : string) (lvl : nat) (x : pyval) (l : list pyval) :
  iterencode ind lvl (PList (x :: l)) =
    match mapM (iterencode ind (S lvl)) (x :: l) with
    | Raises e => Raises e
    | Returns chunks =>
        Returns ("[" +:+ newline_indent ind (S lvl)
                 +:+ join (item_sep ind (S lvl)) chunks
                 +:+ newline_indent ind lvl +:+ "]")
    end.
Proof. reflexivity. Qed.

Lemma iterencode_dict (ind : string) (lvl : nat) (kv : string * pyval)
    (d : list (string * pyval)) :
  iterencode ind lvl (PDict (kv :: d)) =
    match mapM (fun kv : string * pyval =>
                  match iterencode ind (S lvl) (snd kv) with
                  | Raises e => Raises e
                  | Returns chunk =>
                      Returns (encode_basestring (fst kv) +:+ ": " +:+ chunk)
                  end) (kv :: d) with
    | Raises e => Raises e
    | Returns chunks =>
        Returns ("{" +:+ newline_indent ind (S lvl)
                 +:+ join (item_sep ind (S lvl)) chunks
                 +:+ newline_indent ind lvl +:+ "}")
    end.
Proof. reflexivity. Qed.

Lemma value_start_not_close (c : ascii) :
  value_start c = true -> Ascii.eqb c "]" = false.
Proof. destruct c as [[] [] [] [] [] [] [] []]; try discriminate; reflexivity. Qed.

Lemma scan_once_array (fuel : nat) (r s : string) :
  skip_ws r = s -> value_head s = true ->
  scan_once (S fuel) (String "[" r) = array_loop fuel [] s.
Proof.
  intros Hs Hh. destruct s as [|c t]; [discriminate|]. cbn [value_head] in Hh.
  cbn [scan_once]. change (Ascii.eqb "[" dquote) with false.
  change (Ascii.eqb "[" "{") with false. change (Ascii.eqb "[" "[") with true.
  cbv iota. rewrite Hs, (value_start_not_close c Hh). reflexivity.
Qed.

Lemma scan_once_object (fuel : nat) (r tail : string) :
  skip_ws r = String dquote tail ->
  scan_once (S fuel) (String "{" r) =
    match object_loop fuel [] tail with
    | Some (pairs, rest) => Some (PDict (dict_of_pairs pairs), rest)
    | None => None
    end.
Proof.
  intros Hs. cbn [scan_once]. change (Ascii.eqb "{" dquote) with false.
  change (Ascii.eqb "{" "{") with true. cbv iota. rewrite Hs. reflexivity.
Qed.

Lemma value_head_app (s rest : string) :
  value_head s = true -> value_head (s +:+ rest) = true.
Proof. destruct s; [discriminate | intros H; exact H]. Qed.

Lemma number_start_value (c : ascii) : number_start c = true -> value_start c = true.
Proof. unfold value_start. intros ->. reflexivity. Qed.

Lemma item_sep_length (ind : string) (lvl : nat) :
  (1 <= String.length (item_sep ind lvl))%nat.
Proof. unfold item_sep. rewrite length_append. cbn. lia. Qed.

Lemma size_list (l : list pyval) :
  size (PList l) = S (list_sum (map (fun x => S (size x)) l)).
Proof. reflexivity. Qed.

Lemma size_dict (d : list (string * pyval)) :
  size (PDict d) = S (list_sum (map (fun kv => S (size (snd kv))) d)).
Proof. reflexivity. Qed.

Lemma iterencode_encodes (v : pyval) :
  json_representable v = true ->
  forall ind lvl, all_ws ind = true ->
  exists s, iterencode ind lvl v = Returns s /\ encodes v s.
Proof.
  induction v as [|b|n|r|s|l IH|d IH|name] using pyval_induction;
    intros Hrep ind lvl Hind.
  - exists "null". split; [reflexivity|]. split; [reflexivity|]. split; [cbn; lia|].
    intros rest [|fuel] _ Hf; [cbn in Hf; lia | reflexivity].
  - destruct b; eexists; (split; [reflexivity|]); (split; [reflexivity|]);
      (split; [cbn; lia|]);
      intros rest [|fuel] _ Hf; (cbn in Hf; lia) || reflexivity.
  - cbn [json_representable] in Hrep. apply negb_true_iff in Hrep.
    exists (intstr n). split; [cbn [iterencode]; rewrite Hrep; reflexivity|].
    destruct (match_number_intstr n) as (neg & u & Hm & _).
    destruct (match_number_start _ _ Hm) as (c & t & Hc & Hs).
    split; [rewrite Hc; exact (number_start_value c Hs)|].
    split; [rewrite Hc; cbn; lia|].
    intros rest [|fuel] Hr Hf; [cbn in Hf; lia | apply scan_int; assumption].
  - exists (floatstr r). split; [reflexivity|].
    assert (Hlit : is_float_literal r = true)
      by (cbn [json_representable] in Hrep; apply andb_true_iff in Hrep; tauto).
    rewrite (floatstr_literal r Hlit).
    assert (Hstart : exists c t, r = String c t /\ number_start c = true).
    { unfold is_float_literal in Hlit.
      destruct (match_number r) as [m|] eqn:Hm; [|discriminate].
      exact (match_number_start r m Hm). }
    destruct Hstart as (c & t & Hc & Hs).
    split; [rewrite Hc; exact (number_start_value c Hs)|].
    split; [rewrite Hc; cbn; lia|].
    intros rest [|fuel] Hr Hf; [cbn in Hf; lia|].
    rewrite <- (floatstr_literal r Hlit) at 1. apply scan_float; assumption.
  - exists (encode_basestring s). split; [reflexivity|].
    split; [reflexivity|]. split; [cbn; lia|].
    intros rest [|fuel] _ Hf; [cbn in Hf; lia | apply scan_string].
  - destruct l as [|x l].
    { exists "[]". split; [reflexivity|]. split; [reflexivity|]. split; [cbn; lia|].
      intros rest [|fuel] _ Hf; [cbn in Hf; lia | reflexivity]. }
    cbn [json_representable] in Hrep.
    assert (Hall : Forall (fun a => exists s, iterencode ind (S lvl) a = Returns s
                                              /\ encodes a s) (x :: l)).
    { apply List.Forall_forall. intros a Ha.
      apply (proj1 (List.Forall_forall _ _) IH a Ha); [|exact Hind].
      exact (proj1 (forallb_forall _ _) Hrep a Ha). }
    destruct (mapM_Forall2 _ _ _ Hall) as (chunks & Hchunks & Henc).
    rewrite iterencode_list, Hchunks. eexists. split; [reflexivity|].
    split; [reflexivity|]. split.
    + rewrite size_list, !length_append. cbn [String.length].
      assert (Hlen : Forall2 (fun x s => (size x <= String.length s)%nat) (x :: l) chunks).
      { eapply List.Forall2_impl; [|exact Henc]. intros a b (_ & H & _). exact H. }
      pose proof (join_length size (item_sep ind (S lvl)) _ _ Hlen ltac:(congruence)
                    (item_sep_length _ _)).
      unfold newline_indent. cbn [String.length]. lia.
    + intros rest [|fuel] Hr Hf; [cbn in Hf; lia|]. rewrite size_list in Hf. str_norm.
      assert (Hh : value_head (join (item_sep ind (S lvl)) chunks) = true).
      { inversion Henc as [|a c l' chunks' Ha Hrest]; subst.
        apply value_head_join. exact (proj1 Ha). }
      rewrite (scan_once_array fuel _ _ (skip_ws_newline_indent _ _ _ Hind)).
      * rewrite (skip_ws_value _ _ Hh).
        apply (array_loop_items ind lvl Hind _ _ Henc); [congruence | lia].
      * rewrite (skip_ws_value _ _ Hh). apply value_head_app, Hh.
  - destruct d as [|kv d].
    { exists "{}". split; [reflexivity|]. split; [reflexivity|]. split; [cbn; lia|].
      intros rest [|fuel] _ Hf; [cbn in Hf; lia | reflexivity]. }
    cbn [json_representable] in Hrep. apply andb_true_iff in Hrep.
    destruct Hrep as [Hkeys Hrep].
    assert (Hall : Forall (fun a : string * pyval =>
                      exists c,
                        match iterencode ind (S lvl) (snd a) with
                        | Raises e => Raises e
                        | Returns chunk =>
                            Returns (encode_basestring (fst a) +:+ ": " +:+ chunk)
                        end = Returns c /\ encodes_pair a c) (kv :: d)).
    { apply List.Forall_forall. intros a Ha.
      destruct (proj1 (List.Forall_forall _ _) IH a Ha
                  (proj1 (forallb_forall _ _) Hrep a Ha) ind (S lvl) Hind)
        as (sv & Hsv & Hesv).
      rewrite Hsv. eexists. split; [reflexivity|]. exists sv. split; [reflexivity | exact Hesv]. }
    destruct (mapM_Forall2 _ _ _ Hall) as (chunks & Hchunks & Henc).
    rewrite iterencode_dict, Hchunks. eexists. split; [reflexivity|].
    split; [reflexivity|]. split.
    + rewrite size_dict, !length_append. cbn [String.length].
      assert (Hlen : Forall2 (fun (a : string * pyval) s =>
                                (size (snd a) <= String.length s)%nat) (kv :: d) chunks).
      { eapply List.Forall2_impl; [|exact Henc].
        intros a b (sv & -> & _ & H & _). rewrite !length_append. lia. }
      pose proof (join_length (fun a : string * pyval => size (snd a))
                    (item_sep ind (S lvl)) _ _ Hlen ltac:(congruence)
                    (item_sep_length _ _)).
      unfold newline_indent. cbn [String.length]. lia.
    + intros rest [|fuel] Hr Hf; [cbn in Hf; lia|]. rewrite size_dict in Hf. str_norm.
      destruct (object_join_tail (item_sep ind (S lvl)) _ _ Henc ltac:(congruence))
        as (tail & Htail).
      rewrite Htail. str_norm.
      rewrite (scan_once_object fuel _ (tail +:+ newline_indent ind lvl +:+ String "}" rest)).
      * rewrite (object_loop_items ind lvl Hind _ _ Henc ltac:(congruence) [] rest fuel
                   tail ltac:(lia) Htail).
        cbn [app]. rewrite (dict_of_pairs_distinct _ Hkeys). reflexivity.
      * rewrite (skip_ws_newline_indent _ _ _ Hind). reflexivity.
  - discriminate.
Qed.

Lemma json_loads_iterencode (v : pyval) (k : nat) :
  json_representable v = true ->
  exists s, iterencode (str_mul " " k) 0 v = Returns s /\ json_loads s = Some v.
Proof.
  intros Hrep.
  destruct (iterencode_encodes v Hrep (str_mul " " k) 0 (all_ws_str_mul " " k eq_refl))
    as (s & Hs & Hhead & Hlen & Hscan).
  exists s. split; [exact Hs|]. unfold json_loads.
  pose proof (skip_ws_value s "" Hhead) as Hskip. rewrite append_nil_r in Hskip.
  rewrite Hskip. rewrite <- (append_nil_r s) at 2.
  rewrite (Hscan "" _ eq_refl) by lia. reflexivity.
Qed.

Lemma insert_item_perm (kv : string * pyval) (l : list (string * pyval)) :
  Permutation (kv :: l) (insert_item kv l).
Proof.
  induction l as [|kv' l IH]; [reflexivity|]. cbn [insert_item].
  destruct (String.leb (fst kv) (fst kv')); [reflexivity|].
  rewrite perm_swap. apply perm_skip, IH.
Qed.

Lemma sorted_items_perm (d : list (string * pyval)) : Permutation d (sorted_items d).
Proof.
  induction d as [|kv d IH]; [reflexivity|]. cbn [sorted_items fold_right].
  rewrite <- insert_item_perm. apply perm_skip, IH.
Qed.

Lemma eq_mod_order_sort_items (v : pyval) : eq_mod_order v (sort_items v).
Proof.
  induction v as [|b|n|r|s|l IH|d IH|name] using pyval_induction; try constructor.
  - induction IH; constructor; assumption.
  - cbn [sort_items].
    apply (eq_mod_order_Dict d (map (fun kv => (fst kv, sort_items (snd kv))) d));
      [|apply sorted_items_perm].
    induction IH; constructor; [split; [reflexivity | assumption] | assumption].
Qed.

Lemma NoDup_no_dup_keys (ks : list string) : List.NoDup ks -> no_dup_keys ks = true.
Proof.
  induction 1 as [|k r Hk _ IH]; [reflexivity|]. cbn [no_dup_keys]. rewrite IH.
  rewrite andb_true_r. apply negb_true_iff.
  destruct (existsb (String.eqb k) r) eqn:He; [|reflexivity].
  apply existsb_exists in He. destruct He as (x & Hx & Heq).
  apply String.eqb_eq in Heq. subst x. contradiction.
Qed.

Lemma json_representable_sort_items (v : pyval) :
  json_representable v = true -> json_representable (sort_items v) = true.
Proof.
  induction v as [|b|n|r|s|l IH|d IH|name] using pyval_induction; try (intros H; exact H).
  - cbn [sort_items json_representable]. intros H.
    apply forallb_forall. intros x Hx. apply in_map_iff in Hx.
    destruct Hx as (y & <- & Hy).
    apply (proj1 (List.Forall_forall _ _) IH y Hy).
    exact (proj1 (forallb_forall _ _) H y Hy).
  - cbn [sort_items json_representable]. intros H.
    apply andb_true_iff in H. destruct H as [Hkeys Hvals].
    set (d' := map (fun kv => (fst kv, sort_items (snd kv))) d).
    assert (Hperm := sorted_items_perm d').
    apply andb_true_iff. split.
    + apply NoDup_no_dup_keys.
      apply (Permutation_NoDup (Permutation_map fst Hperm)).
      subst d'. rewrite map_map. cbn [fst].
      apply no_dup_keys_NoDup. exact Hkeys.
    + apply forallb_forall. intros x Hx.
      apply (Permutation_in _ (Permutation_sym Hperm)) in Hx.
      subst d'. apply in_map_iff in Hx. destruct Hx as (y & <- & Hy). cbn [snd].
      apply (proj1 (List.Forall_forall _ _) IH y Hy).
      exact (proj1 (forallb_forall _ _) Hvals y Hy).
Qed.

Lemma json_round_trip (v : pyval) (indent : nat) (sort_keys : bool) :
  json_representable v = true ->
  exists s,
    json_dumps v indent sort_keys = Returns s /\
    json_loads s = Some (if sort_keys then sort_items v else v).
Proof.
  intros Hrep. unfold json_dumps. apply json_loads_iterencode.
  destruct sort_keys; [apply json_representable_sort_items|]; exact Hrep.
Qed.

Lemma escape_char_non_ascii (c : ascii) :
  (128 <= N_of_ascii c)%N -> escape_char c = String c "".
Proof.
  destruct c as [b0 b1 b2 b3 b4 b5 b6 []]; [intros _ | ].
  - destruct b0, b1, b2, b3, b4, b5, b6; reflexivity.
  - intros H. exfalso. destruct b0, b1, b2, b3, b4, b5, b6; cbn in H; lia.
Qed.

Lemma insert_item_hd (kv a : string * pyval) (l : list (string * pyval)) :
  key_le a kv -> HdRel key_le a l -> HdRel key_le a (insert_item kv l).
Proof.
  intros Hkv Hl. destruct l as [|b l]; cbn [insert_item]; [constructor; exact Hkv|].
  destruct (String.leb (fst kv) (fst b)); constructor; [exact Hkv|].
  inversion Hl; assumption.
Qed.

Lemma insert_item_sorted (kv : string * pyval) (l : list (string * pyval)) :
  Sorted key_le l -> Sorted key_le (insert_item kv l).
Proof.
  induction 1 as [|a l Hs IH Hhd]; cbn [insert_item]; [repeat constructor|].
  destruct (String.leb (fst kv) (fst a)) eqn:Hle.
  - constructor; [constructor; assumption | constructor; exact Hle].
  - constructor; [exact IH|]. apply insert_item_hd; [|exact Hhd].
    unfold key_le. destruct (String.leb_total (fst a) (fst kv)) as [H|H]; congruence.
Qed.

Lemma sorted_items_sorted (d : list (string * pyval)) : Sorted key_le (sorted_items d).
Proof.
  induction d as [|kv d IH]; [constructor|]. cbn [sorted_items fold_right].
  apply insert_item_sorted, IH.
Qed.


End DecoderFacts.

(** ** Paths *)

Lemma cut_last_sep_spec (p : string) :
  let (h, t) := cut_last_sep p in
  p = h +:+ t /\ has_sep t = false /\
  (if is_empty h then has_sep p = false else endswith_sep h = true).
Proof.
  induction p as [|c r IH]; [cbn; auto|].
  cbn [cut_last_sep]. destruct (cut_last_sep r) as [h t].
  destruct IH as (Hr & Ht & Hh).
  destruct h as [|x h]; cbn [is_empty] in *.
  - rewrite append_nil in Hr. subst t.
    destruct (Ascii.eqb c sep) eqn:Hc; cbn [is_empty].
    + split; [reflexivity|]. split; [exact Ht|]. cbn. exact Hc.
    + split; [reflexivity|]. unfold has_sep in *. cbn [contains]. rewrite Hc, Ht. auto.
  - split; [rewrite Hr; reflexivity|]. split; [exact Ht|]. exact Hh.
Qed.

Lemma cut_last_sep_no_sep (name : string) :
  has_sep name = false -> cut_last_sep name = ("", name).
Proof.
  induction name as [|c r IH]; [reflexivity|].
  unfold has_sep. cbn [contains]. intros H. apply orb_false_iff in H as [Hc Hr].
  cbn [cut_last_sep]. rewrite (IH Hr). cbn [is_empty]. rewrite Hc. reflexivity.
Qed.

Lemma cut_last_sep_join (d name : string) :
  has_sep name = false ->
  cut_last_sep (d +:+ String sep name) = (d +:+ String sep "", name).
Proof.
  intros Hn. induction d as [|c d IH]; str_simpl.
  - cbn [cut_last_sep]. rewrite (cut_last_sep_no_sep name Hn). reflexivity.
  - cbn [cut_last_sep]. rewrite IH.
    destruct (d +:+ String sep "") eqn:Hd; [destruct d; discriminate|].
    reflexivity.
Qed.

Lemma rstrip_sep_keep (d : string) :
  is_empty d = false -> endswith_sep d = false -> rstrip_sep d = d.
Proof.
  induction d as [|c r IH]; [discriminate|]. intros _ He.
  cbn [rstrip_sep]. destruct r as [|c' r'].
  - cbn in *. rewrite He. reflexivity.
  - rewrite IH; [reflexivity | reflexivity | exact He].
Qed.

Lemma rstrip_sep_one (d : string) :
  is_empty d = false -> endswith_sep d = false ->
  rstrip_sep (d +:+ String sep "") = d.
Proof.
  induction d as [|c r IH]; [discriminate|]. intros _ He. str_simpl.
  cbn [rstrip_sep]. destruct r as [|c' r'].
  - cbn in *. rewrite He. reflexivity.
  - rewrite IH; [reflexivity | reflexivity | exact He].
Qed.

Lemma all_sep_ends (d : string) :
  is_empty d = false -> endswith_sep d = false -> all_sep (d +:+ String sep "") = false.
Proof.
  induction d as [|c r IH]; [discriminate|]. intros _ He. str_simpl.
  cbn [all_sep]. destruct r as [|c' r'].
  - cbn in *. rewrite He. reflexivity.
  - rewrite IH; [apply andb_false_r | reflexivity | exact He].
Qed.

Lemma os_path_split_join (d name : string) :
  is_empty d = false -> endswith_sep d = false -> has_sep name = false ->
  os_path_split (d +:+ String sep name) = (d, name).
Proof.
  intros Hd He Hn. unfold os_path_split. rewrite (cut_last_sep_join d name Hn).
  rewrite (all_sep_ends d Hd He), (rstrip_sep_one d Hd He).
  destruct d; [discriminate|]. reflexivity.
Qed.

Lemma endswith_sep_app (a b : string) :
  is_empty b = false -> endswith_sep (a +:+ b) = endswith_sep b.
Proof.
  intros Hb. induction a as [|c a IH]; str_simpl; [reflexivity|].
  cbn [endswith_sep]. destruct (a +:+ b) eqn:Hab.
  - destruct a, b; discriminate.
  - exact IH.
Qed.

Lemma endswith_sep_no_sep (s : string) : has_sep s = false -> endswith_sep s = false.
Proof.
  induction s as [|c r IH]; [reflexivity|]. unfold has_sep. cbn [contains].
  intros H. apply orb_false_iff in H as [Hc Hr]. cbn [endswith_sep].
  destruct r; [exact Hc | exact (IH Hr)].
Qed.

Lemma os_path_join_plain (a b : string) :
  is_empty a = false -> endswith_sep a = false -> startswith_sep b = false ->
  os_path_join a b = a +:+ String sep b.
Proof. unfold os_path_join. intros -> -> ->. reflexivity. Qed.

Lemma startswith_sep_no_sep (s : string) :
  has_sep s = false -> startswith_sep s = false.
Proof.
  destruct s as [|c r]; [reflexivity|]. unfold has_sep. cbn [contains].
  intros H. apply orb_false_iff in H as [Hc _]. exact Hc.
Qed.

(** The directory of [path/filename] is [path]. *)
Lemma os_path_dirname_join (path filename : string) :
  is_empty path = false -> endswith_sep path = false ->
  has_sep filename = false ->
  os_path_join path filename = path +:+ String sep filename /\
  os_path_dirname (os_path_join path filename) = path.
Proof.
  intros He Hs Hn.
  assert (Hj : os_path_join path filename = path +:+ String sep filename)
    by (apply os_path_join_plain; auto using startswith_sep_no_sep).
  split; [exact Hj|]. unfold os_path_dirname.
  rewrite Hj, os_path_split_join by assumption. reflexivity.
Qed.

Lemma rstrip_sep_length (s : string) :
  (String.length (rstrip_sep s) <= String.length s)%nat.
Proof.
  induction s as [|c r IH]; [reflexivity|]. cbn [rstrip_sep].
  destruct (is_empty (rstrip_sep r) && Ascii.eqb c sep); cbn [String.length]; lia.
Qed.

Lemma rstrip_sep_shorter (s : string) :
  endswith_sep s = true ->
  (String.length (rstrip_sep s) < String.length s)%nat.
Proof.
  induction s as [|c r IH]; [discriminate|]. destruct r as [|c' r'].
  - cbn. intros ->. cbn. lia.
  - change (endswith_sep (String c (String c' r')))
      with (endswith_sep (String c' r')).
    intros H. specialize (IH H). cbn [rstrip_sep] in *.
    destruct (is_empty _ && Ascii.eqb c sep); cbn [String.length] in *; lia.
Qed.

(** The directory of a path has a shorter name, but for the current
    directory and the root. *)
Lemma os_path_dirname_shorter (d : string) :
  is_empty d || all_sep d = false ->
  (String.length (os_path_dirname d) < String.length d)%nat.
Proof.
  intros H. apply orb_false_iff in H as [He Ha].
  unfold os_path_dirname, os_path_split.
  pose proof (cut_last_sep_spec d) as Hs. destruct (cut_last_sep d) as [h t].
  destruct Hs as (Hd & _ & Hh).
  assert (Hlen : String.length d = (String.length h + String.length t)%nat)
    by (rewrite Hd; apply length_append).
  destruct h as [|x h'].
  - cbn. destruct d; [discriminate | cbn; lia].
  - cbn [is_empty negb andb] in *.
    destruct (all_sep (String x h')) eqn:Hall; cbn [negb fst].
    + destruct t as [|y t']; [|cbn [String.length] in *; lia].
      rewrite append_nil_r in Hd. congruence.
    + pose proof (rstrip_sep_shorter _ Hh). lia.
Qed.

(** ** The file system *)

(** The walk to a directory ends within the fuel [dir_error] gives it. *)
Lemma resolve_dir_enough (fs : gmap string node) (f1 : nat) : forall f2 d,
  (String.length d <= f1)%nat -> (String.length d <= f2)%nat ->
  resolve_dir f1 fs d = resolve_dir f2 fs d.
Proof.
  induction f1 as [|f1 IH]; intros f2 d H1 H2.
  - destruct d; [destruct f2; reflexivity | cbn in H1; lia].
  - destruct f2 as [|f2]; [destruct d; [reflexivity | cbn in H2; lia]|].
    cbn [resolve_dir]. destruct (is_empty d || all_sep d) eqn:E; [reflexivity|].
    destruct (fs !! d) as [[c|]|]; try reflexivity.
    pose proof (os_path_dirname_shorter d E).
    rewrite (IH f2 (os_path_dirname d)) by lia. reflexivity.
Qed.

Lemma dir_error_fuel (fs : gmap string node) (d : string) (fuel : nat) :
  (String.length d <= fuel)%nat -> resolve_dir fuel fs d = dir_error fs d.
Proof. intros H. apply resolve_dir_enough; [exact H | reflexivity]. Qed.

(** The walk to a directory finds no error exactly when the directory is the
    current one, the root, or there. *)
Lemma resolve_dir_None (fuel : nat) (fs : gmap string node) (d : string) :
  resolve_dir fuel fs d = None <-> is_empty d || all_sep d || isdir fs d = true.
Proof.
  unfold isdir.
  destruct fuel as [|fuel]; cbn [resolve_dir];
    destruct (is_empty d || all_sep d); cbn [orb]; try (split; reflexivity);
    destruct (fs !! d) as [[c|]|]; try (split; discriminate);
    try (split; reflexivity).
  destruct (resolve_dir fuel fs (os_path_dirname d)); [split; discriminate|].
  destruct (NAME_MAX <? _)%nat; split; discriminate.
Qed.

Lemma dir_error_parent (fs : gmap string node) (p : string) :
  dir_error fs (os_path_dirname p) = None <-> parent_exists fs p = true.
Proof. apply resolve_dir_None. Qed.

Lemma all_sep_endswith (p : string) :
  all_sep p = true -> is_empty p = false -> endswith_sep p = true.
Proof.
  induction p as [|c r IH]; [discriminate|]. cbn [all_sep].
  intros H _. apply andb_true_iff in H as [Hc Hr].
  destruct r as [|c' r']; [exact Hc|].
  change (endswith_sep (String c (String c' r'))) with (endswith_sep (String c' r')).
  apply IH; [exact Hr | reflexivity].
Qed.

Lemma os_accepts_inv (p : string) :
  os_accepts p = true ->
  is_empty p = false /\ has_nul p = false /\ (String.length p < PATH_MAX)%nat /\
  endswith_sep p = false /\
  (String.length (os_path_basename p) <= NAME_MAX)%nat /\
  dot_name (os_path_basename p) = false.
Proof.
  unfold os_accepts.
  rewrite !andb_true_iff, !negb_true_iff, Nat.ltb_lt, Nat.leb_le. tauto.
Qed.

(** A file can be created under a name the OS accepts in a directory that is
    there. *)
Lemma create_error_None (fs : gmap string node) (p : string) :
  os_accepts p = true -> parent_exists fs p = true -> create_error fs p = None.
Proof.
  intros Ha Hp. destruct (os_accepts_inv _ Ha) as (He & Hn & Hl & Hs & Hb & Hdot).
  unfold create_error. rewrite Hn, He.
  destruct (Nat.leb_spec PATH_MAX (String.length p)); [lia|].
  destruct (all_sep p) eqn:Hall;
    [rewrite (all_sep_endswith _ Hall He) in Hs; discriminate|].
  rewrite Hs, (proj2 (dir_error_parent fs p) Hp), Hdot.
  destruct (Nat.ltb_spec NAME_MAX (String.length (os_path_basename p)));
    [lia | reflexivity].
Qed.

(** The two errors of a directory that is not there: a regular file stands
    in its place, or nothing does in a directory that exists. *)
Lemma missing_error_file (fs : gmap string node) (p c : string) :
  parent_exists fs p = false ->
  fs !! os_path_dirname p = Some (File c) ->
  missing_error fs p = NotADirectoryError.
Proof.
  unfold parent_exists, missing_error, dir_error. cbn zeta. intros Hp Hf.
  apply orb_false_iff in Hp as [Hp _].
  destruct (String.length (os_path_dirname p)); cbn [resolve_dir];
    rewrite Hp, Hf; reflexivity.
Qed.

Lemma missing_error_absent (fs : gmap string node) (p : string) :
  parent_exists fs p = false ->
  fs !! os_path_dirname p = None ->
  parent_exists fs (os_path_dirname p) = true ->
  (String.length (os_path_basename (os_path_dirname p)) <= NAME_MAX)%nat ->
  missing_error fs p = FileNotFoundError.
Proof.
  unfold missing_error, dir_error. intros Hp Hf Hpp Hl.
  unfold parent_exists in Hp. cbn zeta in Hp.
  apply orb_false_iff in Hp as [Hp _].
  destruct (String.length (os_path_dirname p)) as [|n]; cbn [resolve_dir];
    rewrite Hp, Hf; [reflexivity|].
  rewrite (proj2 (resolve_dir_None n fs _) Hpp).
  destruct (Nat.ltb_spec NAME_MAX
              (String.length (os_path_basename (os_path_dirname p))));
    [lia | reflexivity].
Qed.

(** In a directory that is not there a file cannot be created, and the
    error is the one of the walk to the directory. *)
Lemma create_error_missing (fs : gmap string node) (p : string) :
  os_accepts p = true -> parent_exists fs p = false ->
  create_error fs p = Some (missing_error fs p).
Proof.
  intros Ha Hp. destruct (os_accepts_inv _ Ha) as (He & Hn & Hl & Hs & Hb & _).
  unfold create_error, missing_error. rewrite Hn, He.
  destruct (Nat.leb_spec PATH_MAX (String.length p)); [lia|].
  destruct (all_sep p) eqn:Hall;
    [rewrite (all_sep_endswith _ Hall He) in Hs; discriminate|].
  rewrite Hs.
  destruct (dir_error fs (os_path_dirname p)) eqn:Hd; [reflexivity|].
  apply dir_error_parent in Hd. congruence.
Qed.

Lemma resolve_dir_not_type (fuel : nat) (fs : gmap string node) : forall d,
  resolve_dir fuel fs d <> Some TypeError.
Proof.
  induction fuel as [|fuel IH]; intros d; cbn [resolve_dir];
    destruct (is_empty d || all_sep d); try discriminate;
    destruct (fs !! d) as [[c|]|]; try discriminate.
  specialize (IH (os_path_dirname d)).
  destruct (resolve_dir fuel fs (os_path_dirname d)); [congruence|].
  destruct (NAME_MAX <? _)%nat; discriminate.
Qed.

Lemma missing_error_not_type (fs : gmap string node) (p : string) :
  missing_error fs p <> TypeError.
Proof.
  unfold missing_error, dir_error.
  pose proof (resolve_dir_not_type (String.length (os_path_dirname p)) fs
                (os_path_dirname p)) as H.
  destruct (resolve_dir _ fs _); [congruence | discriminate].
Qed.

Lemma create_error_not_type (fs : gmap string node) (p : string) :
  create_error fs p <> Some TypeError.
Proof.
  unfold create_error, dir_error.
  destruct (has_nul p); [discriminate|].
  destruct (is_empty p); [discriminate|].
  destruct (PATH_MAX <=? _)%nat; [discriminate|].
  destruct (all_sep p); [discriminate|].
  destruct (endswith_sep p).
  - pose proof (resolve_dir_not_type
                  (String.length (os_path_dirname (os_path_dirname p))) fs
                  (os_path_dirname (os_path_dirname p))) as H.
    destruct (resolve_dir _ fs _); [congruence | discriminate].
  - pose proof (resolve_dir_not_type (String.length (os_path_dirname p)) fs
                  (os_path_dirname p)) as H.
    destruct (resolve_dir _ fs _); [congruence|].
    destruct (dot_name _); [discriminate|].
    destruct (NAME_MAX <? _)%nat; discriminate.
Qed.

(** Opening a missing file for reading raises [FileNotFoundError] when the
    OS accepts the name and the directory is there, or is missing itself. *)
Lemma read_error_missing (fs : gmap string node) (p : string) :
  os_accepts p = true ->
  dir_error fs (os_path_dirname p) = None \/
  dir_error fs (os_path_dirname p) = Some FileNotFoundError ->
  read_error fs p = FileNotFoundError.
Proof.
  intros Ha Hd. destruct (os_accepts_inv _ Ha) as (He & Hn & Hl & Hs & Hb & Hdot).
  unfold read_error. rewrite Hn, He.
  destruct (Nat.leb_spec PATH_MAX (String.length p)); [lia|].
  destruct (all_sep p) eqn:Hall;
    [rewrite (all_sep_endswith _ Hall He) in Hs; discriminate|].
  destruct Hd as [-> | ->]; [|reflexivity].
  rewrite Hs, Hdot. cbn [orb].
  destruct (Nat.ltb_spec NAME_MAX (String.length (os_path_basename p)));
    [lia | reflexivity].
Qed.

(** ** Path validation and the structure dumper *)

Lemma with_open_w_write (dest s : string) (w : world) :
  with_open_w_utf8 dest (fun fh => fh_write fh s) w = write_text dest s w.
Proof.
  unfold with_open_w_utf8, with_open_w, bind, open_w, write_text.
  destruct (files w !! dest) as [[c|]|] eqn:Hd; try reflexivity;
    destruct (create_error (files w) dest); try reflexivity;
    unfold fh_write; cbn; rewrite lookup_insert_eq; cbn;
    unfold set_files; cbn; rewrite insert_insert_eq; reflexivity.
Qed.

Lemma files_logged (lvl : Z) (msg : string) (w : world) :
  files (logged lvl msg w) = files w.
Proof. unfold logged, logging_log, logging_basicConfig. destruct (root_handlers w); reflexivity. Qed.

Lemma records_logged (lvl : Z) (msg : string) (w : world) :
  records (logged lvl msg w) = records w ++ [(lvl, msg)].
Proof. unfold logged, logging_log, logging_basicConfig. destruct (root_handlers w); reflexivity. Qed.

Lemma logged_set_files (lvl : Z) (msg : string) (f : gmap string node) (w : world) :
  set_files f (logged lvl msg w) = logged lvl msg (set_files f w).
Proof.
  unfold logged, logging_log, logging_basicConfig. cbn.
  destruct (root_handlers w); reflexivity.
Qed.

Lemma set_files_set_files (f g : gmap string node) (w : world) :
  set_files f (set_files g w) = set_files f w.
Proof. reflexivity. Qed.

Lemma length_join_fixed (a b b' : string) :
  startswith_sep b = startswith_sep b' ->
  String.length b <> String.length b' ->
  os_path_join a b <> os_path_join a b'.
Proof.
  intros Hs Hl Heq. unfold os_path_join in Heq. rewrite <- Hs in Heq.
  destruct (startswith_sep b).
  - congruence.
  - apply (f_equal String.length) in Heq.
    destruct (is_empty a || endswith_sep a); cbn in Heq;
      rewrite !length_append in Heq; cbn in Heq; lia.
Qed.

Lemma startswith_sep_marker (fn : string) :
  startswith_sep (marker_name fn) = startswith_sep fn.
Proof. destruct fn; reflexivity. Qed.

Lemma marker_path_differs (path fn : string) :
  os_path_join path (marker_name fn) <> os_path_join path fn.
Proof.
  apply length_join_fixed; [apply startswith_sep_marker|].
  unfold marker_name. rewrite length_append. cbn. lia.
Qed.

Section PathsFacts.

Variable validate_filename validate_filepath : string -> validation.
Variable sanitize_filename : string -> string.

Notation get_valid_path := (get_valid_path validate_filename sanitize_filename).
Notation dump_structure :=
  (dump_structure validate_filename validate_filepath sanitize_filename).
Notation final_name := (final_name validate_filename sanitize_filename).

(** C1: for a filename that passes [validate_filename], [get_valid_path]
    returns [os.path.join(parent, fn)] with the name unchanged and leaves the
    world as it was: no file is written, so no marker file is created. *)
Theorem get_valid_path_valid (parent fn : string) (w : world) :
  validate_filename fn = Valid ->
  get_valid_path parent fn w = (w, Returns (os_path_join parent fn)).
Proof.
  intros Hv. unfold get_valid_path, try_except, bind, run_validation.
  rewrite Hv. reflexivity.
Qed.

(** What [get_valid_path] does with a name that fails validation, by what
    stands at the marker's path. *)
Lemma get_valid_path_invalid (parent fn reason : string) (w : world) :
  validate_filename fn = Invalid reason ->
  let san := sanitize_filename fn in
  let marker := os_path_join parent (marker_name san) in
  let msg := changed_msg fn san in
  let w0 := logged logging_INFO
              ("Need to sanitize stream " +:+ fn +:+ " to " +:+ san) w in
  get_valid_path parent fn w =
    match files w !! marker with
    | Some (File _) => (w0, Returns (os_path_join parent san))
    | Some Dir => (w0, Raises IsADirectoryError)
    | None =>
        match create_error (files w) marker with
        | None => (set_files (<[marker := File msg]> (files w))
                     (logged logging_INFO msg w0),
                   Returns (os_path_join parent san))
        | Some e => (w0, Raises e)
        end
    end.
Proof.
  intros Hv san marker msg w0.
  unfold get_valid_path, try_except. unfold bind at 1 2. unfold run_validation.
  rewrite Hv. cbn [raise ret]. unfold bind at 1. unfold logging_info at 1.
  change (logging_log logging_INFO
            ("Need to sanitize stream " +:+ fn +:+ " to " +:+ sanitize_filename fn) w)
    with (w0, Returns tt). cbv iota beta.
  fold san. fold marker. unfold bind at 1. unfold os_path_isfile, isfile.
  rewrite (files_logged _ _ w : files w0 = files w).
  destruct (files w !! marker) as [[c|]|] eqn:Hm; cbn [negb].
  - reflexivity.
  - unfold bind at 1, with_open_w, bind at 1, open_w.
    rewrite (files_logged _ _ w : files w0 = files w), Hm. reflexivity.
  - unfold bind at 1, with_open_w, bind at 1, open_w.
    rewrite (files_logged _ _ w : files w0 = files w), Hm.
    destruct (create_error (files w) marker); [reflexivity|].
    unfold bind at 1, logging_info.
    change (logging_log logging_INFO (changed_msg fn san)
              (set_files (<[marker:=File ""]> (files w)) w0))
      with (logged logging_INFO (changed_msg fn san)
              (set_files (<[marker:=File ""]> (files w)) w0), Returns tt : result unit).
    cbv iota beta. unfold fh_write. rewrite files_logged. cbn [files set_files].
    rewrite lookup_insert_eq, insert_insert_eq. cbn [ret].
    rewrite logged_set_files, set_files_set_files, <- logged_set_files.
    reflexivity.
Qed.


(** C4: when [validate_filepath] refuses [path], [dump_structure] makes one
    call of [logging.critical] and returns normally: one record of severity
    CRITICAL is added to the log, and the file system is as before, so no
    directory is created and no file is written. *)
Theorem dump_structure_invalid_path (struct : pyval) (path filename : string)
    (sort_keys : bool) (reason : string) (w : world) :
  validate_filepath path = Invalid reason ->
  let msg := "Invalid path " +:+ path +:+ ": " +:+ reason in
  dump_structure struct path filename sort_keys w =
    (logged logging_CRITICAL msg w, Returns tt) /\
  records (logged logging_CRITICAL msg w) = records w ++ [(logging_CRITICAL, msg)] /\
  files (logged logging_CRITICAL msg w) = files w.
Proof.
  intros Hv msg. split; [|split; [apply records_logged | apply files_logged]].
  unfold dump_structure, try_except, bind, run_validation.
  rewrite Hv. reflexivity.
Qed.

(** [dump_structure] on a path that passes validation: the directory, the
    serialization, the write. *)
Lemma dump_structure_valid (struct : pyval) (path filename : string)
    (sort_keys : bool) (w : world) :
  validate_filepath path = Valid ->
  dump_structure struct path filename sort_keys w =
    match (if isdir (files w) path then (w, Returns tt) else os_mkdir path w) with
    | (w1, Raises e) => (w1, Raises e)
    | (w1, Returns _) =>
        match json_dumps struct 2 sort_keys with
        | Raises e => (w1, Raises e)
        | Returns s => write_text (os_path_join path (final_name filename)) s w1
        end
    end.
Proof.
  intros Hv. unfold dump_structure.
  unfold try_except at 1. unfold bind at 1 2. unfold run_validation at 1.
  rewrite Hv. cbn -[json_dumps].
  unfold bind at 1. unfold os_path_isdir.
  unfold bind at 1.
  destruct (isdir (files w) path); cbn -[json_dumps].
  - unfold bind at 1. unfold lift.
    destruct (json_dumps struct 2 sort_keys) as [s|e]; [|reflexivity].
    unfold bind at 1. unfold try_except, bind, run_validation, final_name.
    destruct (validate_filename filename); cbn; apply with_open_w_write.
  - destruct (os_mkdir path w) as [w1 [[]|e]]; [|reflexivity].
    unfold bind at 1. unfold lift.
    destruct (json_dumps struct 2 sort_keys) as [s|e]; [|reflexivity].
    unfold bind at 1. unfold try_except, bind, run_validation, final_name.
    destruct (validate_filename filename); cbn; apply with_open_w_write.
Qed.

Lemma write_text_frame dest s w w' r :
  write_text dest s w = (w', r) ->
  records w' = records w /\
  (forall p, p <> dest -> files w' !! p = files w !! p) /\
  (r = Returns tt -> files w' = <[dest := File s]> (files w)) /\
  (forall e, r = Raises e -> w' = w).
Proof.
  unfold write_text. intros H.
  destruct (files w !! dest) as [[c|]|] eqn:Hd;
    try destruct (create_error (files w) dest) eqn:Hp;
    inversion H; subst; clear H; cbn;
    repeat split; try reflexivity; try discriminate;
    try (intros p Hne; apply lookup_insert_ne; congruence).
Qed.

Lemma os_mkdir_cases path w :
  files w !! path = None ->
  os_mkdir path w =
    if parent_exists (files w) path
    then (set_files (<[path := Dir]> (files w)) w, Returns tt)
    else (w, Raises (missing_error (files w) path)).
Proof. intros H. unfold os_mkdir. rewrite H. reflexivity. Qed.

Lemma isdir_None fs p : fs !! p = None -> isdir fs p = false.
Proof. unfold isdir. intros ->. reflexivity. Qed.


Lemma final_name_invalid filename reason :
  validate_filename filename = Invalid reason ->
  final_name filename = sanitize_filename filename.
Proof. unfold final_name. intros ->. reflexivity. Qed.

Lemma final_name_valid filename :
  validate_filename filename = Valid -> final_name filename = filename.
Proof. unfold final_name. intros ->. reflexivity. Qed.

Lemma prepare_directory_frame path w w1 r :
  (if isdir (files w) path then (w, Returns tt) else os_mkdir path w) = (w1, r) ->
  records w1 = records w /\
  (forall p, p <> path -> files w1 !! p = files w !! p) /\
  (forall p c, files w1 !! p = Some (File c) <-> files w !! p = Some (File c)).
Proof.
  destruct (isdir (files w) path).
  - intros H; inversion H; subst. repeat split; auto.
  - unfold os_mkdir. destruct (files w !! path) as [n|] eqn:Hn.
    + intros H; inversion H; subst. repeat split; auto.
    + destruct (parent_exists (files w) path); intros H; inversion H; subst; cbn.
      * split; [reflexivity|]. split.
        -- intros p Hne. apply lookup_insert_ne. congruence.
        -- intros p c. destruct (decide (path = p)) as [<-|Hne].
           ++ rewrite lookup_insert_eq, Hn. split; discriminate.
           ++ rewrite lookup_insert_ne by exact Hne. reflexivity.
      * repeat split; auto.
Qed.

(** C7: when [filename] fails validation (and [path] passes),
    [dump_structure] goes on with [sanitize_filename(filename)]: nothing is
    logged, no path other than the directory and [path/<sanitized>] changes,
    so no [<sanitized>_changed.txt] appears, a write that succeeds puts the
    serialized structure at [path/<sanitized>], and when the sanitized name
    is valid the whole call is the call with the sanitized name. *)
Theorem dump_structure_sanitizes_filename struct path filename sort_keys reason w :
  validate_filepath path = Valid ->
  validate_filename filename = Invalid reason ->
  let good := sanitize_filename filename in
  exists w' r,
    dump_structure struct path filename sort_keys w = (w', r) /\
    records w' = records w /\
    (forall p, p <> path -> p <> os_path_join path good ->
               files w' !! p = files w !! p) /\
    (os_path_join path (marker_name good) <> path ->
     files w' !! os_path_join path (marker_name good)
     = files w !! os_path_join path (marker_name good)) /\
    (r = Returns tt ->
     exists s, json_dumps struct 2 sort_keys = Returns s /\
               files w' !! os_path_join path good = Some (File s)) /\
    (validate_filename good = Valid ->
     dump_structure struct path filename sort_keys w
     = dump_structure struct path good sort_keys w).
Proof.
  intros Hp Hf good.
  rewrite (dump_structure_valid _ _ _ _ _ Hp).
  rewrite (final_name_invalid _ _ Hf). fold good.
  destruct (if isdir (files w) path then (w, Returns tt) else os_mkdir path w)
    as [w1 r1] eqn:Hdir.
  destruct (prepare_directory_frame _ _ _ _ Hdir) as (Hrec & Hfr & _).
  assert (Hsame : validate_filename good = Valid ->
            match r1 with
            | Returns _ =>
                match json_dumps struct 2 sort_keys with
                | Returns s => write_text (os_path_join path good) s w1
                | Raises e => (w1, Raises e)
                end
            | Raises e => (w1, Raises e)
            end = dump_structure struct path good sort_keys w).
  { intros Hg. rewrite (dump_structure_valid _ _ _ _ _ Hp), Hdir.
    rewrite (final_name_valid _ Hg). reflexivity. }
  assert (Hframe : forall w', (forall p, p <> os_path_join path good ->
                                files w' !! p = files w1 !! p) ->
            (forall p, p <> path -> p <> os_path_join path good ->
                       files w' !! p = files w !! p) /\
            (os_path_join path (marker_name good) <> path ->
             files w' !! os_path_join path (marker_name good)
             = files w !! os_path_join path (marker_name good))).
  { intros w' H. split.
    - intros p H1 H2. rewrite H by exact H2. apply Hfr, H1.
    - intros H1. rewrite H by apply marker_path_differs. apply Hfr, H1. }
  destruct r1 as [[]|e1].
  - destruct (json_dumps struct 2 sort_keys) as [s|e].
    + destruct (write_text (os_path_join path good) s w1) as [w' r] eqn:Hw.
      destruct (write_text_frame _ _ _ _ _ Hw) as (Hrec' & Hfr' & Hok & _).
      exists w', r. split; [reflexivity|]. split; [congruence|].
      destruct (Hframe w' Hfr') as [F1 F2].
      repeat split; [exact F1 | exact F2 | | exact Hsame].
      intros Hr. exists s. split; [reflexivity|].
      rewrite (Hok Hr). apply lookup_insert_eq.
    + exists w1, (Raises e). split; [reflexivity|]. split; [exact Hrec|].
      destruct (Hframe w1 (fun _ _ => eq_refl)) as [F1 F2].
      repeat split; [exact F1 | exact F2 | discriminate | exact Hsame].
  - exists w1, (Raises e1). split; [reflexivity|]. split; [exact Hrec|].
    destruct (Hframe w1 (fun _ _ => eq_refl)) as [F1 F2].
    repeat split; [exact F1 | exact F2 | discriminate | exact Hsame].
Qed.


Section RoundTrip.

Variable parse_float : string -> string.

Notation json_representable := (json_representable parse_float).
Notation json_loads := (json_loads parse_float).


End RoundTrip.

End PathsFacts.

(** *** On concrete inputs *)

Lemma get_valid_path_valid_witness :
  Posix.validate_filename "report.json" = Valid /\
  get_valid_path Posix.validate_filename Posix.sanitize_filename
    "/tmp/out" "report.json" Posix.tmp_world
  = (Posix.tmp_world, Returns "/tmp/out/report.json").
Proof.
  split; [reflexivity|].
  apply (get_valid_path_valid Posix.validate_filename Posix.sanitize_filename).
  reflexivity.
Defined.





Lemma dump_structure_invalid_path_witness :
  Posix.validate_filepath "" = Invalid "the value must not be an empty string" /\
  exists w',
    dump_structure Posix.validate_filename Posix.validate_filepath
      Posix.sanitize_filename (PList [PInt 1]) "" "f.json" false Posix.tmp_world
    = (w', Returns tt) /\
    records w'
    = [(logging_CRITICAL, "Invalid path : the value must not be an empty string")] /\
    files w' = files Posix.tmp_world.
Proof.
  split; [reflexivity|].
  destruct (dump_structure_invalid_path Posix.validate_filename
              Posix.validate_filepath Posix.sanitize_filename (PList [PInt 1]) ""
              "f.json" false "the value must not be an empty string"
              Posix.tmp_world eq_refl) as [Hrun [Hrecords Hfiles]].
  eexists. split; [exact Hrun|]. split; [exact Hrecords | exact Hfiles].
Defined.

Lemma dump_structure_sanitizes_filename_witness :
  Posix.validate_filepath "/tmp/out" = Valid /\
  Posix.validate_filename "a/b.json" = Invalid "invalid char found" /\
  exists w',
    dump_structure Posix.validate_filename Posix.validate_filepath
      Posix.sanitize_filename (PList [PInt 1]) "/tmp/out" "a/b.json" false
      Posix.tmp_world = (w', Returns tt) /\
    records w' = [] /\
    files w' !! "/tmp/out/ab.json_changed.txt" = None /\
    files w' !! "/tmp/out/ab.json"
    = Some (File ("[" +:+ String newline ("  1" +:+ String newline "]"))).
Proof.
  split; [reflexivity|]. split; [reflexivity|].
  destruct (dump_structure_sanitizes_filename Posix.validate_filename
              Posix.validate_filepath Posix.sanitize_filename
              (PList [PInt 1]) "/tmp/out" "a/b.json" false "invalid char found"
              Posix.tmp_world)
    as (w' & r & Hrun & Hrec & _ & Hmarker & Hwritten & Hsame);
    [reflexivity | reflexivity |].
  assert (Hr : r = Returns tt).
  { rewrite (Hsame eq_refl) in Hrun. vm_compute in Hrun. congruence. }
  exists w'. split; [rewrite <- Hr; exact Hrun|]. split; [exact Hrec|].
  split; [exact (Hmarker ltac:(discriminate))|].
  destruct (Hwritten Hr) as (s & Hs & Hfile).
  injection Hs as <-. exact Hfile.
Defined.



(** The text of [10 ** n] is a one and [n] zeros. *)
Lemma of_uint_acc_zeros (n : nat) : forall acc,
  Z.pos (Pos.of_uint_acc (Nat.iter n Decimal.D0 Decimal.Nil) acc)
  = Z.pos acc * 10 ^ Z.of_nat n.
Proof.
  induction n as [|n IH]; intros acc.
  - cbn [Nat.iter nat_rect Pos.of_uint_acc Z.of_nat]. rewrite Z.pow_0_r. lia.
  - cbn [Nat.iter nat_rect Pos.of_uint_acc].
    rewrite IH, Nat2Z.inj_succ, Z.pow_succ_r by lia.
    rewrite Pos2Z.inj_mul. lia.
Qed.

Lemma to_int_pow10 (n : nat) :
  Z.to_int (10 ^ Z.of_nat n)
  = Decimal.Pos (Decimal.D1 (Nat.iter n Decimal.D0 Decimal.Nil)).
Proof.
  set (d := Decimal.Pos (Decimal.D1 (Nat.iter n Decimal.D0 Decimal.Nil))).
  assert (H : Z.of_int d = 10 ^ Z.of_nat n).
  { unfold d. cbn [Z.of_int Z.of_uint Pos.of_uint Z.of_N].
    rewrite of_uint_acc_zeros. lia. }
  rewrite <- H, DecimalZ.to_of. reflexivity.
Qed.

Lemma length_zeros (n : nat) :
  String.length (NilEmpty.string_of_uint (Nat.iter n Decimal.D0 Decimal.Nil)) = n.
Proof.
  induction n as [|n IH]; [reflexivity|].
  change (Nat.iter (S n) Decimal.D0 Decimal.Nil)
    with (Decimal.D0 (Nat.iter n Decimal.D0 Decimal.Nil)).
  cbn [NilEmpty.string_of_uint String.length]. rewrite IH. reflexivity.
Qed.

Lemma int_digits_pow10 (n : nat) : int_digits (10 ^ Z.of_nat n) = S n.
Proof.
  unfold int_digits, intstr.
  rewrite Z.abs_eq by (apply Z.pow_nonneg; lia).
  rewrite to_int_pow10.
  cbn [NilZero.string_of_int NilZero.string_of_uint NilEmpty.string_of_uint
       String.length].
  rewrite length_zeros. reflexivity.
Qed.


(** ** The loop progress reporter *)

Section LoopFacts.

Variable strftime_now : nat -> string.
Notation LoopInfo_init := (LoopInfo_init strftime_now).
Notation info_loop := (info_loop strftime_now).
Notation end_loop := (end_loop strftime_now).
Notation info_loops := (info_loops strftime_now).

Lemma progress_lines_print (mk : string -> line) (c : console) :
  progress_lines (print_at strftime_now mk c)
  = (progress_lines c + (if is_progress (mk (strftime_now (clock_reads c))) then 1 else 0))%nat.
Proof.
  unfold progress_lines, print_at. cbn [stdout].
  rewrite filter_app, length_app. cbn.
  destruct (is_progress _); reflexivity.
Qed.

Lemma info_loop_step (self : LoopInfo) (c : console) :
  let '(self', c', n) := info_loop self c in
  rec_cnt self' = rec_cnt self + 1 /\
  n = rec_cnt self' /\
  attribname self' = attribname self /\
  triggercnt self' = triggercnt self /\
  (if triggercnt self <=? loop_cnt self + 1
   then loop_cnt self' = 0 /\ progress_lines c' = S (progress_lines c)
   else loop_cnt self' = loop_cnt self + 1 /\ progress_lines c' = progress_lines c).
Proof.
  unfold info_loop. cbn -[print_at progress_lines].
  destruct (triggercnt self <=? loop_cnt self + 1); cbn -[print_at progress_lines];
    repeat split.
  rewrite progress_lines_print. cbn. lia.
Qed.

Lemma info_loops_counts (k : nat) : forall (self : LoopInfo) (c : console),
  1 <= triggercnt self ->
  0 <= loop_cnt self < triggercnt self ->
  let '(self', c') := info_loops k self c in
  rec_cnt self' = rec_cnt self + Z.of_nat k /\
  triggercnt self' = triggercnt self /\
  loop_cnt self' = (loop_cnt self + Z.of_nat k) mod triggercnt self /\
  Z.of_nat (progress_lines c')
  = Z.of_nat (progress_lines c) + (loop_cnt self + Z.of_nat k) / triggercnt self.
Proof.
  induction k as [|k IH]; intros self c HN Hl.
  - cbn. rewrite !Z.add_0_r. rewrite Z.mod_small, Z.div_small by lia. lia.
  - cbn [info_loops].
    pose proof (info_loop_step self c) as Hs.
    destruct (info_loop self c) as [[self1 c1] n].
    destruct Hs as (Hr & _ & _ & Ht & Hcase).
    specialize (IH self1 c1).
    destruct (info_loops k self1 c1) as [self' c'].
    rewrite Ht in IH.
    destruct (Z.leb_spec (triggercnt self) (loop_cnt self + 1)) as [Hge|Hlt].
    + destruct Hcase as [Hl1 Hp1].       destruct IH as (Hr' & Ht' & Hl' & Hp'); [lia | lia |].
      rewrite Hl1, Z.add_0_l in Hl', Hp'.
      assert (Heq : loop_cnt self + Z.of_nat (S k) = Z.of_nat k + 1 * triggercnt self) by lia.
      rewrite Heq, Z.mod_add, Z.div_add by lia.
      repeat split; lia.
    + destruct Hcase as [Hl1 Hp1].
      destruct IH as (Hr' & Ht' & Hl' & Hp'); [lia | lia |].
      rewrite Hl1 in Hl', Hp'.
      replace (loop_cnt self + Z.of_nat (S k)) with (loop_cnt self + 1 + Z.of_nat k) by lia.
      repeat split; lia.
Qed.


(** C5, amended: for a [LoopInfo] built with trigger count [N >= 1], after
    exactly [N] calls of [info_loop] one progress line has been printed and
    [loop_cnt] is 0; when [N >= 2], after [N + 1] calls there is still one
    progress line; after [2 * N] calls there are two; every call of
    [info_loop] adds 1 to [rec_cnt] and returns it; and [end_loop] after [k]
    calls of [info_loop] returns [k]. *)
Theorem loop_info_progress (attrib : string) (N : Z) (c : console) :
  1 <= N ->
  let start := LoopInfo_init attrib N c in
  let after (k : nat) := info_loops k (fst start) (snd start) in
  let n := Z.to_nat N in
  (progress_lines (snd (after n)) = S (progress_lines c) /\
   loop_cnt (fst (after n)) = 0) /\
  (2 <= N -> progress_lines (snd (after (S n))) = S (progress_lines c)) /\
  progress_lines (snd (after (n + n)%nat)) = S (S (progress_lines c)) /\
  (forall self c', let '(self', _, count) := info_loop self c' in
                   rec_cnt self' = rec_cnt self + 1 /\ count = rec_cnt self') /\
  (forall k, snd (end_loop (fst (after k)) (snd (after k))) = Z.of_nat k).
Proof.
  intros HN start after n.
  assert (Hstart : rec_cnt (fst start) = 0 /\ loop_cnt (fst start) = 0 /\
                   triggercnt (fst start) = N /\
                   progress_lines (snd start) = progress_lines c).
  { subst start. unfold LoopInfo_init. cbn -[print_at progress_lines].
    repeat split. rewrite progress_lines_print. cbn. lia. }
  destruct Hstart as (Hr0 & Hl0 & Ht0 & Hp0).
  assert (Hafter : forall k,
             rec_cnt (fst (after k)) = Z.of_nat k /\
             loop_cnt (fst (after k)) = Z.of_nat k mod N /\
             Z.of_nat (progress_lines (snd (after k)))
             = Z.of_nat (progress_lines c) + Z.of_nat k / N).
  { intros k. subst after. cbn beta.
    pose proof (info_loops_counts k (fst start) (snd start)) as H.
    destruct (info_loops k (fst start) (snd start)) as [self' c'].
    rewrite Ht0, Hr0, Hl0, Hp0, !Z.add_0_l in H.
    destruct H as (H1 & _ & H2 & H3); [lia | lia |]. cbn. auto. }
  assert (Hn : Z.of_nat n = N) by (subst n; lia).
  split; [|split; [|split; [|split]]].
  - destruct (Hafter n) as (_ & Hl & Hp). rewrite Hn in Hl, Hp.
    rewrite Z.mod_same in Hl by lia. rewrite Z.div_same in Hp by lia.
    split; [lia | exact Hl].
  - intros H2. destruct (Hafter (S n)) as (_ & _ & Hp).
    replace (Z.of_nat (S n)) with (1 + 1 * N) in Hp by lia.
    rewrite Z.div_add, Z.div_small in Hp by lia. lia.
  - destruct (Hafter (n + n)%nat) as (_ & _ & Hp).
    replace (Z.of_nat (n + n)) with (0 + 2 * N) in Hp by lia.
    rewrite Z.div_add, Z.div_small in Hp by lia. lia.
  - intros self c'. pose proof (info_loop_step self c') as H.
    destruct (info_loop self c') as [[self' c''] count].
    destruct H as (H1 & H2 & _). split; assumption.
  - intros k. destruct (Hafter k) as (Hr & _ & _). exact Hr.
Qed.

End LoopFacts.


Lemma loop_info_progress_witness :
  1 <= 3 /\
  progress_lines
    (snd (info_loops Posix.clock 3
            (fst (LoopInfo_init Posix.clock "rows" 3 Posix.empty_console))
            (snd (LoopInfo_init Posix.clock "rows" 3 Posix.empty_console)))) = 1%nat.
Proof.
  split; [lia|].
  exact (proj1 (proj1 (loop_info_progress Posix.clock "rows" 3 Posix.empty_console
                         ltac:(lia)))).
Defined.

(** With trigger count 1 every call prints: after [N + 1 = 2] calls two
    progress lines have been printed. *)
Lemma loop_info_trigger_one :
  let start := LoopInfo_init Posix.clock "rows" 1 Posix.empty_console in
  let after2 := info_loops Posix.clock 2 (fst start) (snd start) in
  progress_lines (snd after2) = 2%nat /\
  map render (stdout (snd after2))
  = ["12:00:00 - Start working on rows";
     "12:00:01 - 1 rows handled";
     "12:00:02 - 2 rows handled"].
Proof. split; reflexivity. Qed.

(** ** Configuration file and logging *)

Section EnvFacts.

Variable this_file : string.
Variable hostname : string.
Variable read_file : string -> result ini.
Variable dotenv_values : gmap string string -> string -> list (string * string).

Notation load_dotenv := (load_dotenv dotenv_values).
Notation configfile_of := (configfile_of this_file).
Notation get_inifile := (get_inifile this_file read_file dotenv_values).
Notation init_loghandler := (init_loghandler hostname).
Notation init_env := (init_env this_file hostname read_file dotenv_values).
Notation logfile_of := (logfile_of hostname).

Lemma load_dotenv_returns (p : string) (w : world) :
  exists w' b, load_dotenv p w = (w', Returns b) /\
               files w' = files w /\ records w' = records w /\
               root_handlers w' = root_handlers w.
Proof.
  unfold load_dotenv. destruct (files w !! p) as [[c|]|]; eauto 10.
Qed.

Lemma get_inifile_absent (projectname : string) (w : world) :
  files w !! configfile_of projectname = None ->
  read_error (files w) (configfile_of projectname) = FileNotFoundError ->
  exists w', get_inifile projectname w = (w', Returns EmptyDict) /\
             files w' = files w /\ records w' = records w.
Proof.
  unfold configfile_of, get_inifile.
  destruct (os_path_split this_file) as [filepath_lib t1].
  destruct (os_path_split filepath_lib) as [filepath t2].
  intros Hnone Herr.
  unfold bind at 1. unfold try_except, bind at 1, open_r. rewrite Hnone, Herr.
  cbn -[load_dotenv os_path_join].
  unfold bind.
  destruct (load_dotenv_returns (os_path_join filepath ".env") w)
    as (w' & b & -> & Hf & Hr & _).
  exists w'. auto.
Qed.

Lemma init_env_unfold (projectname filename : string) (w : world) :
  init_env projectname filename w =
    match get_inifile projectname w with
    | (w1, Returns config) =>
        match init_loghandler (get_modulename filename) w1 with
        | (w2, Returns _) =>
            (set_records (records w2 ++ [(logging_INFO, "Start Application")]) w2,
             Returns config)
        | (w2, Raises e) => (w2, Raises e)
        end
    | (w1, Raises e) => (w1, Raises e)
    end.
Proof.
  unfold init_env. unfold bind at 1.
  destruct (get_inifile projectname w) as [w1 [config|e]]; [|reflexivity].
  unfold bind at 1.
  destruct (init_loghandler (get_modulename filename) w1) as [w2 [[]|e]]; reflexivity.
Qed.


Lemma init_loghandler_unset_level (modulename : string) (w : world) :
  environ w !! "LOGLEVEL" = None ->
  init_loghandler modulename w = (w, Raises AttributeError).
Proof.
  intros H. unfold init_loghandler, bind, os_getenv. rewrite H. reflexivity.
Qed.

Lemma init_loghandler_unset_dir (modulename lv : string) (w : world) :
  environ w !! "LOGLEVEL" = Some lv ->
  environ w !! "LOGDIR" = None ->
  init_loghandler modulename w = (w, Raises TypeError).
Proof.
  intros H1 H2. unfold init_loghandler, bind, os_getenv. rewrite H1, H2. reflexivity.
Qed.

Lemma init_loghandler_set (modulename d lv : string) (w : world) :
  environ w !! "LOGDIR" = Some d ->
  environ w !! "LOGLEVEL" = Some lv ->
  init_loghandler modulename w =
    match nameToLevel (upper lv) with
    | None => (w, Raises ValueError)
    | Some n =>
        let w1 := set_root_level n w in
        match open_a (logfile_of d modulename) w1 with
        | (w2, Raises e) => (w2, Raises e)
        | (w2, Returns _) =>
            (set_named_levels
               (<["websockets.protocol" := logging_WARNING]>
                  (<["websockets.client" := logging_WARNING]>
                     (<["asyncio" := logging_WARNING]> (named_levels w))))
               (set_root_handlers
                  (root_handlers w ++ [rotating_handler (logfile_of d modulename)]) w2),
             Returns tt)
        end
    end.
Proof.
  intros H1 H2. unfold init_loghandler, bind, os_getenv. rewrite H1, H2. cbn -[nameToLevel open_a].
  unfold logging_getLevelName.
  destruct (nameToLevel (upper lv)) as [n|] eqn:Hn; cbn -[nameToLevel open_a].
  - unfold RotatingFileHandler, bind. fold (logfile_of d modulename).
    unfold open_a. cbn.
    destruct (files w !! logfile_of d modulename) as [[c|]|]; cbn; try reflexivity.
    destruct (parent_exists (files w) (logfile_of d modulename)); reflexivity.
  - assert (Hl : nameToLevel ("Level " +:+ upper lv) = None) by reflexivity.
    rewrite Hl. reflexivity.
Qed.


Lemma open_a_returns (p : string) (w w' : world) :
  open_a p w = (w', Returns tt) -> isfile (files w') p = true.
Proof.
  unfold open_a, isfile. destruct (files w !! p) as [[c|]|] eqn:Hp.
  - intros H; inversion H; subst. rewrite Hp. reflexivity.
  - discriminate.
  - destruct (parent_exists (files w) p); [|discriminate].
    intros H; inversion H; subst. cbn. rewrite lookup_insert_eq. reflexivity.
Qed.

Lemma open_a_succeeds (p : string) (w : world) :
  files w !! p <> Some Dir -> parent_exists (files w) p = true ->
  exists w', open_a p w = (w', Returns tt).
Proof.
  unfold open_a. intros Hd Hp. destruct (files w !! p) as [[c|]|]; [eauto | congruence |].
  rewrite Hp. eauto.
Qed.


End EnvFacts.





(** * Further properties of the module *)

(** ** The module name *)

Lemma contains_app (p : ascii -> bool) (a b : string) :
  contains p (a +:+ b) = contains p a || contains p b.
Proof.
  induction a as [|c a IH]; str_simpl; [reflexivity|].
  cbn [contains]. rewrite IH, orb_assoc. reflexivity.
Qed.

Lemma os_path_split_tail (p : string) :
  snd (os_path_split p) = snd (cut_last_sep p).
Proof.
  unfold os_path_split. destruct (cut_last_sep p) as [h t].
  destruct (negb (is_empty h) && negb (all_sep h)); reflexivity.
Qed.

Lemma get_modulename_tail (s : string) :
  get_modulename s = fst (os_path_splitext (snd (cut_last_sep s))).
Proof.
  unfold get_modulename. rewrite <- os_path_split_tail.
  destruct (os_path_split s) as [a b]. cbn [snd].
  destruct (os_path_splitext b); reflexivity.
Qed.

Lemma contains_substring (p : ascii -> bool) (s : string) (n m : nat) :
  contains p s = false -> contains p (substring n m s) = false.
Proof.
  revert n m. induction s as [|c r IH]; intros n m H.
  - destruct n, m; reflexivity.
  - cbn [contains] in H. apply orb_false_iff in H as [Hc Hr].
    destruct n as [|n]; [destruct m as [|m]; [reflexivity|] |].
    + cbn [substring contains]. rewrite Hc. exact (IH 0%nat m Hr).
    + cbn [substring]. exact (IH n m Hr).
Qed.

Lemma os_path_splitext_root_no_sep (name : string) :
  has_sep name = false -> has_sep (fst (os_path_splitext name)) = false.
Proof.
  intros H. unfold os_path_splitext.
  destruct (rfind sep name <? rfind "." name); [|exact H].
  destruct (only_dots _); [exact H|]. cbn [fst]. unfold slice.
  apply contains_substring. exact H.
Qed.

(** X1: whatever the script name is, the module name holds no separator:
    it is a single path component, or empty. *)
Theorem get_modulename_no_sep (scriptname : string) :
  has_sep (get_modulename scriptname) = false.
Proof.
  rewrite get_modulename_tail. apply os_path_splitext_root_no_sep.
  pose proof (cut_last_sep_spec scriptname) as H.
  destruct (cut_last_sep scriptname) as [h t]. exact (proj1 (proj2 H)).
Qed.

Lemma rfind_absent (c : ascii) (s : string) :
  contains (fun a => Ascii.eqb a c) s = false -> rfind c s = -1.
Proof.
  induction s as [|a r IH]; [reflexivity|].
  cbn [contains rfind]. intros H. apply orb_false_iff in H as [Ha Hr].
  rewrite (IH Hr), Ha. reflexivity.
Qed.

Lemma rfind_last (c : ascii) (stem ext : string) :
  contains (fun a => Ascii.eqb a c) ext = false ->
  rfind c (stem +:+ String c ext) = Z.of_nat (String.length stem).
Proof.
  intros He. induction stem as [|a r IH]; str_simpl.
  - cbn [rfind]. rewrite (rfind_absent c ext He), Ascii.eqb_refl. reflexivity.
  - cbn [rfind String.length]. rewrite IH.
    destruct (0 <=? Z.of_nat (String.length r)) eqn:H; lia.
Qed.

Lemma substring_prefix (a b : string) :
  substring 0 (String.length a) (a +:+ b) = a.
Proof.
  induction a as [|c a IH]; str_simpl.
  - destruct b; reflexivity.
  - cbn [String.length substring]. rewrite IH. reflexivity.
Qed.

Lemma substring_suffix (a b : string) :
  substring (String.length a) (String.length b) (a +:+ b) = b.
Proof.
  induction a as [|c a IH]; str_simpl.
  - cbn [String.length]. induction b as [|x b IHb]; [reflexivity|].
    cbn [String.length substring]. rewrite IHb. reflexivity.
  - cbn [String.length substring]. exact IH.
Qed.

Lemma slice_prefix (a b : string) :
  slice (a +:+ b) 0 (Z.of_nat (String.length a)) = a.
Proof.
  unfold slice. rewrite Z.sub_0_r, Nat2Z.id. apply substring_prefix.
Qed.

Lemma slice_suffix (a b : string) :
  slice (a +:+ b) (Z.of_nat (String.length a)) (Z.of_nat (String.length (a +:+ b))) = b.
Proof.
  unfold slice. rewrite length_append, Nat2Z.id.
  replace (Z.to_nat (Z.of_nat (String.length a + String.length b)
                     - Z.of_nat (String.length a)))
    with (String.length b) by lia.
  apply substring_suffix.
Qed.

Lemma os_path_splitext_ext (stem ext : string) :
  has_sep stem = false -> has_sep ext = false -> has_dot ext = false ->
  only_dots stem = false ->
  os_path_splitext (stem +:+ String "." ext) = (stem, String "." ext).
Proof.
  intros Hs He Hd Ho. unfold os_path_splitext.
  assert (Hsep : rfind sep (stem +:+ String "." ext) = -1).
  { apply rfind_absent. fold (has_sep (stem +:+ String "." ext)).
    unfold has_sep in *. rewrite contains_app. cbn [contains]. rewrite Hs, He. reflexivity. }
  rewrite Hsep, (rfind_last "." stem ext Hd).
  destruct (Z.ltb_spec (-1) (Z.of_nat (String.length stem))) as [_|H]; [|lia].
  change (-1 + 1) with 0.
  rewrite slice_prefix, slice_suffix, Ho. reflexivity.
Qed.

(** X2: for a script [dir/stem.ext], where [ext] has no further dot and
    [stem] is not made of dots only, the module name is [stem]: the
    directory and the last extension are dropped, and only the last one, so
    [stem] may itself hold dots.  The same holds without a directory. *)
Theorem get_modulename_script (dir stem ext : string) :
  has_sep stem = false -> only_dots stem = false ->
  has_sep ext = false -> has_dot ext = false ->
  get_modulename (dir +:+ String sep (stem +:+ String "." ext)) = stem /\
  get_modulename (stem +:+ String "." ext) = stem.
Proof.
  intros Hs Ho He Hd.
  assert (Hn : has_sep (stem +:+ String "." ext) = false).
  { unfold has_sep in *. rewrite contains_app. cbn [contains]. rewrite Hs, He. reflexivity. }
  rewrite !get_modulename_tail, (cut_last_sep_join _ _ Hn), (cut_last_sep_no_sep _ Hn).
  cbn [snd]. rewrite (os_path_splitext_ext stem ext Hs He Hd Ho). auto.
Qed.

Lemma only_dots_substring (s : string) (n : nat) :
  only_dots s = true -> only_dots (substring 0 n s) = true.
Proof.
  revert n. induction s as [|c r IH]; intros n H.
  - destruct n; reflexivity.
  - cbn [only_dots] in H. apply andb_true_iff in H as [Hc Hr].
    destruct n as [|n]; [reflexivity|].
    cbn [substring only_dots]. rewrite Hc. exact (IH n Hr).
Qed.

Lemma substring_app_short (a b : string) (n : nat) :
  (n <= String.length a)%nat -> substring 0 n (a +:+ b) = substring 0 n a.
Proof.
  revert n. induction a as [|c a IH]; intros n Hn; str_simpl.
  - cbn in Hn. assert (n = 0%nat) by lia. subst n. destruct b; reflexivity.
  - destruct n as [|n]; [reflexivity|]. cbn [substring]. cbn in Hn.
    rewrite IH by lia. reflexivity.
Qed.

Lemma rfind_bound (c : ascii) (s : string) :
  -1 <= rfind c s < Z.of_nat (String.length s).
Proof.
  induction s as [|a r IH]; [cbn; lia|].
  cbn [rfind String.length].
  destruct (0 <=? rfind c r) eqn:H; [lia|].
  destruct (Ascii.eqb a c); lia.
Qed.

Lemma rfind_app_absent (c : ascii) (a b : string) :
  contains (fun x => Ascii.eqb x c) b = false ->
  rfind c (a +:+ b) = rfind c a.
Proof.
  intros Hb. induction a as [|x a IH]; str_simpl.
  - rewrite (rfind_absent c b Hb). reflexivity.
  - cbn [rfind]. rewrite IH. reflexivity.
Qed.

Lemma os_path_splitext_no_ext (dots rest : string) :
  only_dots dots = true -> has_dot rest = false ->
  has_sep (dots +:+ rest) = false ->
  os_path_splitext (dots +:+ rest) = (dots +:+ rest, "").
Proof.
  intros Hd Hr Hs. unfold os_path_splitext.
  rewrite (rfind_absent sep _ Hs), (rfind_app_absent "." dots rest Hr).
  destruct (Z.ltb_spec (-1) (rfind "." dots)) as [H|H]; [|reflexivity].
  change (-1 + 1) with 0. unfold slice. rewrite Z.sub_0_r. cbn [Z.to_nat].
  pose proof (rfind_bound "." dots) as Hb.
  rewrite substring_app_short by lia.
  rewrite (only_dots_substring dots _ Hd). reflexivity.
Qed.

(** X3: a file name that has no dot after its leading dots has no
    extension: a hidden file as [.bashrc], or a name without any dot, is
    its own module name. *)
Theorem get_modulename_no_extension (dir dots rest : string) :
  only_dots dots = true -> has_dot rest = false ->
  has_sep (dots +:+ rest) = false ->
  get_modulename (dir +:+ String sep (dots +:+ rest)) = dots +:+ rest.
Proof.
  intros Hd Hr Hs.
  rewrite get_modulename_tail, (cut_last_sep_join _ _ Hs). cbn [snd].
  rewrite (os_path_splitext_no_ext dots rest Hd Hr Hs). reflexivity.
Qed.

(** X4: a script name that ends in a separator has the empty module
    name. *)
Theorem get_modulename_trailing_sep (dir : string) :
  get_modulename (dir +:+ String sep "") = "".
Proof.
  rewrite get_modulename_tail, (cut_last_sep_join dir "" eq_refl). reflexivity.
Qed.

(** ** Serialization *)

Lemma ascii_compare_trans (a b c : ascii) :
  Ascii.compare a b <> Gt -> Ascii.compare b c <> Gt -> Ascii.compare a c <> Gt.
Proof.
  unfold Ascii.compare. rewrite !N.compare_le_iff. lia.
Qed.

Lemma ascii_compare_Eq (a b : ascii) : Ascii.compare a b = Eq -> a = b.
Proof.
  unfold Ascii.compare. intros H. apply N.compare_eq in H.
  rewrite <- (ascii_N_embedding a), <- (ascii_N_embedding b), H. reflexivity.
Qed.

Lemma string_compare_trans (s1 : string) : forall s2 s3,
  String.compare s1 s2 <> Gt -> String.compare s2 s3 <> Gt ->
  String.compare s1 s3 <> Gt.
Proof.
  induction s1 as [|a r1 IH]; intros [|b r2] [|c r3]; cbn; try congruence.
  intros H1 H2.
  destruct (Ascii.compare a b) eqn:Hab; [| |congruence].
  - apply ascii_compare_Eq in Hab. subst b.
    destruct (Ascii.compare a c); [apply (IH r2); assumption | congruence | congruence].
  - destruct (Ascii.compare b c) eqn:Hbc; [| |congruence].
    + apply ascii_compare_Eq in Hbc. subst c. rewrite Hab. congruence.
    + assert (Hac : Ascii.compare a c = Lt).
      { unfold Ascii.compare in *. rewrite N.compare_lt_iff in *. lia. }
      rewrite Hac. congruence.
Qed.

Lemma string_leb_trans (s1 s2 s3 : string) :
  String.leb s1 s2 = true -> String.leb s2 s3 = true -> String.leb s1 s3 = true.
Proof.
  unfold String.leb. intros H1 H2.
  pose proof (string_compare_trans s1 s2 s3) as H.
  destruct (String.compare s1 s2); try discriminate;
    destruct (String.compare s2 s3); try discriminate;
    destruct (String.compare s1 s3); try reflexivity;
    exfalso; apply H; first [discriminate | reflexivity].
Qed.

Lemma sorted_key_le_head (a : string * pyval) (l : list (string * pyval)) :
  Sorted key_le (a :: l) -> forall b, In b l -> key_le a b.
Proof.
  intros Hs. apply Sorted_StronglySorted in Hs.
  - inversion Hs as [|x y _ Hall]; subst. intros b Hb.
    exact (proj1 (List.Forall_forall _ _) Hall b Hb).
  - intros x y z. unfold key_le. apply string_leb_trans.
Qed.

Lemma sorted_perm_unique (l1 : list (string * pyval)) : forall l2,
  Sorted key_le l1 -> Sorted key_le l2 -> Permutation l1 l2 ->
  List.NoDup (map fst l1) -> l1 = l2.
Proof.
  induction l1 as [|a1 l1 IH]; intros l2 S1 S2 Hperm Hnd.
  - apply Permutation_nil in Hperm. congruence.
  - destruct l2 as [|a2 l2]; [apply Permutation_sym, Permutation_nil in Hperm; discriminate|].
    assert (Heq : a1 = a2).
    { assert (H1 : In a1 (a2 :: l2)) by (apply (Permutation_in _ Hperm); left; reflexivity).
      assert (H2 : In a2 (a1 :: l1))
        by (apply (Permutation_in _ (Permutation_sym Hperm)); left; reflexivity).
      destruct H1 as [H1|H1]; [congruence|].
      destruct H2 as [H2|H2]; [congruence|].
      pose proof (sorted_key_le_head _ _ S1 a2 H2) as L1.
      pose proof (sorted_key_le_head _ _ S2 a1 H1) as L2.
      pose proof (String.leb_antisym _ _ L1 L2) as Hk.
      exfalso. inversion Hnd as [|k ks Hnotin _]; subst. apply Hnotin.
      rewrite Hk. apply in_map. exact H2. }
    subst a2. f_equal. apply IH.
    + inversion S1; assumption.
    + inversion S2; assumption.
    + exact (Permutation_cons_inv Hperm).
    + inversion Hnd; assumption.
Qed.

Lemma sorted_items_canonical (d d' : list (string * pyval)) :
  Permutation d d' -> List.NoDup (map fst d) -> sorted_items d = sorted_items d'.
Proof.
  intros Hperm Hnd. apply sorted_perm_unique; try apply sorted_items_sorted.
  - rewrite <- (sorted_items_perm d), <- (sorted_items_perm d'). exact Hperm.
  - apply (Permutation_NoDup (Permutation_map fst (sorted_items_perm d))). exact Hnd.
Qed.

Lemma sort_items_canonical (a : pyval) : forall b,
  distinct_keys a = true -> eq_mod_order a b -> sort_items a = sort_items b.
Proof.
  induction a as [|x|n|r|s|l IH|d IH|name] using pyval_induction;
    intros b Hd Heq; inversion Heq; subst; try reflexivity.
  - cbn [sort_items]. f_equal. cbn [distinct_keys] in Hd.
    match goal with H : Forall2 eq_mod_order l _ |- _ => rename H into H2 end.
    induction H2 as [|x y l l' Hxy Hl IHl]; [reflexivity|].
    cbn [forallb] in Hd. apply andb_true_iff in Hd as [Hx Hrest].
    inversion IH as [|? ? IHx IHrest]; subst. cbn [map]. f_equal.
    + apply IHx; assumption.
    + apply IHl; [assumption | assumption | constructor; assumption].
  - cbn [sort_items]. f_equal. cbn [distinct_keys] in Hd.
    apply andb_true_iff in Hd as [Hkeys Hvals].
    match goal with H : Forall2 _ d ?x, P : Permutation ?x _ |- _ =>
      rename H into H2; rename P into Hperm; rename x into d1 end.
    set (f := fun kv : string * pyval => (fst kv, sort_items (snd kv))).
    assert (Hmap : map f d = map f d1).
    { clear Hperm Hkeys Heq. induction H2 as [|x y l l' [Hk Hv] Hl IHl]; [reflexivity|].
      cbn [forallb] in Hvals. apply andb_true_iff in Hvals as [Hx Hrest].
      inversion IH as [|? ? IHx IHrest]; subst. cbn [map]. f_equal.
      - unfold f. rewrite Hk. f_equal. apply IHx; assumption.
      - apply IHl; assumption. }
    rewrite Hmap. apply sorted_items_canonical.
    + apply Permutation_map. exact Hperm.
    + rewrite <- Hmap. unfold f. rewrite map_map. cbn [fst].
      apply no_dup_keys_NoDup. exact Hkeys.
Qed.

Lemma mapM_cases {A B} (f : A -> result B) (good : A -> Prop)
    (bad : exn -> A -> Prop) (l : list A) :
  Forall (fun x => match f x with Returns _ => good x | Raises e => bad e x end) l ->
  match mapM f l with
  | Returns _ => Forall good l
  | Raises e => Exists (bad e) l
  end.
Proof.
  induction 1 as [|x l Hx Hl IH]; [constructor|].
  cbn [mapM]. destruct (f x) as [y|e]; [|constructor; exact Hx].
  change (match (match mapM f l with
                 | Raises e => Raises e
                 | Returns bs => Returns (y :: bs)
                 end) with
          | Returns _ => Forall good (x :: l)
          | Raises e => Exists (bad e) (x :: l)
          end).
  destruct (mapM f l) as [ys|e];
    [constructor; assumption | apply Exists_cons_tl; exact IH].
Qed.

Lemma existsb_both_false {A} (f g : A -> bool) (l : list A) :
  Forall (fun x => f x = false /\ g x = false) l ->
  existsb f l = false /\ existsb g l = false.
Proof.
  induction 1 as [|x l [Hf Hg] _ [IHf IHg]]; [split; reflexivity|].
  cbn [existsb]. rewrite Hf, Hg, IHf, IHg. split; reflexivity.
Qed.

Lemma existsb_either_true {A} (P Q : Prop) (f g : A -> bool) (l : list A) :
  Exists (fun x => (P /\ f x = true) \/ (Q /\ g x = true)) l ->
  (P /\ existsb f l = true) \/ (Q /\ existsb g l = true).
Proof.
  induction 1 as [x l [[HP Hf]|[HQ Hg]] | x l _ [[HP Hf]|[HQ Hg]]];
    cbn [existsb].
  - left. rewrite Hf. auto.
  - right. rewrite Hg. auto.
  - left. rewrite Hf, orb_true_r. auto.
  - right. rewrite Hg, orb_true_r. auto.
Qed.

(** What [_iterencode] does by what the structure holds: it returns on a
    structure without an object and without an integer that is too long,
    and raises [TypeError] on the first and [ValueError] on the second. *)
Lemma iterencode_cases (ind : string) (v : pyval) : forall lvl,
  match iterencode ind lvl v with
  | Returns _ => has_object v = false /\ has_long_int v = false
  | Raises e => (e = TypeError /\ has_object v = true) \/
                (e = ValueError /\ has_long_int v = true)
  end.
Proof.
  induction v as [|b|n|r|s|l IH|d IH|name] using pyval_induction; intros lvl;
    try (cbn; auto; fail).
  - destruct b; cbn; auto.
  - cbn [iterencode has_object has_long_int]. destruct (int_too_long n); auto.
  - destruct l as [|x l]; [cbn; auto|].
    set (l0 := x :: l) in *.
    pose proof (mapM_cases (iterencode ind (S lvl))
                  (fun v => has_object v = false /\ has_long_int v = false)
                  (fun e v => (e = TypeError /\ has_object v = true) \/
                              (e = ValueError /\ has_long_int v = true)) l0) as Hm.
    cbn beta in Hm.
    assert (Hall : Forall (fun v =>
               match iterencode ind (S lvl) v with
               | Returns _ => has_object v = false /\ has_long_int v = false
               | Raises e => (e = TypeError /\ has_object v = true) \/
                             (e = ValueError /\ has_long_int v = true)
               end) l0).
    { eapply List.Forall_impl; [|exact IH]. intros v H. exact (H (S lvl)). }
    specialize (Hm Hall). clear Hall IH. revert Hm. subst l0.
    cbn [iterencode has_object has_long_int].
    destruct (mapM (iterencode ind (S lvl)) (x :: l)) as [ys|e]; intros Hm.
    + exact (existsb_both_false _ _ _ Hm).
    + exact (existsb_either_true _ _ _ _ _ Hm).
  - destruct d as [|x d]; [cbn; auto|].
    set (d0 := x :: d) in *.
    set (f := fun kv : string * pyval =>
                match iterencode ind (S lvl) (snd kv) with
                | Raises e => Raises e
                | Returns chunk => Returns (encode_basestring (fst kv) +:+ ": " +:+ chunk)
                end).
    pose proof (mapM_cases f
                  (fun kv => has_object (snd kv) = false /\
                             has_long_int (snd kv) = false)
                  (fun e kv => (e = TypeError /\ has_object (snd kv) = true) \/
                               (e = ValueError /\ has_long_int (snd kv) = true))
                  d0) as Hm.
    cbn beta in Hm.
    assert (Hall : Forall (fun kv =>
               match f kv with
               | Returns _ => has_object (snd kv) = false /\
                              has_long_int (snd kv) = false
               | Raises e => (e = TypeError /\ has_object (snd kv) = true) \/
                             (e = ValueError /\ has_long_int (snd kv) = true)
               end) d0).
    { eapply List.Forall_impl; [|exact IH]. intros kv H. specialize (H (S lvl)).
      unfold f. destruct (iterencode ind (S lvl) (snd kv)); exact H. }
    specialize (Hm Hall). clear Hall IH. revert Hm. subst d0 f.
    cbn [iterencode has_object has_long_int].
    match goal with
    | |- context [mapM ?g (x :: d)] => destruct (mapM g (x :: d)) as [ys|e]
    end; intros Hm.
    + exact (existsb_both_false _ _ _ Hm).
    + exact (existsb_either_true _ _ _ _ _ Hm).
Qed.

Lemma existsb_perm {A} (f : A -> bool) (l l' : list A) :
  Permutation l l' -> existsb f l = existsb f l'.
Proof.
  intros H. destruct (existsb f l) eqn:E; symmetry.
  - apply existsb_exists in E. destruct E as (x & Hx & Hf).
    apply existsb_exists. exists x. split; [exact (Permutation_in _ H Hx) | exact Hf].
  - destruct (existsb f l') eqn:E'; [|reflexivity].
    apply existsb_exists in E'. destruct E' as (x & Hx & Hf).
    assert (existsb f l = true)
      by (apply existsb_exists; exists x; split;
          [exact (Permutation_in _ (Permutation_sym H) Hx) | exact Hf]).
    congruence.
Qed.

Lemma has_object_sort_items (v : pyval) : has_object (sort_items v) = has_object v.
Proof.
  induction v as [|b|n|r|s|l IH|d IH|name] using pyval_induction; try reflexivity.
  - cbn [sort_items has_object]. induction IH as [|x l Hx _ IHl]; [reflexivity|].
    cbn [map existsb]. rewrite Hx, IHl. reflexivity.
  - cbn [sort_items has_object].
    rewrite <- (existsb_perm _ _ _ (sorted_items_perm _)).
    induction IH as [|x l Hx _ IHl]; [reflexivity|].
    cbn [map existsb snd]. rewrite Hx, IHl. reflexivity.
Qed.

Lemma has_long_int_sort_items (v : pyval) :
  has_long_int (sort_items v) = has_long_int v.
Proof.
  induction v as [|b|n|r|s|l IH|d IH|name] using pyval_induction; try reflexivity.
  - cbn [sort_items has_long_int]. induction IH as [|x l Hx _ IHl]; [reflexivity|].
    cbn [map existsb]. rewrite Hx, IHl. reflexivity.
  - cbn [sort_items has_long_int].
    rewrite <- (existsb_perm _ _ _ (sorted_items_perm _)).
    induction IH as [|x l Hx _ IHl]; [reflexivity|].
    cbn [map existsb snd]. rewrite Hx, IHl. reflexivity.
Qed.

Lemma json_dumps_cases (v : pyval) (indent : nat) (sort_keys : bool) :
  match json_dumps v indent sort_keys with
  | Returns _ => has_object v = false /\ has_long_int v = false
  | Raises e => (e = TypeError /\ has_object v = true) \/
                (e = ValueError /\ has_long_int v = true)
  end.
Proof.
  unfold json_dumps.
  pose proof (iterencode_cases (str_mul " " indent)
                (if sort_keys then sort_items v else v) 0) as H.
  destruct sort_keys;
    [rewrite has_object_sort_items, has_long_int_sort_items in H|]; exact H.
Qed.

(** ** Paths and the structure dumper, on any input *)

Lemma logged_frame (lvl : Z) (msg : string) (w : world) :
  environ (logged lvl msg w) = environ w /\
  root_level (logged lvl msg w) = root_level w /\
  named_levels (logged lvl msg w) = named_levels w.
Proof.
  unfold logged, logging_log, logging_basicConfig.
  destruct (root_handlers w); auto.
Qed.

Lemma logged_configured (lvl : Z) (msg : string) (w : world) :
  root_handlers w <> [] -> root_handlers (logged lvl msg w) = root_handlers w.
Proof.
  unfold logged, logging_log, logging_basicConfig. intros H.
  destruct (root_handlers w) eqn:E; [congruence|]. cbn. exact E.
Qed.

Section PathsMore.

Variable validate_filename validate_filepath : string -> validation.
Variable sanitize_filename : string -> string.

Notation get_valid_path := (get_valid_path validate_filename sanitize_filename).
Notation dump_structure :=
  (dump_structure validate_filename validate_filepath sanitize_filename).
Notation final_name := (final_name validate_filename sanitize_filename).


(** X6: whenever [get_valid_path] returns, it returns the parent joined with
    the name [dump_structure] would write to (the name itself when valid,
    the sanitized name otherwise); it has made no logging call for a valid
    name, one [logging.info] call for a name whose marker file was there,
    and two when it wrote the marker; no path but the marker's has changed,
    and the environment and the logger levels are as before. *)
Theorem get_valid_path_returns (parent fn p : string) (w w' : world) :
  get_valid_path parent fn w = (w', Returns p) ->
  let san := sanitize_filename fn in
  let marker := os_path_join parent (marker_name san) in
  p = os_path_join parent (final_name fn) /\
  records w'
  = records w ++
      match validate_filename fn with
      | Valid => []
      | Invalid _ =>
          (logging_INFO, "Need to sanitize stream " +:+ fn +:+ " to " +:+ san)
          :: (if isfile (files w) marker then []
              else [(logging_INFO, changed_msg fn san)])
      end /\
  (forall q, q <> marker -> files w' !! q = files w !! q) /\
  environ w' = environ w /\ root_level w' = root_level w /\
  named_levels w' = named_levels w.
Proof.
  intros Hrun san marker. unfold final_name.
  destruct (validate_filename fn) as [|reason] eqn:Hv.
  - unfold get_valid_path, try_except, bind, run_validation in Hrun.
    rewrite Hv in Hrun. cbn in Hrun. injection Hrun as <- <-.
    rewrite List.app_nil_r. auto 10.
  - pose proof (get_valid_path_invalid validate_filename sanitize_filename
                  parent fn reason w Hv) as H.
    cbn zeta in H. fold san in H. fold marker in H. rewrite Hrun in H.
    unfold isfile.
    destruct (files w !! marker) as [[c|]|] eqn:Hm.
    + injection H as -> ->. split; [reflexivity|].
      rewrite records_logged, files_logged.
      split; [reflexivity|]. split; [reflexivity|]. apply logged_frame.
    + discriminate.
    + destruct (create_error (files w) marker); [discriminate|].
      injection H as -> ->. split; [reflexivity|].
      cbn [records files set_files environ root_level named_levels].
      rewrite !records_logged, <- List.app_assoc. split; [reflexivity|].
      split; [intros q Hq; apply lookup_insert_ne; congruence|].
      destruct (logged_frame logging_INFO (changed_msg fn san)
                  (logged logging_INFO
                     ("Need to sanitize stream " +:+ fn +:+ " to " +:+ san) w))
        as (-> & -> & ->).
      apply logged_frame.
Qed.

(** X7: when a name that fails validation is sanitized to the empty string
    (the empty name itself, or a name of invalid characters only), a call
    that returns gives back the parent directory with a separator at its
    end, and the marker is the file [_changed.txt] in the parent. *)
Theorem get_valid_path_empty_name (parent fn reason p : string) (w w' : world) :
  validate_filename fn = Invalid reason ->
  sanitize_filename fn = "" ->
  is_empty parent = false -> endswith_sep parent = false ->
  get_valid_path parent fn w = (w', Returns p) ->
  p = parent +:+ "/" /\
  files w' !! (parent +:+ "/_changed.txt") <> None.
Proof.
  intros Hv Hs Hp1 Hp2 Hrun.
  pose proof (get_valid_path_invalid validate_filename sanitize_filename
                parent fn reason w Hv) as H.
  cbn zeta in H. rewrite Hs, Hrun in H.
  assert (Hm : os_path_join parent (marker_name "") = parent +:+ "/_changed.txt").
  { unfold os_path_join, marker_name. cbn [startswith_sep append Ascii.eqb].
    rewrite Hp1, Hp2. reflexivity. }
  assert (Hj : os_path_join parent "" = parent +:+ "/").
  { unfold os_path_join. cbn [startswith_sep]. rewrite Hp1, Hp2. reflexivity. }
  rewrite Hm, Hj in H.
  destruct (files w !! (parent +:+ "/_changed.txt")) as [[c|]|] eqn:Hf.
  - injection H as -> ->. split; [reflexivity|]. rewrite files_logged, Hf. discriminate.
  - discriminate.
  - destruct (create_error (files w) (parent +:+ "/_changed.txt")); [discriminate|].
    injection H as -> ->. split; [reflexivity|].
    cbn [files set_files]. rewrite lookup_insert_eq. discriminate.
Qed.

(** X8: when a regular file stands at [path], [dump_structure] raises
    [FileExistsError] (from [os.mkdir]) to its caller and changes
    nothing. *)
Theorem dump_structure_path_is_file (struct : pyval) (path filename c : string)
    (sort_keys : bool) (w : world) :
  validate_filepath path = Valid ->
  files w !! path = Some (File c) ->
  dump_structure struct path filename sort_keys w = (w, Raises FileExistsError).
Proof.
  intros Hv Hf.
  rewrite (dump_structure_valid _ _ _ _ _ _ _ _ Hv).
  unfold isdir, os_mkdir. rewrite Hf. reflexivity.
Qed.

Lemma prepare_directory_cases (path : string) (w w1 : world) :
  (if isdir (files w) path then (w, Returns tt) else os_mkdir path w)
  = (w1, Returns tt) ->
  isdir (files w1) path = true /\
  (w1 = w \/ w1 = set_files (<[path := Dir]> (files w)) w).
Proof.
  destruct (isdir (files w) path) eqn:Hd.
  - intros H. injection H as <-. auto.
  - unfold os_mkdir. destruct (files w !! path); [discriminate|].
    destruct (parent_exists (files w) path); [|discriminate].
    intros H. injection H as <-. split; [|auto].
    unfold isdir. cbn. rewrite lookup_insert_eq. reflexivity.
Qed.

Lemma write_text_returns (dest s : string) (w w' : world) :
  write_text dest s w = (w', Returns tt) ->
  files w !! dest <> Some Dir /\
  forall s', write_text dest s' w
             = (set_files (<[dest := File s']> (files w)) w, Returns tt).
Proof.
  unfold write_text.
  destruct (files w !! dest) as [[c|]|]; try discriminate;
    try (destruct (create_error (files w) dest); [discriminate|]);
    intros H; split; try discriminate; reflexivity.
Qed.


Lemma dump_structure_refused (struct : pyval) (path filename : string)
    (sort_keys : bool) (reason : string) (w : world) :
  validate_filepath path = Invalid reason ->
  dump_structure struct path filename sort_keys w =
    (logged logging_CRITICAL ("Invalid path " +:+ path +:+ ": " +:+ reason) w,
     Returns tt).
Proof.
  intros Hv. unfold dump_structure, try_except, bind, run_validation.
  rewrite Hv. reflexivity.
Qed.

(** X10: whatever [dump_structure] is given and however it ends, no path
    other than [path] and the destination changes, no path that existed
    disappears, and the environment and the logger levels are as before;
    when [path] passes validation no logging call is made and the handlers
    of the root logger are untouched. *)
Theorem dump_structure_frame (struct : pyval) (path filename : string)
    (sort_keys : bool) (w w' : world) (r : result unit) :
  dump_structure struct path filename sort_keys w = (w', r) ->
  (forall p, p <> path -> p <> os_path_join path (final_name filename) ->
             files w' !! p = files w !! p) /\
  (forall p, files w !! p <> None -> files w' !! p <> None) /\
  environ w' = environ w /\ root_level w' = root_level w /\
  named_levels w' = named_levels w /\
  (validate_filepath path = Valid ->
   records w' = records w /\ root_handlers w' = root_handlers w).
Proof.
  intros Hrun.
  destruct (validate_filepath path) as [|reason] eqn:Hv.
  - rewrite (dump_structure_valid _ _ _ _ _ _ _ _ Hv) in Hrun.
    set (dest := os_path_join path (final_name filename)) in *.
    assert (Hdir : exists wd rd,
               (if isdir (files w) path then (w, Returns tt) else os_mkdir path w)
               = (wd, rd) /\
               (wd = w \/ (files w !! path = None /\
                           wd = set_files (<[path := Dir]> (files w)) w))).
    { destruct (isdir (files w) path); [eauto 6|].
      unfold os_mkdir. destruct (files w !! path); [eauto 6|].
      destruct (parent_exists (files w) path); eauto 8. }
    destruct Hdir as (wd & rd & Hdir & Hwd). rewrite Hdir in Hrun.
    assert (Hframe : (forall p, p <> path -> files wd !! p = files w !! p) /\
                     (forall p, files w !! p <> None -> files wd !! p <> None) /\
                     environ wd = environ w /\ root_level wd = root_level w /\
                     named_levels wd = named_levels w /\
                     records wd = records w /\ root_handlers wd = root_handlers w).
    { destruct Hwd as [->|[Hn ->]]; [auto 10|]. cbn.
      split; [intros p Hp; apply lookup_insert_ne; congruence|].
      split; [|auto 10].
      intros p Hp. destruct (decide (path = p)) as [<-|Hne]; [congruence|].
      rewrite lookup_insert_ne by exact Hne. exact Hp. }
    destruct Hframe as (F1 & F2 & F3 & F4 & F5 & F6 & F7).
    assert (Hend : w' = wd \/ exists s, w' = set_files (<[dest := File s]> (files wd)) wd).
    { destruct rd as [[]|e]; [|injection Hrun as <-; auto].
      destruct (json_dumps struct 2 sort_keys) as [s|e]; [|injection Hrun as <-; auto].
      unfold write_text in Hrun.
      destruct (files wd !! dest) as [[c|]|];
        try destruct (create_error (files wd) dest);
        injection Hrun as <-; eauto. }
    destruct Hend as [->|[s ->]]; [auto 10|]. cbn.
    split; [intros p Hp1 Hp2; rewrite lookup_insert_ne by congruence; auto|].
    split; [|auto 10].
    intros p Hp. destruct (decide (dest = p)) as [<-|Hne].
    + rewrite lookup_insert_eq. discriminate.
    + rewrite lookup_insert_ne by exact Hne. auto.
  - rewrite (dump_structure_refused _ _ _ _ _ _ Hv) in Hrun.
    injection Hrun as <- <-.
    rewrite files_logged.
    destruct (logged_frame logging_CRITICAL
                ("Invalid path " +:+ path +:+ ": " +:+ reason) w) as (-> & -> & ->).
    split; [auto|]. split; [auto|]. split; [auto|]. split; [auto|].
    split; [auto|]. discriminate.
Qed.

(** X11: with [sort_keys=True] the text written does not depend on the
    order of the items of mappings: two structures that are equal up to
    that order (the keys of each mapping being distinct) serialize to the
    same text, and [dump_structure] does the same on both. *)
Theorem dump_structure_sort_keys_canonical (a b : pyval) (path filename : string)
    (w : world) :
  distinct_keys a = true ->
  eq_mod_order a b ->
  json_dumps a 2 true = json_dumps b 2 true /\
  dump_structure a path filename true w = dump_structure b path filename true w.
Proof.
  intros Hd Heq.
  assert (Hj : json_dumps a 2 true = json_dumps b 2 true).
  { unfold json_dumps. rewrite (sort_items_canonical a b Hd Heq). reflexivity. }
  split; [exact Hj|].
  destruct (validate_filepath path) as [|reason] eqn:Hv.
  - rewrite !(dump_structure_valid _ _ _ _ _ _ _ _ Hv), Hj. reflexivity.
  - rewrite !(dump_structure_refused _ _ _ _ _ _ Hv). reflexivity.
Qed.


End PathsMore.

(** *** On concrete inputs *)

Lemma get_modulename_script_witness :
  has_sep "load.tar" = false /\ only_dots "load.tar" = false /\
  has_sep "py" = false /\ has_dot "py" = false /\
  get_modulename "/opt/qsapi/load.tar.py" = "load.tar".
Proof.
  repeat (split; [reflexivity|]).
  exact (proj1 (get_modulename_script "/opt/qsapi" "load.tar" "py"
                  eq_refl eq_refl eq_refl eq_refl)).
Defined.

Lemma get_modulename_no_extension_witness :
  only_dots "." = true /\ has_dot "bashrc" = false /\
  get_modulename "/home/user/.bashrc" = ".bashrc".
Proof.
  repeat (split; [reflexivity|]).
  exact (get_modulename_no_extension "/home/user" "." "bashrc" eq_refl eq_refl eq_refl).
Defined.


Lemma get_valid_path_returns_witness :
  exists w' p,
    get_valid_path Posix.validate_filename Posix.sanitize_filename
      "/tmp/out" "a/b" Posix.tmp_world = (w', Returns p) /\
    p = "/tmp/out/ab" /\
    records w'
    = [(logging_INFO, "Need to sanitize stream a/b to ab");
       (logging_INFO, "Name 'a/b' changed to 'ab'")].
Proof.
  destruct (get_valid_path Posix.validate_filename Posix.sanitize_filename
              "/tmp/out" "a/b" Posix.tmp_world) as [w' [p|e]] eqn:Hrun;
    [|vm_compute in Hrun; discriminate].
  exists w', p. split; [reflexivity|].
  destruct (get_valid_path_returns Posix.validate_filename Posix.sanitize_filename
              "/tmp/out" "a/b" p Posix.tmp_world w' Hrun) as (Hp & Hrec & _).
  split; [exact Hp | exact Hrec].
Defined.

Lemma get_valid_path_empty_name_witness :
  Posix.validate_filename "" = Invalid "the value must not be an empty string" /\
  Posix.sanitize_filename "" = "" /\
  exists w' p,
    get_valid_path Posix.validate_filename Posix.sanitize_filename
      "/tmp/out" "" Posix.tmp_world = (w', Returns p) /\
    p = "/tmp/out/" /\
    files w' !! "/tmp/out/_changed.txt" <> None.
Proof.
  repeat (split; [reflexivity|]).
  destruct (get_valid_path Posix.validate_filename Posix.sanitize_filename
              "/tmp/out" "" Posix.tmp_world) as [w' [p|e]] eqn:Hrun;
    [|vm_compute in Hrun; discriminate].
  exists w', p. split; [reflexivity|].
  exact (get_valid_path_empty_name Posix.validate_filename Posix.sanitize_filename
           "/tmp/out" "" "the value must not be an empty string" p
           Posix.tmp_world w' eq_refl eq_refl eq_refl eq_refl Hrun).
Defined.

Lemma dump_structure_path_is_file_witness :
  Posix.validate_filepath "/tmp/out/data.json" = Valid /\
  files Posix.old_world !! "/tmp/out/data.json" = Some (File "old") /\
  dump_structure Posix.validate_filename Posix.validate_filepath
    Posix.sanitize_filename (PList []) "/tmp/out/data.json" "f.json" false
    Posix.old_world
  = (Posix.old_world, Raises FileExistsError).
Proof.
  repeat (split; [reflexivity|]).
  exact (dump_structure_path_is_file Posix.validate_filename Posix.validate_filepath
           Posix.sanitize_filename (PList []) "/tmp/out/data.json" "f.json" "old"
           false Posix.old_world eq_refl eq_refl).
Defined.


Lemma dump_structure_frame_witness :
  exists w' r,
    dump_structure Posix.validate_filename Posix.validate_filepath
      Posix.sanitize_filename (PList [PInt 1]) "/tmp/out/new" "f.json" false
      Posix.old_world = (w', r) /\
    files w' !! "/tmp/out/data.json" = Some (File "old") /\
    environ w' = environ Posix.old_world.
Proof.
  destruct (dump_structure Posix.validate_filename Posix.validate_filepath
              Posix.sanitize_filename (PList [PInt 1]) "/tmp/out/new" "f.json" false
              Posix.old_world) as [w' r] eqn:Hrun.
  exists w', r. split; [reflexivity|].
  destruct (dump_structure_frame Posix.validate_filename Posix.validate_filepath
              Posix.sanitize_filename (PList [PInt 1]) "/tmp/out/new" "f.json" false
              Posix.old_world w' r Hrun) as (Hframe & _ & Henv & _).
  split; [|exact Henv].
  rewrite (Hframe "/tmp/out/data.json"); [reflexivity | discriminate | discriminate].
Defined.

Lemma dump_structure_sort_keys_canonical_witness :
  distinct_keys (PDict [("b", PInt 1); ("a", PList [])]) = true /\
  json_dumps (PDict [("b", PInt 1); ("a", PList [])]) 2 true
  = json_dumps (PDict [("a", PList []); ("b", PInt 1)]) 2 true.
Proof.
  split; [reflexivity|].
  refine (proj1 (dump_structure_sort_keys_canonical Posix.validate_filename
                   Posix.validate_filepath Posix.sanitize_filename
                   (PDict [("b", PInt 1); ("a", PList [])])
                   (PDict [("a", PList []); ("b", PInt 1)])
                   "/tmp/out" "f.json" Posix.tmp_world eq_refl _)).
  apply (eq_mod_order_Dict _ [("b", PInt 1); ("a", PList [])]).
  - repeat constructor.
  - apply perm_swap.
Defined.


(** ** Where the configuration is read from *)

(** X13: for the module [root/pkg/file], the configuration file of a
    project is [root/properties/<projectname>.ini] and the [.env] file is
    [root/.env]; but a project name that starts with a separator is taken
    as an absolute path, with [.ini] put after it. *)
Theorem configfile_layout (root pkg file projectname : string) :
  is_empty root = false -> endswith_sep root = false ->
  is_empty pkg = false -> has_sep pkg = false ->
  has_sep file = false ->
  let this_file := root +:+ String sep (pkg +:+ String sep file) in
  configfile_of this_file projectname
  = (if startswith_sep projectname then projectname +:+ ".ini"
     else root +:+ "/properties/" +:+ projectname +:+ ".ini") /\
  envfile_of this_file = root +:+ "/.env".
Proof.
  intros Hr1 Hr2 Hp1 Hp2 Hfile this_file. subst this_file.
  unfold configfile_of, envfile_of.
  replace (root +:+ String sep (pkg +:+ String sep file))
    with ((root +:+ String sep pkg) +:+ String sep file)
    by (rewrite append_assoc; reflexivity).
  rewrite (os_path_split_join _ file);
    [| destruct root; [discriminate | reflexivity] | | exact Hfile].
  - rewrite (os_path_split_join root pkg Hr1 Hr2 Hp2).
    assert (H2 : is_empty (root +:+ String sep "properties") = false)
      by (destruct root; reflexivity).
    assert (H3 : endswith_sep (root +:+ String sep "properties") = false)
      by (rewrite endswith_sep_app; reflexivity).
    rewrite !(os_path_join_plain root) by (assumption || reflexivity).
    split; [|reflexivity].
    destruct (startswith_sep projectname) eqn:Hp.
    + unfold os_path_join.
      assert (H1 : startswith_sep (projectname +:+ ".ini") = true)
        by (destruct projectname; [discriminate | exact Hp]).
      rewrite H1. reflexivity.
    + assert (H1 : startswith_sep (projectname +:+ ".ini") = false)
        by (destruct projectname; [reflexivity | exact Hp]).
      rewrite (os_path_join_plain _ _ H2 H3 H1).
      rewrite !append_assoc. reflexivity.
  - rewrite endswith_sep_app by (destruct pkg; [discriminate | reflexivity]).
    cbn [endswith_sep]. destruct pkg as [|c r]; [discriminate|].
    change (endswith_sep (String c r) = false). apply endswith_sep_no_sep. exact Hp2.
Qed.

(** ** The configuration file, the environment and the log handler *)

Lemma setdefault_keeps (kvs : list (string * string)) : forall (env : gmap string string) k v,
  env !! k = Some v -> fold_left setdefault kvs env !! k = Some v.
Proof.
  induction kvs as [|kv kvs IH]; intros env k v H; [exact H|].
  cbn [fold_left]. apply IH. unfold setdefault.
  destruct (env !! fst kv) eqn:Hkv; [exact H|].
  rewrite lookup_insert_ne; [exact H | congruence].
Qed.

Lemma setdefault_origin (kvs : list (string * string)) : forall (env : gmap string string) k v,
  fold_left setdefault kvs env !! k = Some v ->
  env !! k = Some v \/ In (k, v) kvs.
Proof.
  induction kvs as [|kv kvs IH]; intros env k v H; [left; exact H|].
  cbn [fold_left] in H. apply IH in H. destruct H as [H|H]; [|right; right; exact H].
  unfold setdefault in H. destruct (env !! fst kv) eqn:Hkv; [left; exact H|].
  destruct (decide (fst kv = k)) as [Heq|Hne].
  - rewrite Heq, lookup_insert_eq in H. right. left.
    destruct kv as [k0 v0]. cbn in *. congruence.
  - rewrite lookup_insert_ne in H by exact Hne. left. exact H.
Qed.

Section EnvMore.

Variable this_file : string.
Variable hostname : string.
Variable read_file : string -> result ini.
Variable dotenv_values : gmap string string -> string -> list (string * string).

Notation load_dotenv := (load_dotenv dotenv_values).
Notation configfile_of := (configfile_of this_file).
Notation envfile_of := (envfile_of this_file).
Notation get_inifile := (get_inifile this_file read_file dotenv_values).
Notation init_loghandler := (init_loghandler hostname).
Notation init_env := (init_env this_file hostname read_file dotenv_values).
Notation logfile_of := (logfile_of hostname).

(** [get_inifile] in two steps: the configuration, then the [.env] file. *)
Lemma get_inifile_steps (projectname : string) (w : world) :
  get_inifile projectname w =
    match
      match files w !! configfile_of projectname with
      | Some (File c) =>
          match read_file c with
          | Returns sections => Returns (ConfigParser sections)
          | Raises FileNotFoundError => Returns EmptyDict
          | Raises e => Raises e
          end
      | Some Dir => Raises IsADirectoryError
      | None =>
          match read_error (files w) (configfile_of projectname) with
          | FileNotFoundError => Returns EmptyDict
          | e => Raises e
          end
      end
    with
    | Returns config =>
        match load_dotenv envfile_of w with
        | (w', _) => (w', Returns config)
        end
    | Raises e => (w, Raises e)
    end.
Proof.
  unfold get_inifile, configfile_of, envfile_of.
  destruct (os_path_split this_file) as [filepath_lib t1].
  destruct (os_path_split filepath_lib) as [filepath t2].
  unfold bind at 1. unfold try_except, bind at 1, open_r.
  destruct (files w !! _) as [[c|]|].
  - unfold bind at 1, lift. destruct (read_file c) as [sections|e].
    + cbn -[load_dotenv os_path_join]. unfold bind.
      destruct (load_dotenv_returns dotenv_values (os_path_join filepath ".env") w)
        as (w' & b & -> & _). reflexivity.
    + destruct e; try reflexivity.
      cbn -[load_dotenv os_path_join]. unfold bind.
      destruct (load_dotenv_returns dotenv_values (os_path_join filepath ".env") w)
        as (w' & b & -> & _). reflexivity.
  - reflexivity.
  - destruct (read_error (files w) _); try reflexivity.
    cbn -[load_dotenv os_path_join]. unfold bind.
    destruct (load_dotenv_returns dotenv_values (os_path_join filepath ".env") w)
      as (w' & b & -> & _). reflexivity.
Qed.

Lemma get_inifile_logging (projectname : string) (w w' : world)
    (r : result config) :
  get_inifile projectname w = (w', r) ->
  files w' = files w /\ records w' = records w /\
  root_level w' = root_level w /\ root_handlers w' = root_handlers w.
Proof.
  rewrite get_inifile_steps. intros H.
  assert (Hw : w' = w \/ w' = fst (load_dotenv envfile_of w)).
  { destruct (match files w !! configfile_of projectname with
              | Some (File c) => _ | Some Dir => _ | None => _ end) as [cfg|e].
    - destruct (load_dotenv envfile_of w) as [w1 b]. injection H as <- _. auto.
    - injection H as <- _. auto. }
  clear H. destruct Hw as [-> | ->]; [auto|].
  unfold load_dotenv. destruct (files w !! envfile_of) as [[c|]|]; auto.
Qed.

Lemma load_dotenv_environ (p : string) (w : world) :
  fst (load_dotenv p w) =
    match files w !! p with
    | Some (File c) =>
        set_environ (fold_left setdefault (dotenv_values (environ w) c) (environ w)) w
    | _ => w
    end.
Proof.
  unfold load_dotenv. destruct (files w !! p) as [[c|]|]; reflexivity.
Qed.


(** X15: only a missing file is tolerated.  A directory at the place of the
    configuration file, or a file [configparser] refuses, makes
    [get_inifile] raise to its caller before the [.env] file is loaded, so
    the world is unchanged; [init_env] raises the same exception and sets up
    no logging. *)
Theorem get_inifile_unreadable (projectname : string) (w : world) :
  (files w !! configfile_of projectname = Some Dir ->
   get_inifile projectname w = (w, Raises IsADirectoryError)) /\
  (forall c e,
     files w !! configfile_of projectname = Some (File c) ->
     read_file c = Raises e -> e <> FileNotFoundError ->
     get_inifile projectname w = (w, Raises e) /\
     forall filename, init_env projectname filename w = (w, Raises e)).
Proof.
  split.
  - intros Hf. rewrite get_inifile_steps, Hf. reflexivity.
  - intros c e Hf Hr He.
    assert (H : get_inifile projectname w = (w, Raises e)).
    { rewrite get_inifile_steps, Hf, Hr. destruct e; congruence. }
    split; [exact H|]. intros filename. rewrite init_env_unfold, H. reflexivity.
Qed.

(** X16: however [get_inifile] ends, it touches neither the file system nor
    the log nor the root logger, and a variable that is set in the
    environment keeps its value: the [.env] file only adds variables, each
    with a value the file gives it.  Without a [.env] file the environment
    is unchanged. *)
Theorem get_inifile_environment (projectname : string) (w w' : world)
    (r : result config) :
  get_inifile projectname w = (w', r) ->
  files w' = files w /\ records w' = records w /\
  root_level w' = root_level w /\ root_handlers w' = root_handlers w /\
  (forall k v, environ w !! k = Some v -> environ w' !! k = Some v) /\
  (forall k v, environ w' !! k = Some v ->
     environ w !! k = Some v \/
     exists c, files w !! envfile_of = Some (File c) /\
               In (k, v) (dotenv_values (environ w) c)) /\
  (isfile (files w) envfile_of = false -> environ w' = environ w).
Proof.
  rewrite get_inifile_steps. intros H.
  assert (Hw : w' = w \/ w' = fst (load_dotenv envfile_of w)).
  { destruct (match files w !! configfile_of projectname with
              | Some (File c) => _ | Some Dir => _ | None => _ end) as [cfg|e].
    - destruct (load_dotenv envfile_of w) as [w1 b]. injection H as <- _. auto.
    - injection H as <- _. auto. }
  clear H. destruct Hw as [-> | ->]; [auto 10|].
  rewrite load_dotenv_environ. unfold isfile.
  destruct (files w !! envfile_of) as [[c|]|]; [|auto 10|auto 10].
  cbn. repeat split; try reflexivity.
  - intros k v. apply setdefault_keeps.
  - intros k v Hk. apply setdefault_origin in Hk. destruct Hk; eauto.
  - discriminate.
Qed.

Lemma init_loghandler_cases (modulename : string) (w : world) :
  init_loghandler modulename w =
    match environ w !! "LOGLEVEL", environ w !! "LOGDIR" with
    | None, _ => (w, Raises AttributeError)
    | Some _, None => (w, Raises TypeError)
    | Some lv, Some d =>
        match nameToLevel (upper lv) with
        | None => (w, Raises ValueError)
        | Some n =>
            match open_a (logfile_of d modulename) (set_root_level n w) with
            | (w2, Raises e) => (w2, Raises e)
            | (w2, Returns _) =>
                (set_named_levels
                   (<["websockets.protocol" := logging_WARNING]>
                      (<["websockets.client" := logging_WARNING]>
                         (<["asyncio" := logging_WARNING]> (named_levels w))))
                   (set_root_handlers
                      (root_handlers w ++ [rotating_handler (logfile_of d modulename)]) w2),
                 Returns tt)
            end
        end
    end.
Proof.
  destruct (environ w !! "LOGLEVEL") as [lv|] eqn:Hlv.
  - destruct (environ w !! "LOGDIR") as [d|] eqn:Hd.
    + exact (init_loghandler_set hostname modulename d lv w Hd Hlv).
    + exact (init_loghandler_unset_dir hostname modulename lv w Hlv Hd).
  - exact (init_loghandler_unset_level hostname modulename w Hlv).
Qed.

Lemma open_a_cases (p : string) (w : world) :
  open_a p w =
    match files w !! p with
    | Some Dir => (w, Raises IsADirectoryError)
    | Some (File _) => (w, Returns tt)
    | None =>
        if parent_exists (files w) p
        then (set_files (<[p := File ""]> (files w)) w, Returns tt)
        else (w, Raises (missing_error (files w) p))
    end.
Proof. reflexivity. Qed.

Lemma open_a_frame (p : string) (w w' : world) (r : result unit) :
  open_a p w = (w', r) ->
  records w' = records w /\ root_handlers w' = root_handlers w /\
  environ w' = environ w /\ root_level w' = root_level w /\
  named_levels w' = named_levels w.
Proof.
  rewrite open_a_cases.
  destruct (files w !! p) as [[c|]|]; [| |destruct (parent_exists (files w) p)];
    intros H; injection H as <- <-; repeat split.
Qed.

(** X17: when [LOGLEVEL], a string of ASCII characters, is not the name of
    a level once in upper case, [init_loghandler] raises [ValueError] and
    changes nothing: no handler is added and no log file is created. *)
Theorem init_loghandler_unknown_level (modulename d lv : string) (w : world) :
  environ w !! "LOGDIR" = Some d ->
  environ w !! "LOGLEVEL" = Some lv ->
  is_ascii lv = true ->
  nameToLevel (upper lv) = None ->
  init_loghandler modulename w = (w, Raises ValueError).
Proof.
  intros Hd Hlv _ Hn. rewrite init_loghandler_cases, Hd, Hlv, Hn. reflexivity.
Qed.

(** X18: when [LOGLEVEL] is a string of ASCII characters and
    [init_loghandler] returns, the level of the root logger is the one
    [LOGLEVEL] names, upper or lower case; the loggers [asyncio],
    [websockets.client] and [websockets.protocol] are at [WARNING] and the
    level of no other named logger has changed; the environment and the log
    are as before. *)
Theorem init_loghandler_levels (modulename lv : string) (w w' : world) :
  environ w !! "LOGLEVEL" = Some lv ->
  is_ascii lv = true ->
  init_loghandler modulename w = (w', Returns tt) ->
  exists n,
    nameToLevel (upper lv) = Some n /\
    root_level w' = n /\
    named_levels w' !! "asyncio" = Some logging_WARNING /\
    named_levels w' !! "websockets.client" = Some logging_WARNING /\
    named_levels w' !! "websockets.protocol" = Some logging_WARNING /\
    (forall name, name <> "asyncio" -> name <> "websockets.client" ->
                  name <> "websockets.protocol" ->
                  named_levels w' !! name = named_levels w !! name) /\
    environ w' = environ w /\ records w' = records w.
Proof.
  intros Hlv _. rewrite init_loghandler_cases, Hlv.
  destruct (environ w !! "LOGDIR") as [d|]; [|discriminate].
  destruct (nameToLevel (upper lv)) as [n|] eqn:Hn; [|discriminate].
  rewrite open_a_cases. cbn [files set_root_level].
  intros H. exists n. split; [reflexivity|].
  assert (Hw : exists f, w' =
            set_named_levels
              (<["websockets.protocol" := logging_WARNING]>
                 (<["websockets.client" := logging_WARNING]>
                    (<["asyncio" := logging_WARNING]> (named_levels w))))
              (set_root_handlers
                 (root_handlers w ++ [rotating_handler (logfile_of d modulename)])
                 (set_files f (set_root_level n w)))).
  { destruct (files w !! logfile_of d modulename) as [[c|]|]; [| discriminate |].
    - injection H as <-. exists (files w). reflexivity.
    - destruct (parent_exists (files w) (logfile_of d modulename)); [|discriminate].
      injection H as <-. eexists. reflexivity. }
  destruct Hw as [f ->]. cbn.
  split; [reflexivity|].
  split; [rewrite lookup_insert_ne by discriminate;
          rewrite lookup_insert_ne by discriminate; apply lookup_insert_eq|].
  split; [rewrite lookup_insert_ne by discriminate; apply lookup_insert_eq|].
  split; [apply lookup_insert_eq|].
  split; [|split; reflexivity].
  intros name H1 H2 H3. rewrite !lookup_insert_ne by congruence. reflexivity.
Qed.


(** X20: [init_loghandler] does not look at the handlers that are there.
    After a call that returned, a second call returns as well and the root
    logger then holds the handler of the log file twice; the second call
    leaves the file system as it is. *)
Theorem init_loghandler_twice (modulename : string) (w w1 : world) :
  init_loghandler modulename w = (w1, Returns tt) ->
  exists d w2,
    environ w !! "LOGDIR" = Some d /\
    init_loghandler modulename w1 = (w2, Returns tt) /\
    root_handlers w2
    = root_handlers w ++ [rotating_handler (logfile_of d modulename);
                          rotating_handler (logfile_of d modulename)] /\
    files w2 = files w1.
Proof.
  rewrite !init_loghandler_cases.
  destruct (environ w !! "LOGLEVEL") as [lv|] eqn:Hlv; [|discriminate].
  destruct (environ w !! "LOGDIR") as [d|] eqn:Hd; [|discriminate].
  destruct (nameToLevel (upper lv)) as [n|] eqn:Hn; [|discriminate].
  rewrite open_a_cases. cbn [files set_root_level].
  intros H. exists d.
  assert (Hw : exists f, f !! logfile_of d modulename <> None /\
             f !! logfile_of d modulename <> Some Dir /\ w1 =
            set_named_levels
              (<["websockets.protocol" := logging_WARNING]>
                 (<["websockets.client" := logging_WARNING]>
                    (<["asyncio" := logging_WARNING]> (named_levels w))))
              (set_root_handlers
                 (root_handlers w ++ [rotating_handler (logfile_of d modulename)])
                 (set_files f (set_root_level n w)))).
  { destruct (files w !! logfile_of d modulename) as [[c|]|] eqn:Hf; [| discriminate |].
    - injection H as <-. exists (files w). rewrite Hf.
      split; [discriminate|]. split; [discriminate | reflexivity].
    - destruct (parent_exists (files w) (logfile_of d modulename)); [|discriminate].
      injection H as <-.
      exists (<[logfile_of d modulename := File ""]> (files w)).
      rewrite lookup_insert_eq.
      split; [discriminate|]. split; [discriminate | reflexivity]. }
  destruct Hw as (f & Hf1 & Hf2 & ->). cbn [environ set_named_levels set_root_handlers
    set_files set_root_level files root_handlers named_levels root_level records].
  rewrite Hlv, Hd, Hn, open_a_cases.
  cbn [environ set_named_levels set_root_handlers
    set_files set_root_level files root_handlers named_levels root_level records].
  destruct (f !! logfile_of d modulename) as [[c|]|]; [|congruence|congruence].
  eexists. split; [reflexivity|]. split; [reflexivity|].
  cbn. rewrite <- List.app_assoc. split; reflexivity.
Qed.

(** X21: however [init_loghandler] ends, every path that existed keeps what
    stood at it, so a log file that is there is not truncated; the only
    path it can create is the log file in [LOGDIR], empty; and it makes no
    logging call. *)
Theorem init_loghandler_files (modulename : string) (w w' : world)
    (r : result unit) :
  init_loghandler modulename w = (w', r) ->
  (forall p, files w !! p <> None -> files w' !! p = files w !! p) /\
  (forall p, files w !! p = None -> files w' !! p <> None ->
     files w' !! p = Some (File "") /\
     exists d, environ w !! "LOGDIR" = Some d /\ p = logfile_of d modulename) /\
  records w' = records w.
Proof.
  rewrite init_loghandler_cases.
  destruct (environ w !! "LOGLEVEL") as [lv|] eqn:Hlv;
    [|intros H; injection H as <- <-; repeat split; congruence].
  destruct (environ w !! "LOGDIR") as [d|] eqn:Hd;
    [|intros H; injection H as <- <-; repeat split; congruence].
  destruct (nameToLevel (upper lv)) as [n|] eqn:Hn;
    [|intros H; injection H as <- <-; repeat split; congruence].
  rewrite open_a_cases. cbn [files set_root_level].
  destruct (files w !! logfile_of d modulename) as [[c|]|] eqn:Hf.
  - intros H; injection H as <- <-. cbn. repeat split; congruence.
  - intros H; injection H as <- <-. cbn. repeat split; congruence.
  - destruct (parent_exists (files w) (logfile_of d modulename)).
    + intros H; injection H as <- <-. cbn. split; [|split; [|reflexivity]].
      * intros p Hp. apply lookup_insert_ne. congruence.
      * intros p Hp Hp'. destruct (decide (logfile_of d modulename = p)) as [<-|Hne].
        -- rewrite lookup_insert_eq. eauto.
        -- rewrite lookup_insert_ne in Hp' by exact Hne. congruence.
    + intros H; injection H as <- <-. cbn. repeat split; congruence.
Qed.

(** X22: when [init_env] returns a configuration, it is the one
    [get_inifile] returned; [LOGDIR] is set once [get_inifile] is done, the
    root logger has one more handler, on the file named after the module
    name of the calling script in [LOGDIR], that file exists, and the one
    logging call made is [Start Application] at [INFO]. *)
Theorem init_env_returns (projectname filename : string) (config : config)
    (w w' : world) :
  init_env projectname filename w = (w', Returns config) ->
  exists w1 d,
    get_inifile projectname w = (w1, Returns config) /\
    environ w1 !! "LOGDIR" = Some d /\
    let logfile := logfile_of d (get_modulename filename) in
    root_handlers w' = root_handlers w ++ [rotating_handler logfile] /\
    isfile (files w') logfile = true /\
    records w' = records w ++ [(logging_INFO, "Start Application")].
Proof.
  rewrite init_env_unfold.
  destruct (get_inifile projectname w) as [w1 [cfg|e]] eqn:Hget; [|discriminate].
  destruct (get_inifile_logging _ _ _ _ Hget) as (Hfiles & Hrec & _ & Hh).
  rewrite init_loghandler_cases.
  destruct (environ w1 !! "LOGLEVEL") as [lv|]; [|discriminate].
  destruct (environ w1 !! "LOGDIR") as [d|] eqn:Hd; [|discriminate].
  destruct (nameToLevel (upper lv)) as [n|]; [|discriminate].
  destruct (open_a (logfile_of d (get_modulename filename)) (set_root_level n w1))
    as [w2 [[]|e]] eqn:Hopen; [|discriminate].
  intros H. injection H as <- <-. exists w1, d.
  split; [reflexivity|]. split; [exact Hd|].
  destruct (open_a_frame _ _ _ _ Hopen) as (Hr2 & Hh2 & _).
  cbn in Hr2. cbn. rewrite Hr2, Hh, Hrec.
  split; [reflexivity|]. split; [|reflexivity].
  exact (open_a_returns _ _ _ Hopen).
Qed.


End EnvMore.

(** *** On concrete inputs *)

Lemma configfile_layout_witness :
  configfile_of Posix.this_file "qs" = "/opt/qsapi/properties/qs.ini" /\
  configfile_of Posix.this_file "/etc/qs" = "/etc/qs.ini" /\
  envfile_of Posix.this_file = "/opt/qsapi/.env".
Proof.
  destruct (configfile_layout "/opt/qsapi" "lib" "my_env.py" "qs"
              eq_refl eq_refl eq_refl eq_refl eq_refl) as [H1 H2].
  destruct (configfile_layout "/opt/qsapi" "lib" "my_env.py" "/etc/qs"
              eq_refl eq_refl eq_refl eq_refl eq_refl) as [H3 _].
  split; [exact H1|]. split; [exact H3 | exact H2].
Defined.


Lemma get_inifile_unreadable_witness :
  files Posix.project_world !! "/opt/qsapi/properties/bad.ini" = Some (File "") /\
  Posix.read_file "" = Raises (ConfigError "no section header") /\
  init_env Posix.this_file Posix.hostname Posix.read_file Posix.dotenv_values
    "bad" "/opt/qsapi/load.py" Posix.project_world
  = (Posix.project_world, Raises (ConfigError "no section header")).
Proof.
  repeat (split; [reflexivity|]).
  destruct (get_inifile_unreadable Posix.this_file Posix.hostname Posix.read_file
              Posix.dotenv_values "bad" Posix.project_world) as [_ Hbad].
  destruct (Hbad "" (ConfigError "no section header") eq_refl eq_refl
              ltac:(discriminate)) as [_ Hinit].
  exact (Hinit "/opt/qsapi/load.py").
Defined.

Lemma get_inifile_environment_witness :
  environ Posix.project_world !! "LOGLEVEL" = Some "info" /\
  exists w' r,
    get_inifile Posix.this_file Posix.read_file Posix.dotenv_values "qs"
      Posix.project_world = (w', r) /\
    environ w' !! "LOGLEVEL" = Some "info" /\
    files w' = files Posix.project_world.
Proof.
  split; [reflexivity|].
  destruct (get_inifile Posix.this_file Posix.read_file Posix.dotenv_values "qs"
              Posix.project_world) as [w' r] eqn:Hrun.
  exists w', r. split; [reflexivity|].
  destruct (get_inifile_environment Posix.this_file Posix.read_file
              Posix.dotenv_values "qs" Posix.project_world w' r Hrun)
    as (Hfiles & _ & _ & _ & Hkeep & _).
  split; [exact (Hkeep "LOGLEVEL" "info" eq_refl) | exact Hfiles].
Defined.

Lemma init_loghandler_unknown_level_witness :
  environ Posix.verbose_world !! "LOGDIR" = Some "/tmp/out" /\
  environ Posix.verbose_world !! "LOGLEVEL" = Some "verbose" /\
  is_ascii "verbose" = true /\
  nameToLevel (upper "verbose") = None /\
  init_loghandler Posix.hostname "load" Posix.verbose_world
  = (Posix.verbose_world, Raises ValueError).
Proof.
  repeat (split; [reflexivity|]).
  exact (init_loghandler_unknown_level Posix.hostname "load" "/tmp/out" "verbose"
           Posix.verbose_world eq_refl eq_refl eq_refl eq_refl).
Defined.

Lemma init_loghandler_levels_witness :
  environ Posix.env_world !! "LOGLEVEL" = Some "info" /\
  is_ascii "info" = true /\
  exists w',
    init_loghandler Posix.hostname "load" Posix.env_world = (w', Returns tt) /\
    root_level w' = logging_INFO /\
    named_levels w' !! "asyncio" = Some logging_WARNING.
Proof.
  split; [reflexivity|]. split; [reflexivity|].
  destruct (init_loghandler Posix.hostname "load" Posix.env_world)
    as [w' [[]|e]] eqn:Hrun; [|vm_compute in Hrun; discriminate].
  exists w'. split; [reflexivity|].
  destruct (init_loghandler_levels Posix.hostname "load" "info" Posix.env_world w'
              eq_refl eq_refl Hrun)
    as (n & Hn & Hroot & Hasync & _).
  split; [|exact Hasync].
  rewrite Hroot. vm_compute in Hn. injection Hn as <-. reflexivity.
Defined.


Lemma init_loghandler_twice_witness :
  exists w1 w2,
    init_loghandler Posix.hostname "load" Posix.env_world = (w1, Returns tt) /\
    init_loghandler Posix.hostname "load" w1 = (w2, Returns tt) /\
    root_handlers w2
    = [rotating_handler "/tmp/out/load_host1.log";
       rotating_handler "/tmp/out/load_host1.log"].
Proof.
  destruct (init_loghandler Posix.hostname "load" Posix.env_world)
    as [w1 [[]|e]] eqn:Hrun; [|vm_compute in Hrun; discriminate].
  destruct (init_loghandler_twice Posix.hostname "load" Posix.env_world w1 Hrun)
    as (d & w2 & Hd & Hrun2 & Hh & _).
  exists w1, w2. split; [reflexivity|]. split; [exact Hrun2|].
  rewrite Hh. vm_compute in Hd. injection Hd as <-. reflexivity.
Defined.

Lemma init_loghandler_files_witness :
  exists w' r,
    init_loghandler Posix.hostname "load" Posix.env_world = (w', r) /\
    files w' !! "/tmp/out" = Some Dir /\
    records w' = [].
Proof.
  destruct (init_loghandler Posix.hostname "load" Posix.env_world) as [w' r] eqn:Hrun.
  exists w', r. split; [reflexivity|].
  destruct (init_loghandler_files Posix.hostname "load" Posix.env_world w' r Hrun)
    as (Hkeep & _ & Hrec).
  split; [|exact Hrec].
  rewrite (Hkeep "/tmp/out"); [reflexivity | discriminate].
Defined.

Lemma init_env_returns_witness :
  exists w' config,
    init_env Posix.this_file Posix.hostname Posix.read_file Posix.dotenv_values
      "qs" "/opt/qsapi/load.py" Posix.env_world = (w', Returns config) /\
    records w' = [(logging_INFO, "Start Application")].
Proof.
  destruct (init_env Posix.this_file Posix.hostname Posix.read_file
              Posix.dotenv_values "qs" "/opt/qsapi/load.py" Posix.env_world)
    as [w' [config|e]] eqn:Hrun; [|vm_compute in Hrun; discriminate].
  exists w', config. split; [reflexivity|].
  destruct (init_env_returns Posix.this_file Posix.hostname Posix.read_file
              Posix.dotenv_values "qs" "/opt/qsapi/load.py" config
              Posix.env_world w' Hrun) as (w1 & d & _ & _ & _ & _ & Hrec).
  exact Hrec.
Defined.


(** ** The counts of the loop reporter *)

Section LoopMore.

Variable strftime_now : nat -> string.
Notation LoopInfo_init := (LoopInfo_init strftime_now).
Notation info_loop := (info_loop strftime_now).
Notation end_loop := (end_loop strftime_now).
Notation info_loops := (info_loops strftime_now).

(** X24: for a trigger count [N >= 1], after [k] calls of [info_loop] on a
    new [LoopInfo] the call count is [k], [k / N] progress lines have been
    printed and [loop_cnt] is [k mod N]: the calls made since the last
    progress line are counted but not yet reported. *)
Theorem loop_info_counts (attrib : string) (N : Z) (c : console) (k : nat) :
  1 <= N ->
  let start := LoopInfo_init attrib N c in
  let after := info_loops k (fst start) (snd start) in
  rec_cnt (fst after) = Z.of_nat k /\
  loop_cnt (fst after) = Z.of_nat k mod N /\
  Z.of_nat (progress_lines (snd after)) = Z.of_nat (progress_lines c) + Z.of_nat k / N.
Proof.
  intros HN start after.
  pose proof (info_loops_counts strftime_now k (fst start) (snd start)) as H.
  fold after in H. destruct after as [self' c'].
  assert (Hp0 : progress_lines (snd start) = progress_lines c).
  { subst start. unfold LoopInfo_init. cbn -[print_at progress_lines].
    rewrite progress_lines_print. cbn. lia. }
  subst start. cbn -[print_at progress_lines] in H, Hp0.
  rewrite Hp0, !Z.add_0_l in H.
  destruct H as (H1 & _ & H2 & H3); [lia | lia |]. cbn [fst snd]. auto.
Qed.

Lemma info_loops_small_trigger (k : nat) : forall (self : LoopInfo) (c : console),
  triggercnt self <= 1 -> 0 <= loop_cnt self ->
  let '(self', c') := info_loops k self c in
  rec_cnt self' = rec_cnt self + Z.of_nat k /\
  triggercnt self' = triggercnt self /\
  loop_cnt self' = match k with O => loop_cnt self | S _ => 0 end /\
  progress_lines c' = (progress_lines c + k)%nat.
Proof.
  induction k as [|k IH]; intros self c HN Hl.
  - cbn. repeat split; try lia.
  - cbn [info_loops].
    pose proof (info_loop_step strftime_now self c) as Hs.
    destruct (info_loop self c) as [[self1 c1] n].
    destruct Hs as (Hr & _ & _ & Ht & Hcase).
    specialize (IH self1 c1).
    destruct (info_loops k self1 c1) as [self' c'].
    destruct (Z.leb_spec (triggercnt self) (loop_cnt self + 1)) as [_|Hlt]; [|lia].
    destruct Hcase as [Hl1 Hp1].
    destruct IH as (Hr' & Ht' & Hl' & Hp'); [lia | lia |].
    repeat split; try lia.
    destruct k; congruence.
Qed.

(** X25: with a trigger count of 1 or less, zero and the negative numbers
    included, every call of [info_loop] prints a progress line and
    [loop_cnt] is 0 after it. *)
Theorem loop_info_small_trigger (attrib : string) (N : Z) (c : console) (k : nat) :
  N <= 1 ->
  let start := LoopInfo_init attrib N c in
  let after := info_loops k (fst start) (snd start) in
  progress_lines (snd after) = (progress_lines c + k)%nat /\
  loop_cnt (fst after) = 0 /\
  rec_cnt (fst after) = Z.of_nat k.
Proof.
  intros HN start after.
  pose proof (info_loops_small_trigger k (fst start) (snd start)) as H.
  fold after in H. destruct after as [self' c'].
  assert (Hp0 : progress_lines (snd start) = progress_lines c).
  { subst start. unfold LoopInfo_init. cbn -[print_at progress_lines].
    rewrite progress_lines_print. cbn. lia. }
  subst start. cbn -[print_at progress_lines] in H, Hp0.
  destruct H as (H1 & _ & H2 & H3); [lia | lia |]. cbn [fst snd].
  rewrite Hp0 in H3. split; [exact H3|]. split; [|lia].
  destruct k; exact H2.
Qed.

Lemma progress_counts_print (mk : string -> line) (c : console) :
  progress_counts (print_at strftime_now mk c)
  = progress_counts c ++
      match mk (strftime_now (clock_reads c)) with
      | ProgressLine _ n _ => [n]
      | _ => []
      end.
Proof.
  unfold progress_counts, print_at. cbn [stdout].
  rewrite flat_map_app. cbn [flat_map]. rewrite List.app_nil_r. reflexivity.
Qed.

Lemma info_loop_counts_step (self : LoopInfo) (c : console) :
  let '(self', c', _) := info_loop self c in
  progress_counts c'
  = progress_counts c ++
      (if triggercnt self <=? loop_cnt self + 1 then [rec_cnt self + 1] else []).
Proof.
  unfold info_loop. cbn -[print_at progress_counts].
  destruct (triggercnt self <=? loop_cnt self + 1); cbn -[print_at progress_counts].
  - rewrite progress_counts_print. reflexivity.
  - rewrite List.app_nil_r. reflexivity.
Qed.

Lemma info_loops_progress_counts (k : nat) : forall (self : LoopInfo) (c : console),
  1 <= triggercnt self ->
  0 <= loop_cnt self < triggercnt self ->
  progress_counts (snd (info_loops k self c))
  = progress_counts c ++
      map (fun j => rec_cnt self - loop_cnt self + triggercnt self * Z.of_nat j)
        (seq 1 (Z.to_nat ((loop_cnt self + Z.of_nat k) / triggercnt self))).
Proof.
  induction k as [|k IH]; intros self c HN Hl.
  - cbn [info_loops snd]. rewrite Z.add_0_r, Z.div_small by lia.
    cbn. rewrite List.app_nil_r. reflexivity.
  - cbn [info_loops].
    pose proof (info_loop_step strftime_now self c) as Hs.
    pose proof (info_loop_counts_step self c) as Hc.
    destruct (info_loop self c) as [[self1 c1] n].
    destruct Hs as (Hr & _ & _ & Ht & Hcase).
    destruct (Z.leb_spec (triggercnt self) (loop_cnt self + 1)) as [Hge|Hlt];
      destruct Hcase as [Hl1 _]; rewrite (IH self1 c1) by lia;
      rewrite Hc, Ht, Hr, Hl1.
    + rewrite <- List.app_assoc. f_equal.
      replace (loop_cnt self + Z.of_nat (S k)) with (Z.of_nat k + 1 * triggercnt self) by lia.
      rewrite Z.div_add by lia. rewrite Z.add_0_l.
      assert (0 <= Z.of_nat k / triggercnt self) by (apply Z.div_pos; lia).
      replace (Z.to_nat (Z.of_nat k / triggercnt self + 1))
        with (S (Z.to_nat (Z.of_nat k / triggercnt self))) by lia.
      cbn [seq map app]. f_equal; [lia|].
      rewrite <- (seq_shift _ 1), map_map. apply map_ext. intros j. lia.
    + rewrite List.app_nil_r. f_equal.
      replace (loop_cnt self + Z.of_nat (S k)) with (loop_cnt self + 1 + Z.of_nat k) by lia.
      apply map_ext. intros j. lia.
Qed.

(** X26: for a trigger count [N >= 1], the counts the progress lines report
    are the multiples of [N] up to the number of calls, in order:
    [N], [2 * N], ... *)
Theorem loop_info_progress_counts (attrib : string) (N : Z) (c : console) (k : nat) :
  1 <= N ->
  let start := LoopInfo_init attrib N c in
  progress_counts (snd (info_loops k (fst start) (snd start)))
  = progress_counts c ++ map (fun j => N * Z.of_nat j) (seq 1 (Z.to_nat (Z.of_nat k / N))).
Proof.
  intros HN start.
  rewrite info_loops_progress_counts by (subst start; cbn; lia).
  subst start. unfold LoopInfo_init. cbn -[print_at progress_counts].
  rewrite progress_counts_print. cbn [app]. rewrite List.app_nil_r.
  f_equal. all: apply map_ext; intros j; lia.
Qed.

End LoopMore.

Section LoopTranscript.

Variable strftime_now : nat -> string.
Notation LoopInfo_init := (LoopInfo_init strftime_now).
Notation info_loop := (info_loop strftime_now).
Notation end_loop := (end_loop strftime_now).
Notation info_loops := (info_loops strftime_now).

Lemma info_loop_console (self : LoopInfo) (c : console) :
  let '(self', c', _) := info_loop self c in
  attribname self' = attribname self /\
  c' = if triggercnt self <=? loop_cnt self + 1
       then {| stdout := stdout c ++ [ProgressLine (strftime_now (clock_reads c))
                                        (rec_cnt self + 1) (attribname self)];
               clock_reads := S (clock_reads c) |}
       else c.
Proof.
  unfold info_loop. cbn.
  destruct (triggercnt self <=? loop_cnt self + 1); cbn; auto.
Qed.

Lemma info_loops_stdout (k : nat) : forall (self : LoopInfo) (c : console),
  1 <= triggercnt self ->
  0 <= loop_cnt self < triggercnt self ->
  let m := Z.to_nat ((loop_cnt self + Z.of_nat k) / triggercnt self) in
  let c' := snd (info_loops k self c) in
  stdout c'
  = stdout c ++
      map (fun j => ProgressLine (strftime_now (clock_reads c + j))
                      (rec_cnt self - loop_cnt self + triggercnt self * Z.of_nat (S j))
                      (attribname self))
        (seq 0 m) /\
  clock_reads c' = (clock_reads c + m)%nat /\
  attribname (fst (info_loops k self c)) = attribname self.
Proof.
  induction k as [|k IH]; intros self c HN Hl.
  - cbn [info_loops snd fst]. rewrite Z.add_0_r, Z.div_small by lia.
    cbn. rewrite List.app_nil_r, Nat.add_0_r. auto.
  - cbn [info_loops].
    pose proof (info_loop_step strftime_now self c) as Hs.
    pose proof (info_loop_console self c) as Hc.
    destruct (info_loop self c) as [[self1 c1] n].
    destruct Hs as (Hr & _ & _ & Ht & Hcase). destruct Hc as [Ha Hc].
    destruct (Z.leb_spec (triggercnt self) (loop_cnt self + 1)) as [Hge|Hlt];
      destruct Hcase as [Hl1 _];
      destruct (IH self1 c1 ltac:(lia) ltac:(lia)) as (Hout & Hclock & Hattr);
      rewrite Hout, Hclock, Hattr, Ht, Hr, Hl1, Ha; subst c1; cbn [stdout clock_reads].
    + replace (loop_cnt self + Z.of_nat (S k)) with (Z.of_nat k + 1 * triggercnt self) by lia.
      rewrite Z.div_add by lia. rewrite Z.add_0_l.
      assert (0 <= Z.of_nat k / triggercnt self) by (apply Z.div_pos; lia).
      replace (Z.to_nat (Z.of_nat k / triggercnt self + 1))
        with (S (Z.to_nat (Z.of_nat k / triggercnt self))) by lia.
      split; [|split; [lia | reflexivity]].
      rewrite <- List.app_assoc. f_equal. cbn [seq map app]. f_equal.
      * f_equal; [f_equal; lia | lia].
      * rewrite <- seq_shift, map_map. apply map_ext. intros j.
        f_equal; [f_equal; lia | lia].
    + replace (loop_cnt self + Z.of_nat (S k)) with (loop_cnt self + 1 + Z.of_nat k) by lia.
      split; [|split; reflexivity].
      f_equal. apply map_ext. intros j. f_equal. lia.
Qed.

(** X27: the whole output of a loop.  For a trigger count [N >= 1], a new
    [LoopInfo], [k] calls of [info_loop] and [end_loop] print the start
    line, a progress line for each multiple of [N] up to [k], and the end
    line with the count [k], which [end_loop] returns; each line shows the
    time that was read when it was printed, and no other line is
    printed. *)
Theorem loop_info_transcript (attrib : string) (N : Z) (c : console) (k : nat) :
  1 <= N ->
  let start := LoopInfo_init attrib N c in
  let after := info_loops k (fst start) (snd start) in
  let m := Z.to_nat (Z.of_nat k / N) in
  let t (i : nat) := strftime_now (clock_reads c + i) in
  snd (end_loop (fst after) (snd after)) = Z.of_nat k /\
  stdout (snd (fst (end_loop (fst after) (snd after))))
  = stdout c ++ [StartLine (t 0%nat) attrib]
      ++ map (fun j => ProgressLine (t (S j)) (N * Z.of_nat (S j)) attrib) (seq 0 m)
      ++ [EndLine (t (S m)) (Z.of_nat k) attrib].
Proof.
  intros HN start after m t.
  pose proof (info_loops_counts strftime_now k (fst start) (snd start)) as Hcnt.
  destruct (info_loops_stdout k (fst start) (snd start)) as (Hout & Hclock & Hattr);
    [subst start; cbn; lia | subst start; cbn; lia |].
  fold after in Hcnt, Hout, Hclock, Hattr.
  destruct after as [self' c']. cbn [fst snd] in *.
  subst start. cbn -[print_at] in Hcnt, Hout, Hclock, Hattr.
  specialize (Hcnt ltac:(lia) ltac:(lia)). destruct Hcnt as (Hrec & _).
  rewrite !Z.add_0_l in *. fold m in Hout, Hclock.
  unfold end_loop, print_at. cbn [fst snd stdout clock_reads].
  split; [exact Hrec|].
  cbn [print_at stdout clock_reads] in Hout, Hclock.
  rewrite Hout, Hclock, Hrec, Hattr, <- !List.app_assoc. subst t. cbn beta.
  f_equal. cbn [app]. rewrite Nat.add_0_r. f_equal. f_equal.
  - apply map_ext. intros j.
    replace (S (clock_reads c) + j)%nat with (clock_reads c + S j)%nat by lia.
    reflexivity.
  - replace (S (clock_reads c) + m)%nat with (clock_reads c + S m)%nat by lia.
    reflexivity.
Qed.

End LoopTranscript.

(** *** On concrete inputs *)

Lemma loop_info_counts_witness :
  1 <= 3 /\
  let start := LoopInfo_init Posix.clock "rows" 3 Posix.empty_console in
  let after := info_loops Posix.clock 7 (fst start) (snd start) in
  rec_cnt (fst after) = 7 /\ loop_cnt (fst after) = 1 /\
  progress_lines (snd after) = 2%nat.
Proof.
  split; [lia|]. intros start after.
  destruct (loop_info_counts Posix.clock "rows" 3 Posix.empty_console 7 ltac:(lia))
    as (Hrec & Hloop & Hlines).
  split; [exact Hrec|]. split; [exact Hloop|].
  apply Nat2Z.inj. exact Hlines.
Defined.

Lemma loop_info_small_trigger_witness :
  0 <= 1 /\
  let start := LoopInfo_init Posix.clock "rows" 0 Posix.empty_console in
  let after := info_loops Posix.clock 3 (fst start) (snd start) in
  progress_lines (snd after) = 3%nat /\ loop_cnt (fst after) = 0.
Proof.
  split; [lia|]. intros start after.
  destruct (loop_info_small_trigger Posix.clock "rows" 0 Posix.empty_console 3
              ltac:(lia)) as (Hlines & Hloop & _).
  split; [exact Hlines | exact Hloop].
Defined.

Lemma loop_info_progress_counts_witness :
  1 <= 3 /\
  let start := LoopInfo_init Posix.clock "rows" 3 Posix.empty_console in
  progress_counts (snd (info_loops Posix.clock 7 (fst start) (snd start))) = [3; 6].
Proof.
  split; [lia|].
  exact (loop_info_progress_counts Posix.clock "rows" 3 Posix.empty_console 7
           ltac:(lia)).
Defined.

Lemma loop_info_transcript_witness :
  1 <= 2 /\
  let start := LoopInfo_init Posix.clock "rows" 2 Posix.empty_console in
  let after := info_loops Posix.clock 5 (fst start) (snd start) in
  snd (end_loop Posix.clock (fst after) (snd after)) = 5 /\
  stdout (snd (fst (end_loop Posix.clock (fst after) (snd after))))
  = [StartLine "12:00:00" "rows"; ProgressLine "12:00:01" 2 "rows";
     ProgressLine "12:00:02" 4 "rows"; EndLine "12:00:03" 5 "rows"].
Proof.
  split; [lia|].
  exact (loop_info_transcript Posix.clock "rows" 2 Posix.empty_console 5 ltac:(lia)).
Defined.

(** ** Running a script *)

Section ScriptFacts.

Variable sys_executable : string.
Variable str_of_list : list string -> string.
Variable subprocess_run :
  list string -> gmap string string -> gmap string node -> gmap string node * result Z.

Notation run_script := (run_script sys_executable str_of_list subprocess_run).

(** X28: [run_script] runs the interpreter on [os.path.join(path,
    script_name)] and the arguments, with the environment of the caller,
    after one [logging.debug] call that records the command.  It returns
    normally whatever the exit status of the script is; an exception of
    [subprocess.run] reaches the caller.  Only the file system can have
    changed: the environment and the logger levels of the caller are as
    before. *)
Theorem run_script_outcome (path script_name : string) (args : list string)
    (w w' : world) (r : result unit) :
  run_script path script_name args w = (w', r) ->
  let cmd := sys_executable :: os_path_join path script_name :: args in
  let child := subprocess_run cmd (environ w) (files w) in
  files w' = fst child /\
  (forall code, snd child = Returns code -> r = Returns tt) /\
  (forall e, snd child = Raises e -> r = Raises e) /\
  records w' = records w ++ [(logging_DEBUG, str_of_list cmd)] /\
  environ w' = environ w /\ root_level w' = root_level w /\
  named_levels w' = named_levels w.
Proof.
  intros Hrun cmd child.
  unfold run_script, bind, logging_debug, os_environ_copy, run_subprocess in Hrun.
  cbn [app] in Hrun. fold cmd in Hrun.
  change (logging_log logging_DEBUG (str_of_list cmd) w)
    with (logged logging_DEBUG (str_of_list cmd) w, Returns tt : result unit) in Hrun.
  cbv iota beta in Hrun.
  destruct (logged_frame logging_DEBUG (str_of_list cmd) w) as (He & Hl & Hn).
  rewrite He, files_logged in Hrun. fold child in Hrun.
  destruct child as [fs [code|e]]; injection Hrun as <- <-;
    cbn [files records environ root_level named_levels set_files fst snd];
    rewrite records_logged, He, Hl, Hn;
    (split; [reflexivity|]); (split; [congruence|]); (split; [congruence|]); auto.
Qed.

End ScriptFacts.

Lemma run_script_outcome_witness :
  exists w',
    run_script Posix.sys_executable Posix.str_of_list Posix.subprocess_run
      "/opt/qsapi" "load.py" ["-v"] Posix.env_world = (w', Returns tt) /\
    files w' !! "/tmp/out/done"
    = Some (File "/usr/bin/python3 /opt/qsapi/load.py -v") /\
    records w' = [(logging_DEBUG, "['/usr/bin/python3', '/opt/qsapi/load.py', '-v']")] /\
    environ w' = environ Posix.env_world.
Proof.
  destruct (run_script Posix.sys_executable Posix.str_of_list Posix.subprocess_run
              "/opt/qsapi" "load.py" ["-v"] Posix.env_world) as [w' r] eqn:Hrun.
  destruct (run_script_outcome Posix.sys_executable Posix.str_of_list
              Posix.subprocess_run "/opt/qsapi" "load.py" ["-v"] Posix.env_world
              w' r Hrun) as (Hfiles & Hret & _ & Hrec & Henv & _).
  exists w'. rewrite (Hret 1 eq_refl).
  split; [reflexivity|]. split; [rewrite Hfiles; reflexivity|].
  split; [exact Hrec | exact Henv].
Defined.
